(** * go-mcp-tools: position resolution, parse cache, scope hierarchy,
      declaration formatting and rename, embedded from the Go sources.

    Go [int] is modelled as [Z], Go [string] (a byte sequence) as [string]
    (a sequence of 8-bit [ascii] values), Go maps as stdpp's [gmap]/[gset].
    A call that ends in a run-time panic has the result [None]; the panic
    ends every caller up to the handler of the tool. *)

From Stdlib Require Import ZArith Lia Bool List Ascii String.
From Stdlib Require Import Numbers.DecimalString.
From Stdlib Require DecimalPos.
From stdpp Require Import gmap strings list fin_maps.

Local Open Scope string_scope.
Local Open Scope list_scope.
Local Open Scope Z_scope.
#[local] Set Warnings "-register-all".

(** ** Go string primitives used by the sources *)
Module GoString.

(** [len(s)] *)
Definition len (s : string) : Z := Z.of_nat (String.length s).

(** [s[i]] for an index in range; [None] stands for the run-time panic. *)
Definition index (s : string) (i : Z) : option ascii :=
  if i <? 0 then None else String.get (Z.to_nat i) s.

(** [s[i:j]] for [0 <= i <= j <= len(s)]. *)
Definition slice (s : string) (i j : Z) : string :=
  String.substring (Z.to_nat i) (Z.to_nat (j - i)) s.

(** [rune(b)] of a byte: its numeric value. *)
Definition rune (b : ascii) : Z := Z.of_N (N_of_ascii b).

(** [strings.Split(s, sep)] for a one-byte separator: the pieces between
    the separators (always at least one piece). *)
Fixpoint splitOn (sep : ascii) (s : string) : list string :=
  match s with
  | EmptyString => [EmptyString]
  | String c rest =>
      if Ascii.eqb c sep then EmptyString :: splitOn sep rest
      else match splitOn sep rest with
           | piece :: pieces => String c piece :: pieces
           | [] => [String c EmptyString]
           end
  end.

Definition newline : ascii := ascii_of_nat 10.
Definition nl : string := String newline "".
Definition colon : ascii := ":"%char.

(** [strings.Join(elems, sep)] *)
Fixpoint Join (elems : list string) (sep : string) : string :=
  match elems with
  | [] => ""
  | [e] => e
  | e :: rest => e +:+ sep +:+ Join rest sep
  end.

(** [strings.HasPrefix(s, prefix)] *)
Definition HasPrefix (s prefix : string) : bool := String.prefix prefix s.

(** [strings.HasSuffix(s, suffix)] *)
Definition HasSuffix (s suffix : string) : bool :=
  (String.length suffix <=? String.length s)%nat &&
  String.eqb
    (String.substring (String.length s - String.length suffix)
       (String.length suffix) s) suffix.

(** [strings.TrimPrefix(s, prefix)] *)
Definition TrimPrefix (s prefix : string) : string :=
  if HasPrefix s prefix
  then String.substring (String.length prefix)
         (String.length s - String.length prefix) s
  else s.

(** [strings.Repeat(s, count)] *)
Fixpoint Repeat (s : string) (count : nat) : string :=
  match count with O => "" | S k => s +:+ Repeat s k end.

(** [%d] of [fmt]: the decimal numeral of an [int]. *)
Definition itoa (z : Z) : string := NilEmpty.string_of_int (Z.to_int z).

(** [strconv.Atoi]: an optional sign followed by one or more decimal
    digits, within the range of a 64-bit [int]; [None] is the error. *)
Fixpoint digitsValue (s : string) (acc : Z) : option Z :=
  match s with
  | EmptyString => Some acc
  | String c rest =>
      let d := rune c - 48 in
      if (0 <=? d) && (d <=? 9) then digitsValue rest (10 * acc + d) else None
  end.

Definition Atoi (s : string) : option Z :=
  let unsigned (t : string) : option Z :=
    match t with
    | EmptyString => None
    | _ => digitsValue t 0
    end in
  let v :=
    match s with
    | String "-" t => option_map Z.opp (unsigned t)
    | String "+" t => unsigned t
    | _ => unsigned s
    end in
  match v with
  | Some z => if (- 2 ^ 63 <=? z) && (z <? 2 ^ 63) then Some z else None
  | None => None
  end.

(** White space of [strings.TrimSpace] among the ASCII bytes. *)
Definition isSpaceASCII (c : ascii) : bool :=
  let r := rune c in
  (r =? 32) || ((9 <=? r) && (r <=? 13)).

Fixpoint trimLeftASCII (s : string) : string :=
  match s with
  | String c rest => if isSpaceASCII c then trimLeftASCII rest else s
  | EmptyString => EmptyString
  end.

Fixpoint trimRightASCII (s : string) : string :=
  match s with
  | String c rest =>
      match trimRightASCII rest with
      | EmptyString => if isSpaceASCII c then EmptyString else String c EmptyString
      | t => String c t
      end
  | EmptyString => EmptyString
  end.

(** [strings.TrimSpace] on text whose white space is ASCII. *)
Definition trimSpaceASCII (s : string) : string := trimRightASCII (trimLeftASCII s).

End GoString.

(** ** Characters: UTF-8 and the letters and digits of package [unicode] *)
Module Unicode.
Import GoString.

(** [utf8.RuneError] *)
Definition RuneError : Z := 65533.

(** The payload of a continuation byte ([0x80] to [0xBF]). *)
Definition continuation (c : ascii) : option Z :=
  let b := rune c in
  if (128 <=? b) && (b <=? 191) then Some (b - 128) else None.

(** [utf8.DecodeRuneInString]: the first rune of the string and what
    follows it; an encoding that is invalid or cut short gives [RuneError]
    and takes one byte.  [None] on the empty string. *)
Definition decodeRune (s : string) : option (Z * string) :=
  match s with
  | EmptyString => None
  | String c0 rest =>
      let b0 := rune c0 in
      let invalid := Some (RuneError, rest) in
      if b0 <? 128 then Some (b0, rest)
      else if (194 <=? b0) && (b0 <=? 223) then
        match rest with
        | String c1 rest1 =>
            match continuation c1 with
            | Some x1 => Some ((b0 - 192) * 64 + x1, rest1)
            | None => invalid
            end
        | _ => invalid
        end
      else if (224 <=? b0) && (b0 <=? 239) then
        match rest with
        | String c1 (String c2 rest2) =>
            let b1 := rune c1 in
            let lo := if b0 =? 224 then 160 else 128 in
            let hi := if b0 =? 237 then 159 else 191 in
            if (lo <=? b1) && (b1 <=? hi) then
              match continuation c2 with
              | Some x2 =>
                  Some ((b0 - 224) * 4096 + (b1 - 128) * 64 + x2, rest2)
              | None => invalid
              end
            else invalid
        | _ => invalid
        end
      else if (240 <=? b0) && (b0 <=? 244) then
        match rest with
        | String c1 (String c2 (String c3 rest3)) =>
            let b1 := rune c1 in
            let lo := if b0 =? 240 then 144 else 128 in
            let hi := if b0 =? 244 then 143 else 191 in
            if (lo <=? b1) && (b1 <=? hi) then
              match continuation c2, continuation c3 with
              | Some x2, Some x3 =>
                  Some ((b0 - 240) * 262144 + (b1 - 128) * 4096 + x2 * 64 + x3,
                        rest3)
              | _, _ => invalid
              end
            else invalid
        | _ => invalid
        end
      else invalid
  end.

(** The characters of a string, as [for _, r := range s] yields them. *)
Fixpoint runesFuel (fuel : nat) (s : string) : list Z :=
  match fuel with
  | O => []
  | S k =>
      match decodeRune s with
      | Some (r, rest) => r :: runesFuel k rest
      | None => []
      end
  end.

Definition runes (s : string) : list Z := runesFuel (String.length s) s.

(** The bytes of a string, as numbers. *)
Fixpoint codes (s : string) : list Z :=
  match s with
  | EmptyString => []
  | String c rest => rune c :: codes rest
  end.

(** Every byte of the string is an ASCII character. *)
Fixpoint isASCII (s : string) : bool :=
  match s with
  | EmptyString => true
  | String c rest => (rune c <? 128) && isASCII rest
  end.

(** The tables of package [unicode] for the code points above Latin-1:
    which of them are letters (categories Lu, Ll, Lt, Lm, Lo) and which
    decimal digits (category Nd). *)
Record tables := { letterAbove : Z -> bool; digitAbove : Z -> bool }.

(** The letters of Latin-1 (the table [properties] of package [unicode]). *)
Definition latin1Letter (r : Z) : bool :=
  ((65 <=? r) && (r <=? 90)) || ((97 <=? r) && (r <=? 122))
  || (r =? 170) || (r =? 181) || (r =? 186)
  || ((192 <=? r) && (r <=? 214)) || ((216 <=? r) && (r <=? 246))
  || ((248 <=? r) && (r <=? 255)).

(** [unicode.IsLetter] and [unicode.IsDigit] *)
Definition IsLetter (u : tables) (r : Z) : bool :=
  if r <=? 255 then latin1Letter r else letterAbove u r.

Definition IsDigit (u : tables) (r : Z) : bool :=
  if r <=? 255 then (48 <=? r) && (r <=? 57) else digitAbove u r.

End Unicode.

(** ** gopls_utils.go: the position resolver inside [createGoplsPosition] *)
Module Position.
Import GoString.

(** Errors of [findSymbolColumnPosition], one constructor per [fmt.Errorf]. *)
Inductive error :=
| ErrReadFile (cause : string)
| ErrLineExceeds (lineNumber nlines : Z)
| ErrNotAtWordBoundary (symbolName : string) (lineNumber : Z).

(** [isIdentifierChar := func(r rune) bool] *)
Definition isIdentifierChar (r : Z) : bool :=
  ((97 <=? r) && (r <=? 122)) || ((65 <=? r) && (r <=? 90)) ||
  ((48 <=? r) && (r <=? 57)) ||
  (r =? 95).

(** [isWordBoundary := func(line string, index int, symbol string) bool].
    Both indexings are guarded by the source's range tests, so the [None]
    branches are never taken. *)
Definition isWordBoundary (line : string) (index : Z) (symbol : string) : bool :=
  let before_ok :=
    if 0 <? index then
      match GoString.index line (index - 1) with
      | Some prevChar => negb (isIdentifierChar (rune prevChar))
      | None => true
      end
    else true in
  if before_ok then
    let endIndex := index + len symbol in
    if endIndex <? len line then
      match GoString.index line endIndex with
      | Some nextChar => negb (isIdentifierChar (rune nextChar))
      | None => true
      end
    else true
  else false.

(** The [for i := 0; i <= len(targetLine)-len(symbolName); i++] loop, started
    at [i] with [n] iterations left; the result is [symbolIndex] ([-1] when
    the loop ends without a [break]). *)
Fixpoint scanFrom (targetLine symbolName : string) (i : Z) (n : nat) : Z :=
  match n with
  | O => -1
  | S n' =>
      if String.eqb (slice targetLine i (i + len symbolName)) symbolName
         && isWordBoundary targetLine i symbolName
      then i
      else scanFrom targetLine symbolName (i + 1) n'
  end.

(** Number of iterations of the loop: the values [0 .. len(line)-len(symbol)]. *)
Definition iterations (targetLine symbolName : string) : nat :=
  Z.to_nat (len targetLine - len symbolName + 1).

(** The tail of [findSymbolColumnPosition], from the target line on. *)
Definition findSymbolColumnInLine
    (targetLine symbolName : string) (lineNumber : Z) : Z + error :=
  let symbolIndex :=
    scanFrom targetLine symbolName 0 (iterations targetLine symbolName) in
  if symbolIndex =? -1 then inr (ErrNotAtWordBoundary symbolName lineNumber)
  else inl (symbolIndex + 1).

(** [findSymbolColumnPosition], given the outcome of [os.ReadFile]
    ([inl content] or [inr cause]).  [createGoplsPosition] only calls it
    with [lineNumber > 0]. *)
Definition findSymbolColumnPosition
    (readFile : string + string) (lineNumber : Z) (symbolName : string)
  : Z + error :=
  match readFile with
  | inr cause => inr (ErrReadFile cause)
  | inl content =>
      let lines := splitOn newline content in
      if Z.of_nat (List.length lines) <? lineNumber then
        inr (ErrLineExceeds lineNumber (Z.of_nat (List.length lines)))
      else
        match lines !! Z.to_nat (lineNumber - 1) with
        | Some targetLine => findSymbolColumnInLine targetLine symbolName lineNumber
        | None => inr (ErrLineExceeds lineNumber (Z.of_nat (List.length lines)))
        end
  end.

(** The message of an error ([%w] and [err.Error()]). *)
Definition errorString (e : error) : string :=
  match e with
  | ErrReadFile cause => "failed to read file: " +:+ cause
  | ErrLineExceeds lineNumber nlines =>
      "line number " +:+ itoa lineNumber +:+ " exceeds file length ("
      +:+ itoa nlines +:+ " lines)"
  | ErrNotAtWordBoundary symbolName lineNumber =>
      "symbol '" +:+ symbolName +:+ "' not found at a word boundary at line "
      +:+ itoa lineNumber
  end.

(** *** The word boundary of the resolver, on the bytes of the line *)

(** The bytes [isIdentifierChar] accepts: the ASCII letters, the ASCII
    digits and the underscore. *)
Definition letter (c : ascii) : Prop :=
  (nat_of_ascii "a" <= nat_of_ascii c <= nat_of_ascii "z")%nat \/
  (nat_of_ascii "A" <= nat_of_ascii c <= nat_of_ascii "Z")%nat.
Definition digit (c : ascii) : Prop :=
  (nat_of_ascii "0" <= nat_of_ascii c <= nat_of_ascii "9")%nat.
Definition identifier_character (c : ascii) : Prop :=
  letter c \/ digit c \/ c = "_"%char.

(** The token occurs in [line] at 0-based offset [i], and the byte just
    before it (if any) and just after it (if any) are not among these. *)
Definition boundary_occurrence (line token : string) (i : nat) : Prop :=
  exists pre post : string,
    line = pre +:+ token +:+ post /\ String.length pre = i /\
    (forall p c, pre = p +:+ String c "" -> ~ identifier_character c) /\
    (forall c q, post = String c q -> ~ identifier_character c).

(** *** The word boundary of the specification, on the characters of the
    line *)

(** Identifier characters: letters, digits, underscore; the characters of
    which a Go identifier is made. *)
Definition identifierRune (u : Unicode.tables) (r : Z) : bool :=
  Unicode.IsLetter u r || Unicode.IsDigit u r || (r =? 95).

(** The token occurs in [line] at 0-based offset [i], and the character
    just before it (if any) and just after it (if any) are not identifier
    characters. *)
Definition character_boundary_occurrence (u : Unicode.tables)
    (line token : string) (i : nat) : Prop :=
  exists pre post : string,
    line = pre +:+ token +:+ post /\ String.length pre = i /\
    (forall before r,
       Unicode.runes pre = before ++ [r] -> identifierRune u r = false) /\
    (forall r after,
       Unicode.runes post = r :: after -> identifierRune u r = false).

(** The same, decided by computation. *)
Definition characterBoundaryAt (u : Unicode.tables) (line token : string)
    (i : nat) : bool :=
  let pre := String.substring 0 i line in
  let post :=
    String.substring (i + String.length token)
      (String.length line - (i + String.length token)) line in
  (i + String.length token <=? String.length line)%nat
  && String.eqb (String.substring i (String.length token) line) token
  && negb (match List.last (map Some (Unicode.runes pre)) None with
           | Some r => identifierRune u r
           | None => false
           end)
  && negb (match Unicode.runes post with
           | r :: _ => identifierRune u r
           | [] => false
           end).

(** The line [var naïve int] and the line [ÉPer], in UTF-8. *)
Definition naiveLine : string :=
  "var na" +:+ String (ascii_of_nat 195) (String (ascii_of_nat 175) "ve int").

Definition ePerLine : string :=
  String (ascii_of_nat 195) (String (ascii_of_nat 137) "Per").

End Position.


(** ** The syntax trees of go/ast, as far as the sources look at them *)
Module Ast.

(** [token.Position]: the resolved form of a [token.Pos] under the file set
    ([fset.Position(p)]); nodes carry their positions already resolved. *)
Record Position := { Filename : string; Line : Z }.

(** Expressions: receiver types and the right-hand side of a type spec. *)
Inductive Expr :=
| Ident (Name : string)
| StarExpr (X : Expr)
| InterfaceType (hasMethods : bool)   (* [Methods != nil] *)
| OtherExpr.

(** Nodes below a function body, with the lines of their [Pos()] and
    [End()].  A [BlockStmt] carries its address: the sources compare block
    pointers.  [Other] stands for every node kind the sources do not
    distinguish (expressions, simple statements, ...), its children in the
    order of [ast.Walk]. *)
Inductive Node :=
| IfStmt (startLine endLine : Z)
    (Init : option Node) (Cond : Node) (Body : Node) (Else : option Node)
| ForStmt (startLine endLine : Z)
    (Init Cond Post : option Node) (Body : Node)
| RangeStmt (startLine endLine : Z)
    (Key Value : option Node) (X : Node) (Body : Node)
| SwitchStmt (startLine endLine : Z) (Init Tag : option Node) (Body : Node)
| TypeSwitchStmt (startLine endLine : Z)
    (Init : option Node) (Assign : Node) (Body : Node)
| SelectStmt (startLine endLine : Z) (Body : Node)
| BlockStmt (addr : nat) (startLine endLine : Z) (List : list Node)
| CaseClause (startLine endLine : Z) (List : list Node) (Body : list Node)
| CommClause (startLine endLine : Z) (Comm : option Node) (Body : list Node)
| FuncLit (startLine endLine : Z) (Type_ : Node) (Body : Node)
| Other (startLine endLine : Z) (children : list Node).

Definition startLine (n : Node) : Z :=
  match n with
  | IfStmt s _ _ _ _ _ | ForStmt s _ _ _ _ _ | RangeStmt s _ _ _ _ _
  | SwitchStmt s _ _ _ _ | TypeSwitchStmt s _ _ _ _ | SelectStmt s _ _
  | BlockStmt _ s _ _ | CaseClause s _ _ _ | CommClause s _ _ _
  | FuncLit s _ _ _ | Other s _ _ => s
  end.

Definition endLine (n : Node) : Z :=
  match n with
  | IfStmt _ e _ _ _ _ | ForStmt _ e _ _ _ _ | RangeStmt _ e _ _ _ _
  | SwitchStmt _ e _ _ _ | TypeSwitchStmt _ e _ _ _ | SelectStmt _ e _
  | BlockStmt _ _ e _ | CaseClause _ e _ _ | CommClause _ e _ _
  | FuncLit _ e _ _ | Other _ e _ => e
  end.

(** Pointer equality [x == block] between a statement and a block. *)
Definition samePointer (x block : Node) : bool :=
  match x, block with
  | BlockStmt a _ _ _, BlockStmt b _ _ _ => Nat.eqb a b
  | _, _ => false
  end.

(** [ast.Inspect(node, f)]: depth-first traversal in the order of
    [ast.Walk]; [f] decides whether the children of a node are visited.
    The accumulator is the state captured by the closure [f].  (The closing
    call [f(nil)] returns at once in both closures of the sources.) *)
Fixpoint Inspect {S : Type} (f : Node -> S -> bool * S) (n : Node) (s : S)
    {struct n} : S :=
  let '(descend, s1) := f n s in
  if descend then
    let walkList :=
      fix walkList (l : list Node) (s : S) {struct l} : S :=
        match l with
        | [] => s
        | c :: l' => walkList l' (Inspect f c s)
        end in
    let walkOpt (o : option Node) (s : S) : S :=
      match o with Some c => Inspect f c s | None => s end in
    match n with
    | IfStmt _ _ init cond body els =>
        walkOpt els (Inspect f body (Inspect f cond (walkOpt init s1)))
    | ForStmt _ _ init cond post body =>
        Inspect f body (walkOpt post (walkOpt cond (walkOpt init s1)))
    | RangeStmt _ _ key value x body =>
        Inspect f body (Inspect f x (walkOpt value (walkOpt key s1)))
    | SwitchStmt _ _ init tag body =>
        Inspect f body (walkOpt tag (walkOpt init s1))
    | TypeSwitchStmt _ _ init assign body =>
        Inspect f body (Inspect f assign (walkOpt init s1))
    | SelectStmt _ _ body => Inspect f body s1
    | BlockStmt _ _ _ l => walkList l s1
    | CaseClause _ _ l body => walkList body (walkList l s1)
    | CommClause _ _ comm body => walkList body (walkOpt comm s1)
    | FuncLit _ _ ty body => Inspect f body (Inspect f ty s1)
    | Other _ _ l => walkList l s1
    end
  else s1.

(** The addresses of the blocks of a tree, the root included. *)
Fixpoint blockAddrs (n : Node) : list nat :=
  let many :=
    fix many (l : list Node) : list nat :=
      match l with
      | [] => []
      | c :: l' => blockAddrs c ++ many l'
      end in
  let opt (o : option Node) : list nat :=
    match o with Some c => blockAddrs c | None => [] end in
  match n with
  | IfStmt _ _ init cond body els =>
      opt init ++ blockAddrs cond ++ blockAddrs body ++ opt els
  | ForStmt _ _ init cond post body =>
      opt init ++ opt cond ++ opt post ++ blockAddrs body
  | RangeStmt _ _ key value x body =>
      opt key ++ opt value ++ blockAddrs x ++ blockAddrs body
  | SwitchStmt _ _ init tag body => opt init ++ opt tag ++ blockAddrs body
  | TypeSwitchStmt _ _ init assign body =>
      opt init ++ blockAddrs assign ++ blockAddrs body
  | SelectStmt _ _ body => blockAddrs body
  | BlockStmt a _ _ l => a :: many l
  | CaseClause _ _ l body => many l ++ many body
  | CommClause _ _ comm body => opt comm ++ many body
  | FuncLit _ _ ty body => blockAddrs ty ++ blockAddrs body
  | Other _ _ l => many l
  end.

(** The addresses of the blocks strictly below a node. *)
Definition blockAddrsBelow (n : Node) : list nat :=
  match n with
  | BlockStmt _ _ _ l => flat_map blockAddrs l
  | _ => blockAddrs n
  end.

(** [*ast.FieldList], as far as the sources look at it: the [Type] of each
    field of [List]. *)
Definition FieldList : Type := list Expr.

(** [*ast.FuncDecl].  [Doc] holds [Doc.Text()] when [Doc != nil]; [Recv]
    is the receiver list when [Recv != nil] (go/parser accepts the
    declaration [func () f() {}], whose receiver list is there and empty);
    [Body] is the body block, and [BodyPrevLine] the line of
    [fset.Position(fn.Body.Pos() - 1)]. *)
Record FuncDecl := {
  fn_Name : string;
  fn_Doc : option string;
  fn_Recv : option FieldList;
  fn_Pos : Position;
  fn_End : Position;
  fn_Body : option Node;
  fn_BodyPrevLine : Z
}.

(** [*ast.TypeSpec] and [*ast.ValueSpec]; [ptr] is the node's address. *)
Record TypeSpec := {
  ts_ptr : nat;
  ts_Name : string;
  ts_Doc : option string;
  ts_Type : Expr;
  ts_Pos : Position;
  ts_End : Position
}.

Record ValueSpec := {
  vs_ptr : nat;
  vs_Names : list string;
  vs_Doc : option string;
  vs_Pos : Position;
  vs_End : Position
}.

Inductive Spec :=
| ImportSpec (pos end_ : Position)
| TypeSpecNode (s : TypeSpec)
| ValueSpecNode (s : ValueSpec).

Inductive Token := IMPORT | CONST | TYPE | VAR.

Record GenDecl := {
  gd_Tok : Token;
  gd_Doc : option string;
  gd_Specs : list Spec
}.

Inductive Decl :=
| FuncDeclNode (d : FuncDecl)
| GenDeclNode (d : GenDecl)
| BadDecl.

(** [*ast.File]; [f_Pos] is [Some] when [file.Pos().IsValid()]. *)
Record File := {
  f_Name : string;
  f_Doc : option string;
  f_Pos : option Position;
  f_Decls : list Decl
}.

End Ast.

(** ** The world outside the program *)
Module World.
Import Ast.

(** Result of [parser.ParseFile]: the tree (possibly partial) and the error,
    which is a [scanner.ErrorList] for syntax errors. *)
Inductive ParseError :=
| ErrorList (msg : string)
| OtherError (msg : string).

Record ParseResult := { pr_file : option File; pr_err : option ParseError }.

(** Result of [os.Stat]: the modification time (an instant, in
    nanoseconds), or an error, with [os.IsNotExist] of it. *)
Inductive StatResult :=
| StatOk (modTime : Z)
| StatErr (isNotExist : bool) (msg : string).

(** [packages.Package], the fields the formatter reads. *)
Record Package := {
  pkg_Errors : list string;
  pkg_Module : option (string * string);    (* [Module.Dir], [Module.Path] *)
  pkg_PkgPath : string;
  pkg_GoFiles : list string;
  pkg_Syntax : list File
}.

(** The operating system, the Go libraries whose results depend on it, the
    gopls subprocess and the Go runtime's choice of map iteration order. *)
Record t := {
  fileId : string -> option nat;
     (* the file a path names (device and inode, as os.SameFile compares
        them), if any; the sources never ask for it *)
  stat : string -> StatResult;                      (* os.Stat *)
  readFile : string -> string + string;             (* os.ReadFile *)
  scanLines : string -> string + (list string * option string);
     (* os.Open, then the lines bufio.Scanner yields and its final Err() *)
  parse : string -> string -> ParseResult;          (* parser.ParseFile on a source *)
  load : string -> string -> list Package + string; (* packages.Load, Dir and pattern *)
  gopls : list string -> string * option string;
     (* exec.Command("gopls", args...).CombinedOutput(), run in the
        directory cmd.Dir that executeGoplsCommand computes from args *)
  filepath_Abs : string -> string + string;                  (* filepath.Abs *)
  filepath_Rel : string -> string -> string + string;        (* filepath.Rel *)
  filepath_Join : string -> string -> string;                (* filepath.Join *)
  filepath_IsAbs : string -> bool;                           (* filepath.IsAbs *)
  filepath_Dir : string -> string;                           (* filepath.Dir *)
  filepath_ToSlash : string -> string;                       (* filepath.ToSlash *)
  TrimSpace : string -> string;                     (* strings.TrimSpace *)
  isUpperInitial : string -> bool;
     (* unicode.IsUpper of the first rune, for a name starting with a
        non-ASCII byte *)
  rangeOrder : list string -> list string
     (* the order in which [for k := range m] visits the keys of a map *)
}.

(** What the runtime guarantees about [range] over a map: every key is
    visited once. *)
Definition rangeOrder_valid (w : t) : Prop :=
  forall keys : list string, Permutation (rangeOrder w keys) keys.

End World.

(** ** Program state and effects *)
Module Run.
Import Ast World.

(** [cachedFile]: a parsed file of the cache.  [cf_addr] is the address of
    the struct ([&cachedFile{...}]); the file set is not kept, positions
    being resolved in the tree. *)
Record cachedFile := {
  cf_addr : nat;
  cf_ast : File;
  cf_modTime : Z;
  cf_filePath : string
}.

(** Calls that leave the process; a run of gopls with its working directory
    [cmd.Dir] ([None] when it is not set) and its arguments. *)
Inductive Event :=
| EvStat (path : string)
| EvReadFile (path : string)
| EvOpen (path : string)
| EvLoad (dir pattern : string)
| EvGopls (dir : option string) (args : list string).

(** The mutable state: the map of [globalFileCache] (field [files] of
    [fileCache]; the mutex is not modelled, calls run one at a time), the
    next free address of the allocator, and the log of outside calls. *)
Record State := {
  files : gmap string cachedFile;
  nextAddr : nat;
  trace : list Event
}.

Definition M (A : Type) : Type := State -> A * State.

Definition ret {A : Type} (a : A) : M A := fun st => (a, st).

Definition bind {A B : Type} (m : M A) (k : A -> M B) : M B :=
  fun st => let '(a, st') := m st in k a st'.

Declare Scope go_scope.
Delimit Scope go_scope with go.
Notation "x <- m ;; k" := (bind m (fun x => k))
  (at level 100, m at next level, right associativity) : go_scope.
Notation "m ;;; k" := (bind m (fun _ => k))
  (at level 100, right associativity) : go_scope.
Local Open Scope go_scope.

Definition emit (e : Event) : M unit :=
  fun st => (tt, {| files := files st; nextAddr := nextAddr st;
                    trace := trace st ++ [e] |}).

Definition os_Stat (w : World.t) (path : string) : M StatResult :=
  emit (EvStat path) ;;; ret (stat w path).

Definition os_ReadFile (w : World.t) (path : string) : M (string + string) :=
  emit (EvReadFile path) ;;; ret (readFile w path).

Definition exec_gopls (w : World.t) (dir : option string) (args : list string)
  : M (string * option string) :=
  emit (EvGopls dir args) ;;; ret (gopls w args).

Definition packages_Load (w : World.t) (dir pattern : string)
  : M (list Package + string) :=
  emit (EvLoad dir pattern) ;;; ret (load w dir pattern).

Definition open_scan (w : World.t) (path : string)
  : M (string + (list string * option string)) :=
  emit (EvOpen path) ;;; ret (scanLines w path).

(** [cache.files[filePath]] *)
Definition lookupFile (filePath : string) : M (option cachedFile) :=
  fun st => (files st !! filePath, st).

(** [&cachedFile{ast: file, fset: fset, modTime: modTime, filePath: filePath}] *)
Definition newCachedFile (file : File) (modTime : Z) (filePath : string)
  : M cachedFile :=
  fun st =>
    ({| cf_addr := nextAddr st; cf_ast := file; cf_modTime := modTime;
        cf_filePath := filePath |},
     {| files := files st; nextAddr := S (nextAddr st); trace := trace st |}).

(** [cache.files[filePath] = cached] *)
Definition storeFile (filePath : string) (cached : cachedFile) : M unit :=
  fun st => (tt, {| files := <[filePath := cached]> (files st);
                    nextAddr := nextAddr st; trace := trace st |}).

End Run.

(** ** The parse cache: [fileCache] and its methods *)
Module Cache.
Import Ast World Run.
Local Open Scope go_scope.

(** [t.After(u)] of [time.Time] *)
Definition After (t u : Z) : bool := u <? t.

(** [func (cache *fileCache) GetOrParseFile(filePath string)], returning
    the entry ([inl]) or the error ([inr]). *)
Definition GetOrParseFile (w : World.t) (filePath : string)
  : M (cachedFile + string) :=
  cached <- lookupFile filePath ;;
  hit <- match cached with
         | Some c =>
             st <- os_Stat w filePath ;;
             ret (match st with
                  | StatOk modTime =>
                      if negb (After modTime (cf_modTime c)) then Some c else None
                  | StatErr _ _ => None
                  end)
         | None => ret None
         end ;;
  match hit with
  | Some c => ret (inl c)
  | None =>
      src <- os_ReadFile w filePath ;;
      match src with
      | inr err =>
          ret (inr ("failed to read file " +:+ filePath +:+ ": " +:+ err))
      | inl src =>
          let r := parse w filePath src in
          match pr_err r with
          | Some (OtherError err) =>
              ret (inr ("failed to parse file " +:+ filePath +:+ ": " +:+ err))
          | _ =>
              match pr_file r with
              | None =>
                  ret (inr ("failed to parse file " +:+ filePath
                            +:+ ": no AST generated"))
              | Some file =>
                  st <- os_Stat w filePath ;;
                  match st with
                  | StatErr _ err =>
                      ret (inr ("failed to stat file " +:+ filePath +:+ ": "
                                +:+ err))
                  | StatOk modTime =>
                      cached <- newCachedFile file modTime filePath ;;
                      storeFile filePath cached ;;;
                      ret (inl cached)
                  end
              end
          end
      end
  end.

(** [func (cache *fileCache) ClearCache()] *)
Definition ClearCache : M unit :=
  fun st => (tt, {| files := ∅; nextAddr := nextAddr st; trace := trace st |}).

(** [func (cache *fileCache) RemoveFile(filePath string)] *)
Definition RemoveFile (filePath : string) : M unit :=
  fun st => (tt, {| files := delete filePath (files st);
                    nextAddr := nextAddr st; trace := trace st |}).

(** The initial state of the process: [files: make(map[string]*cachedFile)]. *)
Definition initial : State := {| files := ∅; nextAddr := 0; trace := [] |}.

(** One cache operation of a client. *)
Inductive Op :=
| OpGet (filePath : string)
| OpClear
| OpRemove (filePath : string).

Definition runOp (w : World.t) (op : Op) (st : State) : State :=
  match op with
  | OpGet p => snd (GetOrParseFile w p st)
  | OpClear => snd (ClearCache st)
  | OpRemove p => snd (RemoveFile p st)
  end.

(** States reachable from the initial one; the world may change between
    two operations (files are edited). *)
Inductive reachable : State -> Prop :=
| reach_initial : reachable initial
| reach_step w op st : reachable st -> reachable (runOp w op st).

Definition runOps (w : World.t) (ops : list Op) (st : State) : State :=
  fold_left (fun st op => runOp w op st) ops st.

(** [n] calls of [GetOrParseFile] for one path, one after the other. *)
Fixpoint GetOrParseFileTimes (w : World.t) (filePath : string) (n : nat)
  : M (list (cachedFile + string)) :=
  match n with
  | O => ret []
  | S k =>
      r <- GetOrParseFile w filePath ;;
      rs <- GetOrParseFileTimes w filePath k ;;
      ret (r :: rs)
  end.

(** The entry of [filePath], if any, is not served: there is none, or the
    file cannot be examined, or it was modified after the entry was made. *)
Definition needsParse (w : World.t) (filePath : string) (st : State) : bool :=
  match files st !! filePath with
  | None => true
  | Some c =>
      match stat w filePath with
      | StatOk now => After now (cf_modTime c)
      | StatErr _ _ => true
      end
  end.

(** Reading, parsing or examining the file fails. *)
Definition parseFails (w : World.t) (filePath : string) : bool :=
  match readFile w filePath with
  | inr _ => true
  | inl src =>
      match pr_err (parse w filePath src), pr_file (parse w filePath src) with
      | Some (OtherError _), _ => true
      | _, None => true
      | _, Some _ =>
          match stat w filePath with StatErr _ _ => true | StatOk _ => false end
      end
  end.

(** Two paths name one file on disk. *)
Definition sameFile (w : World.t) (p q : string) : Prop :=
  exists id : nat, fileId w p = Some id /\ fileId w q = Some id.

(** The claim that no two entries of the cache refer to one file on disk,
    whatever operations ran. *)
Definition one_entry_per_file : Prop :=
  forall (w : World.t) (ops : list Op) (p q : string) (c d : cachedFile),
    files (runOps w ops initial) !! p = Some c ->
    files (runOps w ops initial) !! q = Some d ->
    sameFile w p q -> p = q.

(** What holds of the entries of every reachable state. *)
Definition cache_inv (st : State) : Prop :=
  forall (p : string) (c : cachedFile),
    files st !! p = Some c ->
    cf_filePath c = p /\ (cf_addr c < nextAddr st)%nat /\
    forall (q : string) (d : cachedFile),
      files st !! q = Some d -> cf_addr c = cf_addr d -> p = q.

End Cache.

(** ** The scope hierarchy builder *)
Module Scope.
Import Ast GoString.

(** [fmt.Sprintf("<label> (lines %d-%d)", start, end)] *)
Definition frame (label : string) (start end_ : Z) : string :=
  label +:+ " (lines " +:+ itoa start +:+ "-" +:+ itoa end_ +:+ ")".

(** The cases of the closure of [isPartOfConstruct]: [n] is a construct
    (or clause) with [block] as its body (or among its statements).  (A
    [*ast.FuncDecl] cannot occur below a statement, so its case is never
    taken and has no node here.) *)
Definition isBodyOf (block n : Node) : bool :=
  match n with
  | IfStmt _ _ _ _ body els =>
      samePointer body block
      || match els with Some e => samePointer e block | None => false end
  | ForStmt _ _ _ _ _ body
  | RangeStmt _ _ _ _ _ body
  | SwitchStmt _ _ _ _ body
  | TypeSwitchStmt _ _ _ _ body
  | SelectStmt _ _ body
  | FuncLit _ _ _ body => samePointer body block
  | CaseClause _ _ _ body
  | CommClause _ _ _ body => existsb (fun stmt => samePointer stmt block) body
  | _ => false
  end.

(** [isPartOfConstruct(block, parent)]: the closure sets the flag and stops
    descending when it meets such a construct below [parent]. *)
Definition isPartOfConstruct (block parent : Node) : bool :=
  Inspect
    (fun (n : Node) (isPart : bool) =>
       if isBodyOf block n then (false, true) else (true, isPart))
    parent false.

(** The closure of [findBlockScopesAtLine], on the slice [scopes]. *)
Definition scopeVisitor (targetLine : Z) (n : Node) (scopes : list string)
  : bool * list string :=
  let start := startLine n in
  let end_ := endLine n in
  if (targetLine <? start) || (end_ <? targetLine) then (false, scopes)
  else
    let inside := (start <=? targetLine) && (targetLine <=? end_) in
    let add (label : string) (cond : bool) : list string :=
      if cond then scopes ++ [frame label start end_] else scopes in
    (true,
     match n with
     | IfStmt _ _ _ _ _ _ => add "if" inside
     | ForStmt _ _ _ _ _ _ => add "for" inside
     | RangeStmt _ _ _ _ _ _ => add "range" inside
     | SwitchStmt _ _ _ _ _ => add "switch" inside
     | TypeSwitchStmt _ _ _ _ _ => add "type-switch" inside
     | SelectStmt _ _ _ => add "select" inside
     | BlockStmt _ _ _ _ => add "block" (inside && negb (isPartOfConstruct n n))
     | _ => scopes
     end).

(** [findBlockScopesAtLine(stmt, fset, targetLine)] *)
Definition findBlockScopesAtLine (stmt : Node) (targetLine : Z) : list string :=
  Inspect (scopeVisitor targetLine) stmt [].

(** [extractReceiverTypeSimple(expr)] *)
Definition extractReceiverTypeSimple (expr : Expr) : string :=
  match expr with
  | Ident name => name
  | StarExpr (Ident name) => "*" +:+ name
  | _ => "unknown"
  end.

(** [buildScopeHierarchyAtLine(file, fset, targetLine)].  [None] stands for
    the run-time panic of [funcDecl.Recv.List[0]] (index out of range) on a
    declaration whose receiver list is there and empty: the source tests
    [Recv != nil] only. *)
Definition buildScopeHierarchyAtLine (file : File) (targetLine : Z)
  : option (list string) :=
  let hierarchy := ["package " +:+ f_Name file] in
  let hierarchy :=
    fold_left
      (fun hierarchy decl =>
         match decl with
         | GenDeclNode genDecl =>
             match gd_Tok genDecl with
             | TYPE =>
                 fold_left
                   (fun hierarchy spec =>
                      match spec with
                      | TypeSpecNode typeSpec =>
                          let typeStart := Line (ts_Pos typeSpec) in
                          let typeEnd := Line (ts_End typeSpec) in
                          if (typeStart <=? targetLine) && (targetLine <=? typeEnd)
                          then hierarchy
                               ++ [frame ("type " +:+ ts_Name typeSpec) typeStart typeEnd]
                          else hierarchy
                      | _ => hierarchy
                      end)
                   (gd_Specs genDecl) hierarchy
             | _ => hierarchy
             end
         | _ => hierarchy
         end)
      (f_Decls file) hierarchy in
  fold_left
    (fun (running : option (list string)) decl =>
       match running with
       | None => None
       | Some hierarchy =>
           match decl with
           | FuncDeclNode funcDecl =>
               let funcStart := Line (fn_Pos funcDecl) in
               let funcEnd := Line (fn_End funcDecl) in
               if (funcStart <=? targetLine) && (targetLine <=? funcEnd) then
                 let funcScope :=
                   match fn_Recv funcDecl with
                   | Some (recv :: _) =>
                       Some (frame ("method " +:+ extractReceiverTypeSimple recv
                                    +:+ "." +:+ fn_Name funcDecl) funcStart funcEnd)
                   | Some [] => None
                   | None =>
                       Some (frame ("function " +:+ fn_Name funcDecl)
                               funcStart funcEnd)
                   end in
                 match funcScope with
                 | None => None
                 | Some funcScope =>
                     let hierarchy := hierarchy ++ [funcScope] in
                     match fn_Body funcDecl with
                     | Some body =>
                         Some (hierarchy ++ findBlockScopesAtLine body targetLine)
                     | None => Some hierarchy
                     end
                 end
               else Some hierarchy
           | _ => Some hierarchy
           end
       end)
    (f_Decls file) (Some hierarchy).

End Scope.

(** ** Further functions of the Go library, as the handlers and
       gopls_utils.go use them *)
Module GoLib.
Import GoString.

(** [strings.Contains(s, substr)] *)
Fixpoint Contains (s substr : string) : bool :=
  String.prefix substr s
  || match s with
     | EmptyString => false
     | String _ rest => Contains rest substr
     end.

(** The class [\d] of the regular expressions: an ASCII digit. *)
Definition isDigit (c : ascii) : bool := (48 <=? rune c) && (rune c <=? 57).

(** [regexp.MustCompile(`^\d+(/|$)`).MatchString(s)]: one or more digits at
    the start, followed by a slash or by the end of the text. *)
Fixpoint slashOrEndAfterDigits (s : string) : bool :=
  match s with
  | EmptyString => true
  | String c rest =>
      if isDigit c then slashOrEndAfterDigits rest else Ascii.eqb c "/"
  end.

Definition matchesNumber (s : string) : bool :=
  match s with
  | EmptyString => false
  | String c rest => isDigit c && slashOrEndAfterDigits rest
  end.

(** [regexp.MustCompile(`^[a-zA-Z_][a-zA-Z0-9_]*$`).MatchString(s)] *)
Definition isIdentifierStart (c : ascii) : bool :=
  let r := rune c in
  ((97 <=? r) && (r <=? 122)) || ((65 <=? r) && (r <=? 90)) || (r =? 95).

Fixpoint allIdentifierChars (s : string) : bool :=
  match s with
  | EmptyString => true
  | String c rest => Position.isIdentifierChar (rune c) && allIdentifierChars rest
  end.

Definition matchesIdentifier (s : string) : bool :=
  match s with
  | EmptyString => false
  | String c rest => isIdentifierStart c && allIdentifierChars rest
  end.

(** The values of a 64-bit [int]. *)
Definition isInt (z : Z) : bool := (- 2 ^ 63 <=? z) && (z <? 2 ^ 63).

End GoLib.

(** ** gopls_utils.go: the working directory of the gopls command *)
Module Exec.
Import World GoString GoLib.

(** The loop of [executeGoplsCommand] that sets [cmd.Dir]: the directory
    of the first argument that holds a position in a Go file or names a Go
    file; [None] when the loop ends without setting it. *)
Fixpoint commandDir (w : World.t) (args : list string) : option string :=
  match args with
  | [] => None
  | arg :: rest =>
      if Contains arg ".go:" then
        match splitOn colon arg with
        | part0 :: _ => Some (filepath_Dir w part0)
        | [] => commandDir w rest
        end
      else if HasSuffix arg ".go" then Some (filepath_Dir w arg)
      else commandDir w rest
  end.

End Exec.

(** ** gopls_utils.go and the rename tool *)
Module Gopls.
Import Ast World Run GoString.
Local Open Scope go_scope.

(** [executeGoplsCommand(args...)] *)
Definition executeGoplsCommand (w : World.t) (args : list string)
  : M (string + string) :=
  match args with
  | [] => ret (inr "no arguments provided to gopls command")
  | _ =>
      let dir := Exec.commandDir w args in
      r <- exec_gopls w dir args ;;
      let '(output, err) := r in
      match err with
      | Some err =>
          let outputStr := TrimSpace w output in
          if String.eqb outputStr ""
          then ret (inr ("gopls command failed: " +:+ err))
          else ret (inr ("gopls command failed: " +:+ err +:+ " (" +:+ outputStr
                         +:+ ")"))
      | None => ret (inl (TrimSpace w output))
      end
  end.

(** [createGoplsPosition(filePath, lineNumber, symbolName)] *)
Definition createGoplsPosition (w : World.t) (filePath : string)
    (lineNumber : Z) (symbolName : string) : M (string + string) :=
  if lineNumber <=? 0 then
    ret (inr ("invalid line number: " +:+ itoa lineNumber
              +:+ " (must be greater than 0)"))
  else if String.eqb symbolName "" then
    ret (inr "symbol name cannot be empty")
  else
    st <- os_Stat w filePath ;;
    match st with
    | StatErr true _ => ret (inr ("file does not exist: " +:+ filePath))
    | _ =>
        match filepath_Abs w filePath with
        | inr err =>
            ret (inr ("failed to get absolute path for " +:+ filePath +:+ ": "
                      +:+ err))
        | inl absPath =>
            content <- os_ReadFile w absPath ;;
            match Position.findSymbolColumnPosition content lineNumber symbolName with
            | inr err =>
                ret (inr ("failed to find symbol '" +:+ symbolName +:+ "' at line "
                          +:+ itoa lineNumber +:+ " in " +:+ absPath +:+ ": "
                          +:+ Position.errorString err))
            | inl columnPos =>
                ret (inl (absPath +:+ ":" +:+ itoa lineNumber +:+ ":"
                          +:+ itoa columnPos))
            end
        end
    end.

(** [Rename(filePath, lineNumber, symbolName, newName)] *)
Definition Rename (w : World.t) (filePath : string) (lineNumber : Z)
    (symbolName newName : string) : M (string + string) :=
  if String.eqb filePath "" then ret (inr "file path cannot be empty")
  else if lineNumber <=? 0 then
    ret (inr ("line number must be positive, got " +:+ itoa lineNumber))
  else if String.eqb symbolName "" then ret (inr "symbol name cannot be empty")
  else if String.eqb newName "" then ret (inr "new name cannot be empty")
  else if String.eqb symbolName newName then
    ret (inl ("Symbol '" +:+ symbolName +:+ "' already has the desired name"))
  else
    position <- createGoplsPosition w filePath lineNumber symbolName ;;
    match position with
    | inr err => ret (inr err)
    | inl position =>
        output <- executeGoplsCommand w ["rename"; "-w"; position; newName] ;;
        match output with
        | inr err =>
            ret (inr ("failed to rename symbol '" +:+ symbolName +:+ "' at "
                      +:+ position +:+ ": " +:+ err))
        | inl output =>
            if String.eqb output ""
            then ret (inl ("Symbol '" +:+ symbolName +:+ "' renamed to '"
                           +:+ newName +:+ "'"))
            else ret (inl output)
        end
    end.

End Gopls.

(** ** The declaration formatter *)
Module Format.
Import Ast World Run GoString Cache Gopls Scope.
Local Open Scope go_scope.

(** The functions that write to the [strings.Builder] they are given. *)
Inductive Writer :=
| WFunction (fn : FuncDecl)
| WType (typeSpec : TypeSpec)
| WVariable (valueSpec : ValueSpec)
| WFile (file : File)
| WScope
| WReferences
| WImplementers
| WCallHierarchy.

(** What has been written to a [strings.Builder]: the strings, in order,
    those written by a call of one of the functions above being kept
    together under its name. *)
Inductive Out :=
| Text (s : string)
| Call (who : Writer) (body : list Out).

(** [b.String()] *)
Fixpoint render (o : Out) : string :=
  match o with
  | Text s => s
  | Call _ body =>
      (fix renderList (l : list Out) : string :=
         match l with
         | [] => ""
         | x :: rest => render x +:+ renderList rest
         end) body
  end.

Definition renderAll (l : list Out) : string :=
  fold_right (fun o acc => render o +:+ acc) "" l.




(** The loop of [readSourceLines] over the lines the scanner yields; the
    boolean tells whether it ended by [break]. *)
Fixpoint collectLines (startLine endLine : Z) (scanned : list string)
    (lineNum : Z) (lines : list string) : list string * bool :=
  match scanned with
  | [] => (lines, false)
  | text :: rest =>
      let lines :=
        if (startLine <=? lineNum) && (lineNum <=? endLine)
        then lines ++ [text] else lines in
      if endLine <? lineNum then (lines, true)
      else collectLines startLine endLine rest (lineNum + 1) lines
  end.

(** [readSourceLines(filename, startLine, endLine)] *)
Definition readSourceLines (w : World.t) (filename : string)
    (startLine endLine : Z) : M (string + string) :=
  r <- open_scan w filename ;;
  match r with
  | inl err => ret (inr err)
  | inr (scanned, scanErr) =>
      let '(lines, broke) := collectLines startLine endLine scanned 1 [] in
      match (if broke then None else scanErr) with
      | Some err => ret (inr err)
      | None => ret (inl (Join lines nl))
      end
  end.

(** [isFileInWorkspace(filePath, workspaceDir)] *)
Definition isFileInWorkspace (w : World.t) (filePath workspaceDir : string) : bool :=
  if String.eqb workspaceDir "" then false
  else
    match filepath_Abs w filePath with
    | inr _ => false
    | inl absFilePath =>
        match filepath_Abs w workspaceDir with
        | inr _ => false
        | inl absWorkspaceDir =>
            match filepath_Rel w absWorkspaceDir absFilePath with
            | inr _ => false
            | inl rel => negb (HasPrefix rel "..")
            end
        end
    end.

(** [containsLine(fset, node, line)], on the resolved positions of a node *)
Definition containsLine (pos end_ : Position) (line : Z) : bool :=
  (Line pos <=? line) && (line <=? Line end_).

(** [extractReceiverTypeName(expr)] *)
Definition extractReceiverTypeName (expr : Expr) : string :=
  match expr with
  | Ident name => name
  | StarExpr (Ident name) => name
  | _ => ""
  end.

(** [ast.IsExported(name)]: the first rune of the name is an upper-case
    letter. *)
Definition IsExported (w : World.t) (name : string) : bool :=
  match name with
  | EmptyString => false
  | String c _ =>
      if rune c <? 128 then (65 <=? rune c) && (rune c <=? 90)
      else isUpperInitial w name
  end.

(** The [Lines:] section of the three declaration formatters. *)
Definition linesSection (startLine endLine : Z) : string :=
  if startLine <? endLine
  then "Lines: " +:+ itoa startLine +:+ "-" +:+ itoa endLine +:+ nl
  else "Lines: " +:+ itoa startLine +:+ nl.

(** The [Docstring:] section of [formatType] and [formatVariable]: the doc
    of the spec, else the doc of the enclosing declaration. *)
Definition docSection (w : World.t) (doc : option string)
    (parentGenDecl : option GenDecl) : string :=
  let docText :=
    match doc with
    | Some text => text
    | None =>
        match parentGenDecl with
        | Some parent =>
            match gd_Doc parent with Some text => text | None => "" end
        | None => ""
        end
    end in
  if String.eqb docText "" then ""
  else "Docstring: " +:+ TrimSpace w docText +:+ nl.

(** The signature of a section writer: file, line and symbol name. *)
Definition SectionWriter : Type := string -> Z -> string -> M string.

Definition noSection : SectionWriter := fun _ _ _ => ret "".

(** [formatFunction(b, fn, fset, includeReferences, includeCallHierarchy,
    workspaceDir)], open in the two section writers it calls
    ([formatReferences] calls [formatFunction] back, with both flags off). *)
Definition formatFunctionWith (references callHierarchy : SectionWriter)
    (w : World.t) (fn : FuncDecl) (includeReferences includeCallHierarchy : bool)
    (workspaceDir : string) : M (list Out) :=
  let sigStart := fn_Pos fn in
  let bodyEndLine :=
    match fn_Body fn with
    | Some body => Ast.endLine body
    | None => Line (fn_End fn)
    end in
  let lines := linesSection (Line sigStart) bodyEndLine in
  let doc :=
    match fn_Doc fn with
    | Some text => "Docstring: " +:+ TrimSpace w text +:+ nl
    | None => ""
    end in
  let endLine :=
    match fn_Body fn with
    | Some _ => fn_BodyPrevLine fn
    | None => Line (fn_End fn)
    end in
  rawSource <- readSourceLines w (Filename sigStart) (Line sigStart) endLine ;;
  let code :=
    match rawSource with
    | inl rawSource =>
        let trimmed := TrimSpace w rawSource in
        if HasSuffix trimmed "{"
        then TrimSpace w (slice trimmed 0 (len trimmed - 1))
        else trimmed
    | inr err => "// Error reading source: " +:+ err
    end in
  let isInWorkspace := isFileInWorkspace w (Filename sigStart) workspaceDir in
  refs <- (if includeReferences && isInWorkspace then
             r <- references (Filename sigStart) (Line sigStart) (fn_Name fn) ;;
             ret [Text (nl +:+ nl); Call WReferences [Text r]]
           else ret []) ;;
  calls <- (if includeCallHierarchy && isInWorkspace then
              r <- callHierarchy (Filename sigStart) (Line sigStart) (fn_Name fn) ;;
              ret [Text (nl +:+ nl); Call WCallHierarchy [Text r]]
            else ret []) ;;
  ret ([Text lines; Text doc; Text ("Code:" +:+ nl); Text code] ++ refs ++ calls).

(** Monadic loops. *)
Fixpoint forEach {A S : Type} (l : list A) (body : A -> S -> M S) (s : S) : M S :=
  match l with
  | [] => ret s
  | a :: rest => s' <- body a s ;; forEach rest body s'
  end.

(** The methods of a type in a file: the loop of [formatType] over
    [file.Decls]. *)
Definition methodsOf (typeName : string) (file : File) : list FuncDecl :=
  fold_left
    (fun methods decl =>
       match decl with
       | FuncDeclNode funcDecl =>
           match fn_Recv funcDecl with
           | Some (recvType :: _) =>
               if String.eqb (extractReceiverTypeName recvType) typeName
               then methods ++ [funcDecl] else methods
           | _ => methods
           end
       | _ => methods
       end)
    (f_Decls file) [].

(** [formatType(b, typeSpec, fset, includeReferences, includeImplementers,
    includeMethods, parentGenDecl, workspaceDir)], open in the section
    writers as [formatFunctionWith] is. *)
Definition formatTypeWith (references implementers : SectionWriter)
    (w : World.t) (typeSpec : TypeSpec)
    (includeReferences includeImplementers includeMethods : bool)
    (parentGenDecl : option GenDecl) (workspaceDir : string) : M (list Out) :=
  let start := ts_Pos typeSpec in
  let end_ := ts_End typeSpec in
  let lines := linesSection (Line start) (Line end_) in
  let doc := docSection w (ts_Doc typeSpec) parentGenDecl in
  rawSource <- readSourceLines w (Filename start) (Line start) (Line end_) ;;
  let code :=
    match rawSource with
    | inl rawSource => rawSource
    | inr err => "// Error reading source: " +:+ err
    end in
  impls <- (match ts_Type typeSpec with
            | InterfaceType true =>
                let isInWorkspace := isFileInWorkspace w (Filename start) workspaceDir in
                if includeImplementers && isInWorkspace then
                  r <- implementers (Filename start) (Line start) (ts_Name typeSpec) ;;
                  ret [Text (nl +:+ nl); Call WImplementers [Text r]]
                else ret []
            | _ => ret []
            end) ;;
  methods <- (if includeMethods then
                cached <- GetOrParseFile w (Filename start) ;;
                match cached with
                | inl cachedFile =>
                    forEach (methodsOf (ts_Name typeSpec) (cf_ast cachedFile))
                      (fun method out =>
                         o <- formatFunctionWith noSection noSection w method
                                false false workspaceDir ;;
                         ret (out ++ [Text (nl +:+ nl); Call (WFunction method) o]))
                      []
                | inr _ => ret []
                end
              else ret []) ;;
  let isInWorkspace := isFileInWorkspace w (Filename start) workspaceDir in
  refs <- (if includeReferences && isInWorkspace then
             r <- references (Filename start) (Line start) (ts_Name typeSpec) ;;
             ret [Text (nl +:+ nl); Call WReferences [Text r]]
           else ret []) ;;
  ret ([Text lines; Text doc; Text ("Code:" +:+ nl); Text code]
       ++ impls ++ methods ++ refs).

(** The first function declaration of the file whose lines contain [ln]
    (the search of [determineScope] and of [formatReferences]). *)
Fixpoint enclosingFunc (decls : list Decl) (ln : Z) : option FuncDecl :=
  match decls with
  | [] => None
  | FuncDeclNode funcDecl :: rest =>
      if (Line (fn_Pos funcDecl) <=? ln) && (ln <=? Line (fn_End funcDecl))
      then Some funcDecl else enclosingFunc rest ln
  | _ :: rest => enclosingFunc rest ln
  end.

(** [determineScope(filePath, lineNumber)]: the scope and the error. *)
Definition determineScope (w : World.t) (filePath : string) (lineNumber : Z)
  : M (string * option string) :=
  cached <- GetOrParseFile w filePath ;;
  match cached with
  | inr err => ret (filePath, Some err)
  | inl cachedFile =>
      match enclosingFunc (f_Decls (cf_ast cachedFile)) lineNumber with
      | Some funcDecl =>
          ret (filePath +:+ ":" +:+ itoa (Line (fn_Pos funcDecl)) +:+ ":"
               +:+ fn_Name funcDecl, None)
      | None => ret (filePath, None)
      end
  end.

(** [findTypeAtLine(file, fset, targetLine)] *)
Fixpoint findTypeInSpecs (specs : list Spec) (targetLine : Z) : option TypeSpec :=
  match specs with
  | [] => None
  | TypeSpecNode typeSpec :: rest =>
      if (Line (ts_Pos typeSpec) <=? targetLine)
         && (targetLine <=? Line (ts_End typeSpec))
      then Some typeSpec else findTypeInSpecs rest targetLine
  | _ :: rest => findTypeInSpecs rest targetLine
  end.

Fixpoint findTypeAtLine (decls : list Decl) (targetLine : Z) : option TypeSpec :=
  match decls with
  | [] => None
  | GenDeclNode genDecl :: rest =>
      match gd_Tok genDecl with
      | TYPE =>
          match findTypeInSpecs (gd_Specs genDecl) targetLine with
          | Some typeSpec => Some typeSpec
          | None => findTypeAtLine rest targetLine
          end
      | _ => findTypeAtLine rest targetLine
      end
  | _ :: rest => findTypeAtLine rest targetLine
  end.

(** A location [path:line:columns] (or a scope [path:line:name]) taken
    apart as the three loops over gopls locations do: the path is all but
    the last two [:]-separated parts, the line the last but one. *)
Definition splitLocation (s : string) : option (string * Z) :=
  let parts := splitOn colon s in
  let n := List.length parts in
  if (n <? 3)%nat then None
  else
    let fp := Join (take (n - 2) parts) ":" in
    match Atoi (nth (n - 2) parts "") with
    | Some ln => Some (fp, ln)
    | None => None
    end.

(** [addSeparator()] of the loops that write groups, on the builder and the
    flag [lineWritten]. *)
Definition addSeparator (s : string * bool) : string * bool :=
  let '(b, lineWritten) := s in
  (if lineWritten then b +:+ nl +:+ nl else b, true).

(** The loop writing each non-empty line of [output] indented by two
    spaces. *)
Definition indentLines (output : string) (s : string * bool) : string * bool :=
  fold_left
    (fun s line =>
       if String.eqb line "" then s
       else let '(b, lineWritten) := addSeparator s in
            (b +:+ "  " +:+ line +:+ nl, lineWritten))
    (splitOn newline output) s.

(** The order in which [range] visits the keys of a map used as a set. *)
Definition rangeKeys (w : World.t) (m : gset string) : list string :=
  rangeOrder w (elements m).

(** First loop of [formatReferences]: the scopes of the locations gopls
    printed, as the two maps [functionScopes] and [packageFiles]. *)
Definition groupReferences (w : World.t) (outputStr : string)
  : M (gset string * gset string) :=
  forEach (splitOn newline outputStr)
    (fun line groups =>
       let '(functionScopes, packageFiles) := groups in
       let line := TrimSpace w line in
       if String.eqb line "" then ret groups
       else
         match splitLocation line with
         | None => ret groups
         | Some (fp, ln) =>
             r <- determineScope w fp ln ;;
             let '(scope, err) := r in
             match err with
             | Some _ => ret (functionScopes, {[fp]} ∪ packageFiles)
             | None =>
                 if negb (String.eqb scope fp)
                 then ret ({[scope]} ∪ functionScopes, packageFiles)
                 else ret (functionScopes, {[fp]} ∪ packageFiles)
             end
         end)
    (∅, ∅).

(** The two loops of [formatReferences] that write the groups, given the
    keys in the order [range] yields them. *)
Definition writeReferenceGroups (w : World.t)
    (functionOrder packageOrder : list string) (s : string * bool)
  : M (string * bool) :=
  s <- forEach functionOrder
         (fun scope s =>
            match splitLocation scope with
            | None => ret s
            | Some (fp, ln) =>
                cached <- GetOrParseFile w fp ;;
                match cached with
                | inr err =>
                    ret (fst s +:+ "  Error parsing file " +:+ fp +:+ ": "
                         +:+ err +:+ nl, snd s)
                | inl cachedFile =>
                    match enclosingFunc (f_Decls (cf_ast cachedFile)) ln with
                    | None => ret s
                    | Some funcDecl =>
                        o <- formatFunctionWith noSection noSection w funcDecl
                               false false "" ;;
                        ret (indentLines (renderAll o) s)
                    end
                end
            end)
         s ;;
  ret (fold_left
         (fun s fp =>
            let '(b, lineWritten) := addSeparator s in
            (b +:+ "  Package scope: " +:+ fp +:+ nl, lineWritten))
         packageOrder s).

(** [formatReferences(b, filePath, lineNumber, symbolName)]: what it writes. *)
Definition formatReferences (w : World.t) : SectionWriter :=
  fun filePath lineNumber symbolName =>
  let b := "References:" +:+ nl in
  if String.eqb filePath "" || (lineNumber <=? 0) || String.eqb symbolName "" then
    ret (b +:+ "Invalid parameters for finding references" +:+ nl)
  else
    position <- createGoplsPosition w filePath lineNumber symbolName ;;
    match position with
    | inr err => ret (b +:+ "Failed to find references: " +:+ err +:+ nl)
    | inl position =>
        r <- executeGoplsCommand w ["references"; position] ;;
        let '(outputStr, b) :=
          match r with
          | inl outputStr => (outputStr, b)
          | inr err => ("", b +:+ "gopls references failed: " +:+ err +:+ nl)
          end in
        if String.eqb outputStr "" then
          ret (b +:+ "No references found" +:+ nl)
        else
          groups <- groupReferences w outputStr ;;
          let '(functionScopes, packageFiles) := groups in
          if (size functionScopes =? 0)%nat && (size packageFiles =? 0)%nat then
            ret (b +:+ "No references found" +:+ nl)
          else
            s <- writeReferenceGroups w (rangeKeys w functionScopes)
                   (rangeKeys w packageFiles) (b, false) ;;
            ret (fst s)
    end.

(** First loop of [formatImplementers]: the lines of the implementers of
    each file, as the map [implementers]. *)
Definition groupImplementers (w : World.t) (outputStr : string)
  : gmap string (list Z) :=
  fold_left
    (fun (implementers : gmap string (list Z)) line =>
       let line := TrimSpace w line in
       if String.eqb line "" then implementers
       else
         match splitLocation line with
         | None => implementers
         | Some (fp, ln) =>
             <[fp := default [] (implementers !! fp) ++ [ln]]> implementers
         end)
    (splitOn newline outputStr) ∅.

(** The loop of [formatImplementers] that writes the implementers, given
    the keys in the order [range] yields them. *)
Definition writeImplementers (w : World.t) (implementers : gmap string (list Z))
    (order : list string) (s : string * bool) : M (string * bool) :=
  forEach order
    (fun fp s =>
       forEach (default [] (implementers !! fp))
         (fun ln s =>
            cached <- GetOrParseFile w fp ;;
            match cached with
            | inr err =>
                let '(b, lineWritten) := addSeparator s in
                ret (b +:+ "  Error parsing file " +:+ fp +:+ ": " +:+ err +:+ nl,
                     lineWritten)
            | inl cachedFile =>
                match findTypeAtLine (f_Decls (cf_ast cachedFile)) ln with
                | None =>
                    let '(b, lineWritten) := addSeparator s in
                    ret (b +:+ "  No type found at " +:+ fp +:+ ":" +:+ itoa ln
                         +:+ nl, lineWritten)
                | Some typeSpec =>
                    o <- formatTypeWith noSection noSection w typeSpec
                           false false false None "" ;;
                    ret (indentLines (renderAll o) s)
                end
            end)
         s)
    s.

(** [formatImplementers(b, filePath, lineNumber, symbolName)] *)
Definition formatImplementers (w : World.t) : SectionWriter :=
  fun filePath lineNumber symbolName =>
  let b := "Implementers:" +:+ nl in
  if String.eqb filePath "" || (lineNumber <=? 0) || String.eqb symbolName "" then
    ret (b +:+ "Invalid parameters for finding implementers" +:+ nl)
  else
    position <- createGoplsPosition w filePath lineNumber symbolName ;;
    match position with
    | inr err => ret (b +:+ "Failed to find implementers: " +:+ err +:+ nl)
    | inl position =>
        r <- executeGoplsCommand w ["implementation"; position] ;;
        match r with
        | inr err => ret (b +:+ "gopls implementation failed: " +:+ err +:+ nl)
        | inl outputStr =>
            if String.eqb outputStr "" then
              ret (b +:+ "No implementers found" +:+ nl)
            else
              let implementers := groupImplementers w outputStr in
              if (size implementers =? 0)%nat then
                ret (b +:+ "No implementers found" +:+ nl)
              else
                s <- writeImplementers w implementers
                       (rangeOrder w (elements (dom implementers))) (b, false) ;;
                ret (fst s)
        end
    end.

(** [formatCallHierarchy(b, filePath, lineNumber, symbolName)] *)
Definition formatCallHierarchy (w : World.t) : SectionWriter :=
  fun filePath lineNumber symbolName =>
  let b := "Call Hierarchy:" +:+ nl in
  if String.eqb filePath "" || (lineNumber <=? 0) || String.eqb symbolName "" then
    ret (b +:+ "Invalid parameters for finding call hierarchy" +:+ nl)
  else
    position <- createGoplsPosition w filePath lineNumber symbolName ;;
    match position with
    | inr err => ret (b +:+ "Failed to find call hierarchy: " +:+ err +:+ nl)
    | inl position =>
        r <- executeGoplsCommand w ["call_hierarchy"; position] ;;
        match r with
        | inr err => ret (b +:+ "gopls call_hierarchy failed: " +:+ err +:+ nl)
        | inl outputStr =>
            if String.eqb outputStr "" then
              ret (b +:+ "No call hierarchy found" +:+ nl)
            else ret (b +:+ outputStr +:+ nl)
        end
    end.

(** [formatScope(b, filePath, lineNumber)]: what it writes, or [None] when
    [buildScopeHierarchyAtLine] panics. *)
Definition formatScope (w : World.t) (filePath : string) (lineNumber : Z)
  : M (option string) :=
  let b := "Scope:" +:+ nl in
  if String.eqb filePath "" || (lineNumber <=? 0) then
    ret (Some (b +:+ "Invalid parameters for determining scope" +:+ nl))
  else
    cached <- GetOrParseFile w filePath ;;
    match cached with
    | inr err => ret (Some (b +:+ "Error parsing file: " +:+ err +:+ nl))
    | inl cachedFile =>
        match buildScopeHierarchyAtLine (cf_ast cachedFile) lineNumber with
        | None => ret None
        | Some hierarchy =>
            ret (Some (fst (fold_left
                              (fun '(b, i) scope =>
                                 (b +:+ Repeat "  " i +:+ scope +:+ nl, S i))
                              hierarchy (b, O))))
        end
    end.

(** [formatFunction] and [formatType], the section writers in place. *)
Definition formatFunction (w : World.t) :=
  formatFunctionWith (formatReferences w) (formatCallHierarchy w) w.

Definition formatType (w : World.t) :=
  formatTypeWith (formatReferences w) (formatImplementers w) w.

(** [formatVariable(b, valueSpec, fset, includeReferences, includeScope,
    parentGenDecl, workspaceDir)]: what it writes, or [None] when
    [formatScope] panics (which ends the call before the references). *)
Definition formatVariable (w : World.t) (valueSpec : ValueSpec)
    (includeReferences includeScope : bool) (parentGenDecl : option GenDecl)
    (workspaceDir : string) : M (option (list Out)) :=
  let start := vs_Pos valueSpec in
  let end_ := vs_End valueSpec in
  let lines := linesSection (Line start) (Line end_) in
  let doc := docSection w (vs_Doc valueSpec) parentGenDecl in
  rawSource <- readSourceLines w (Filename start) (Line start) (Line end_) ;;
  let code :=
    match rawSource with
    | inl rawSource => rawSource
    | inr err => "// Error reading source: " +:+ err
    end in
  scope <- (if includeScope then
              r <- formatScope w (Filename start) (Line start) ;;
              match r with
              | Some r => ret (Some [Text nl; Call WScope [Text r]])
              | None => ret None
              end
            else ret (Some [])) ;;
  match scope with
  | None => ret None
  | Some scope =>
      let isInWorkspace := isFileInWorkspace w (Filename start) workspaceDir in
      refs <- (if includeReferences && isInWorkspace then
                 forEach (vs_Names valueSpec)
                   (fun name out =>
                      r <- formatReferences w (Filename start) (Line start) name ;;
                      ret (out ++ [Text (nl +:+ nl); Call WReferences [Text r]]))
                   []
               else ret []) ;;
      ret (Some ([Text lines; Text doc; Text ("Code:" +:+ nl); Text code]
                 ++ scope ++ refs))
  end.

(** [addSeparator()] of [formatFile], on the builder and [lineWritten]. *)
Definition addFileSeparator (s : list Out * bool) : list Out * bool :=
  let '(out, lineWritten) := s in
  (if lineWritten then out ++ [Text (nl +:+ nl)] else out, true).

(** First pass of [formatFile]: the source text of every import spec. *)
Definition collectImports (w : World.t) (decls : list Decl) : M (list string) :=
  forEach decls
    (fun decl imports =>
       match decl with
       | GenDeclNode genDecl =>
           forEach (gd_Specs genDecl)
             (fun spec imports =>
                match spec with
                | ImportSpec start end_ =>
                    rawSource <- readSourceLines w (Filename start) (Line start)
                                   (Line end_) ;;
                    match rawSource with
                    | inl rawSource => ret (imports ++ [TrimSpace w rawSource])
                    | inr err =>
                        ret (imports ++ ["// Error reading source: " +:+ err])
                    end
                | _ => ret imports
                end)
             imports
       | _ => ret imports
       end)
    [].

(** [formatFile(b, file, fset, includePrivate, includeImports, workspaceDir)].
    It calls [formatVariable] with [includeScope] false, which makes no call
    of [formatScope] and so returns: the [None] branch is not taken. *)
Definition formatFile (w : World.t) (file : File)
    (includePrivate includeImports : bool) (workspaceDir : string)
  : M (list Out) :=
  let s : list Out * bool := ([], false) in
  let s :=
    match f_Pos file with
    | Some pos =>
        let '(out, lineWritten) := addFileSeparator s in
        (out ++ [Text ("File: " +:+ Filename pos)], lineWritten)
    | None => s
    end in
  let s :=
    match f_Doc file with
    | Some text =>
        let '(out, lineWritten) := addFileSeparator s in
        (out ++ [Text ("File Docstring:" +:+ nl); Text (TrimSpace w text)],
         lineWritten)
    | None => s
    end in
  s <- (if includeImports then
          imports <- collectImports w (f_Decls file) ;;
          match imports with
          | [] => ret s
          | _ =>
              let '(out, lineWritten) := addFileSeparator s in
              ret (out ++ [Text ("Imports:" +:+ nl)]
                   ++ flat_map (fun imp => [Text imp; Text nl]) imports,
                   lineWritten)
          end
        else ret s) ;;
  s <- forEach (f_Decls file)
         (fun decl s =>
            match decl with
            | FuncDeclNode d =>
                if includePrivate || IsExported w (fn_Name d) then
                  let '(out, lineWritten) := addFileSeparator s in
                  o <- formatFunction w d false false workspaceDir ;;
                  ret (out ++ [Call (WFunction d) o], lineWritten)
                else ret s
            | GenDeclNode d =>
                forEach (gd_Specs d)
                  (fun spec s =>
                     match spec with
                     | ImportSpec _ _ => ret s
                     | TypeSpecNode ts =>
                         if includePrivate || IsExported w (ts_Name ts) then
                           let '(out, lineWritten) := addFileSeparator s in
                           o <- formatType w ts false false false (Some d)
                                  workspaceDir ;;
                           ret (out ++ [Call (WType ts) o], lineWritten)
                         else ret s
                     | ValueSpecNode vs =>
                         let shouldInclude :=
                           includePrivate || existsb (IsExported w) (vs_Names vs) in
                         if shouldInclude then
                           let '(out, lineWritten) := addFileSeparator s in
                           o <- formatVariable w vs false false (Some d)
                                  workspaceDir ;;
                           match o with
                           | Some o =>
                               ret (out ++ [Call (WVariable vs) o], lineWritten)
                           | None => ret (out, lineWritten)
                           end
                         else ret s
                     end)
                  s
            | BadDecl => ret s
            end)
         s ;;
  ret (fst s).

(** [formatPackage(b, pkg, includePrivate, workspaceDir)] *)
Definition formatPackage (w : World.t) (pkg : Package) (includePrivate : bool)
    (workspaceDir : string) : M (list Out) :=
  let directory :=
    match pkg_Module pkg, pkg_GoFiles pkg with
    | Some (moduleDir, modulePath), goFiles =>
        if negb (String.eqb moduleDir "") then
          "Directory: " +:+ moduleDir
          +:+ (if negb (String.eqb (pkg_PkgPath pkg) modulePath) then
                 let relPath := TrimPrefix (pkg_PkgPath pkg) modulePath in
                 if negb (String.eqb relPath "") && negb (String.eqb relPath "/")
                 then "/" +:+ TrimPrefix relPath "/" else ""
               else "")
          +:+ nl
        else
          match goFiles with
          | first :: _ => "Directory: " +:+ filepath_Dir w first +:+ nl
          | [] => ""
          end
    | None, first :: _ => "Directory: " +:+ filepath_Dir w first +:+ nl
    | None, [] => ""
    end in
  let importPath :=
    if negb (String.eqb (pkg_PkgPath pkg) "")
    then "Import Path: " +:+ pkg_PkgPath pkg +:+ nl else "" in
  s <- forEach (pkg_Syntax pkg)
         (fun file (s : list Out * bool) =>
            let '(out, fileWritten) := s in
            let out :=
              if fileWritten then out ++ [Text (nl +:+ "---" +:+ nl)] else out in
            o <- formatFile w file includePrivate false workspaceDir ;;
            ret (out ++ [Call (WFile file) o], true))
         ([Text directory; Text importPath; Text (nl +:+ nl)], false) ;;
  ret (fst s).

(** [resolveFilePath(filePath, workspaceDir)] *)
Definition resolveFilePath (w : World.t) (filePath workspaceDir : string)
  : M (string + string) :=
  match filepath_Abs w workspaceDir with
  | inr err => ret (inr ("failed to resolve workspace directory: " +:+ err))
  | inl absWorkspaceDir =>
      if filepath_IsAbs w filePath then
        st <- os_Stat w filePath ;;
        match st with
        | StatOk _ => ret (inl filePath)
        | StatErr _ _ =>
            ret (inr ("absolute file path does not exist: " +:+ filePath))
        end
      else
        let candidatePaths :=
          if HasPrefix filePath "./" || HasPrefix filePath "../"
          then [filepath_Join w absWorkspaceDir filePath]
          else [filepath_Join w absWorkspaceDir filePath;
                filepath_Join w absWorkspaceDir ("./" +:+ filePath)] in
        found <- forEach candidatePaths
                   (fun path (found : option string) =>
                      match found with
                      | Some _ => ret found
                      | None =>
                          st <- os_Stat w path ;;
                          match st with
                          | StatOk _ => ret (Some path)
                          | StatErr _ _ => ret None
                          end
                      end)
                   None ;;
        match found with
        | Some path => ret (inl path)
        | None =>
            ret (inr ("file not found: " +:+ filePath +:+ " (searched relative to "
                      +:+ absWorkspaceDir +:+ ")"))
        end
  end.

(** [resolvePackagePath(pkgPath, workspaceDir)] *)
Definition resolvePackagePath (w : World.t) (pkgPath workspaceDir : string)
  : M (string + string) :=
  let slashPath := filepath_ToSlash w pkgPath in
  if HasPrefix slashPath "./" || HasPrefix slashPath "../" then
    r <- resolveFilePath w slashPath workspaceDir ;;
    match r with
    | inr err => ret (inr ("failed to resolve relative package path: " +:+ err))
    | inl absPath => ret (inl absPath)
    end
  else ret (inl pkgPath).

(** The node [findSymbol] returns. *)
Inductive Symbol :=
| SymFunc (d : FuncDecl)
| SymType (s : TypeSpec)
| SymValue (s : ValueSpec).

(** The helper [findSymbol] of [Inspect] *)
Fixpoint findSymbolInSpecs (specs : list Spec) (symbolName : string)
    (lineNumber : Z) : option Symbol :=
  match specs with
  | [] => None
  | TypeSpecNode s :: rest =>
      if (negb (String.eqb symbolName "") && String.eqb (ts_Name s) symbolName)
         || ((0 <? lineNumber) && containsLine (ts_Pos s) (ts_End s) lineNumber)
      then Some (SymType s)
      else findSymbolInSpecs rest symbolName lineNumber
  | ValueSpecNode s :: rest =>
      if existsb
           (fun name =>
              (negb (String.eqb symbolName "") && String.eqb name symbolName)
              || ((0 <? lineNumber)
                  && containsLine (vs_Pos s) (vs_End s) lineNumber))
           (vs_Names s)
      then Some (SymValue s)
      else findSymbolInSpecs rest symbolName lineNumber
  | ImportSpec _ _ :: rest => findSymbolInSpecs rest symbolName lineNumber
  end.

Fixpoint findSymbol (decls : list Decl) (symbolName : string) (lineNumber : Z)
  : option Symbol :=
  match decls with
  | [] => None
  | FuncDeclNode d :: rest =>
      if (negb (String.eqb symbolName "") && String.eqb (fn_Name d) symbolName)
         || ((0 <? lineNumber) && containsLine (fn_Pos d) (fn_End d) lineNumber)
      then Some (SymFunc d)
      else findSymbol rest symbolName lineNumber
  | GenDeclNode d :: rest =>
      match findSymbolInSpecs (gd_Specs d) symbolName lineNumber with
      | Some sym => Some sym
      | None => findSymbol rest symbolName lineNumber
      end
  | BadDecl :: rest => findSymbol rest symbolName lineNumber
  end.

(** The search of [formatSymbolWithContext] for the declaration that holds
    a spec, by pointer. *)
Definition parentOf (decls : list Decl) (ptr : nat) : option GenDecl :=
  match
    List.find
      (fun decl =>
         match decl with
         | GenDeclNode genDecl =>
             existsb
               (fun spec =>
                  match spec with
                  | TypeSpecNode s => Nat.eqb (ts_ptr s) ptr
                  | ValueSpecNode s => Nat.eqb (vs_ptr s) ptr
                  | ImportSpec _ _ => false
                  end)
               (gd_Specs genDecl)
         | _ => false
         end)
      decls
  with
  | Some (GenDeclNode genDecl) => Some genDecl
  | _ => None
  end.

(** The helper [formatSymbolWithContext] of [Inspect]: what it writes, or
    [None] when [formatVariable] panics. *)
Definition formatSymbolWithContext (w : World.t) (node : Symbol) (file : File)
    (workspaceDir : string) : M (option (list Out)) :=
  match node with
  | SymFunc n =>
      o <- formatFunction w n true true workspaceDir ;;
      ret (Some [Call (WFunction n) o])
  | SymType n =>
      o <- formatType w n true true true (parentOf (f_Decls file) (ts_ptr n))
             workspaceDir ;;
      ret (Some [Call (WType n) o])
  | SymValue n =>
      o <- formatVariable w n true true (parentOf (f_Decls file) (vs_ptr n))
             workspaceDir ;;
      match o with
      | Some o => ret (Some [Call (WVariable n) o])
      | None => ret None
      end
  end.

(** [parser.ParseFile(fset, filename, nil, parser.ParseComments)]: the
    parser reads the file itself. *)
Definition parser_ParseFile (w : World.t) (filename : string) : M ParseResult :=
  src <- os_ReadFile w filename ;;
  match src with
  | inr err => ret {| pr_file := None; pr_err := Some (OtherError err) |}
  | inl src => ret (parse w filename src)
  end.

(** The symbol search of [Inspect] over the files of a package. *)
Fixpoint findInPackage (files : list File) (symbolName : string)
  : option (Symbol * File) :=
  match files with
  | [] => None
  | file :: rest =>
      match findSymbol (f_Decls file) symbolName 0 with
      | Some symbol => Some (symbol, file)
      | None => findInPackage rest symbolName
      end
  end.

(** [Inspect(path, lineNumber, symbolName, includePrivate, workspaceDir)]:
    the builder [result] as written ([inl]) or the error ([inr]); [None]
    when the call panics instead of returning. *)
Definition InspectOut (w : World.t) (path : string) (lineNumber : Z)
    (symbolName : string) (includePrivate : bool) (workspaceDir : string)
  : M (option (list Out + string)) :=
  if String.eqb workspaceDir "" then
    ret (Some (inr "workspace_dir is required for file analysis"))
  else if negb (filepath_IsAbs w workspaceDir) then
    ret (Some (inr ("workspace_dir must be an absolute path, got: "
                    +:+ workspaceDir)))
  else if HasSuffix path ".go" then
    resolved <- resolveFilePath w path workspaceDir ;;
    match resolved with
    | inr err => ret (Some (inr ("failed to resolve file path: " +:+ err)))
    | inl resolvedPath =>
        r <- parser_ParseFile w resolvedPath ;;
        match pr_err r with
        | Some (OtherError err) =>
            ret (Some (inr ("failed to parse file " +:+ resolvedPath +:+ ": "
                            +:+ err)))
        | perr =>
            let syntaxErrorMsg :=
              match perr with
              | Some (ErrorList msg) =>
                  "WARNING: Syntax errors found, analysis may be incomplete:"
                  +:+ nl +:+ msg +:+ nl +:+ nl
              | _ => ""
              end in
            match pr_file r with
            | None =>
                ret (Some (inr ("failed to parse file " +:+ resolvedPath
                          +:+ ": no AST generated")))
            | Some file =>
                if (lineNumber =? 0) && String.eqb symbolName "" then
                  o <- formatFile w file includePrivate true workspaceDir ;;
                  ret (Some (inl (Text syntaxErrorMsg :: o)))
                else
                  match findSymbol (f_Decls file) symbolName lineNumber with
                  | Some symbol =>
                      o <- formatSymbolWithContext w symbol file workspaceDir ;;
                      match o with
                      | Some o => ret (Some (inl (Text syntaxErrorMsg :: o)))
                      | None => ret None
                      end
                  | None =>
                      if negb (String.eqb symbolName "") then
                        ret (Some (inr ("symbol '" +:+ symbolName
                                  +:+ "' not found in file")))
                      else
                        ret (Some (inr ("no symbol found at line "
                                        +:+ itoa lineNumber)))
                  end
            end
        end
    end
  else
    resolved <- resolvePackagePath w path workspaceDir ;;
    match resolved with
    | inr err => ret (Some (inr ("failed to resolve package path: " +:+ err)))
    | inl resolvedPkgPath =>
        pkgs <- packages_Load w workspaceDir resolvedPkgPath ;;
        match pkgs with
        | inr err =>
            ret (Some (inr ("failed to load package " +:+ resolvedPkgPath +:+ ": "
                      +:+ err)))
        | inl [] =>
            ret (Some (inr ("no packages found for path: " +:+ resolvedPkgPath)))
        | inl (pkg :: _) =>
            match pkg_Errors pkg with
            | _ :: _ =>
                ret (Some (inr ("package has errors: ["
                          +:+ GoString.Join (pkg_Errors pkg) " " +:+ "]")))
            | [] =>
                if String.eqb symbolName "" then
                  o <- formatPackage w pkg includePrivate workspaceDir ;;
                  ret (Some (inl o))
                else
                  match findInPackage (pkg_Syntax pkg) symbolName with
                  | Some (symbol, file) =>
                      o <- formatSymbolWithContext w symbol file workspaceDir ;;
                      match o with
                      | Some o => ret (Some (inl o))
                      | None => ret None
                      end
                  | None =>
                      ret (Some (inr ("symbol '" +:+ symbolName
                                +:+ "' not found in package")))
                  end
            end
        end
    end.

(** [Inspect]: the string ([result.String()], after the warning) or the
    error; [None] when the call panics. *)
Definition Inspect (w : World.t) (path : string) (lineNumber : Z)
    (symbolName : string) (includePrivate : bool) (workspaceDir : string)
  : M (option (string + string)) :=
  r <- InspectOut w path lineNumber symbolName includePrivate workspaceDir ;;
  match r with
  | Some (inl out) => ret (Some (inl (renderAll out)))
  | Some (inr err) => ret (Some (inr err))
  | None => ret None
  end.

(** *** Which declarations a whole-file inspection shows *)

(** The writers called at the top level of a builder. *)
Definition callsOf (out : list Out) : list Writer :=
  flat_map (fun o => match o with Call who _ => [who] | Text _ => [] end) out.

(** A declaration is included in the output: its formatter wrote to it. *)
Definition included (who : Writer) (out : list Out) : Prop := In who (callsOf out).

(** The top-level declaration of [name] in the file, by the writer that
    formats it: a function or method, a type spec, or a value spec (of a
    [var] or [const] declaration) naming it. *)
Definition declares (file : File) (name : string) (who : Writer) : Prop :=
  (exists d, In (FuncDeclNode d) (f_Decls file) /\ fn_Name d = name /\
             who = WFunction d) \/
  (exists g ts, In (GenDeclNode g) (f_Decls file) /\
                In (TypeSpecNode ts) (gd_Specs g) /\ ts_Name ts = name /\
                who = WType ts) \/
  (exists g vs, In (GenDeclNode g) (f_Decls file) /\
                In (ValueSpecNode vs) (gd_Specs g) /\ In name (vs_Names vs) /\
                who = WVariable vs).

(** The claim that a public-only inspection of a file includes a
    declaration exactly when its name is public. *)
Definition public_only_iff_public : Prop :=
  forall (w : World.t) (file : File) (includeImports : bool)
         (workspaceDir : string) (st : State) (name : string) (who : Writer),
    declares file name who ->
    (included who (fst (formatFile w file false includeImports workspaceDir st))
     <-> IsExported w name = true).

(** The declarations [formatFile] shows, in the order of the source. *)
Definition shownSpecs (w : World.t) (includePrivate : bool) (specs : list Spec)
  : list Writer :=
  flat_map
    (fun spec =>
       match spec with
       | ImportSpec _ _ => []
       | TypeSpecNode ts =>
           if includePrivate || IsExported w (ts_Name ts) then [WType ts] else []
       | ValueSpecNode vs =>
           if includePrivate || existsb (IsExported w) (vs_Names vs)
           then [WVariable vs] else []
       end)
    specs.

Definition shownDecls (w : World.t) (includePrivate : bool) (decls : list Decl)
  : list Writer :=
  flat_map
    (fun decl =>
       match decl with
       | FuncDeclNode d =>
           if includePrivate || IsExported w (fn_Name d) then [WFunction d] else []
       | GenDeclNode g => shownSpecs w includePrivate (gd_Specs g)
       | BadDecl => []
       end)
    decls.

(** *** Sections that depend on the workspace *)

(** A type spec is interface-shaped: an interface type with a method list. *)
Definition isInterface (e : Expr) : bool :=
  match e with InterfaceType true => true | _ => false end.


(** *** Failures of the external collaborator *)



(** Two states hold the same cache (they may differ in the log of calls). *)
Definition sameStore (st st' : State) : Prop :=
  files st = files st' /\ nextAddr st = nextAddr st'.

(** What [GetOrParseFile] answers for a path, the tree or the error,
    leaving aside which instance of the entry holds the tree. *)
Definition answer (w : World.t) (filePath : string) (st : State)
  : File + string :=
  match fst (GetOrParseFile w filePath st) with
  | inl cachedFile => inl (cf_ast cachedFile)
  | inr err => inr err
  end.



End Format.

(** ** Worlds for the examples *)
Module Sample.
Import Ast World.

(** A machine without files, where gopls cannot be run. *)
Definition bare : World.t := {|
  fileId := fun _ => None;
  stat := fun _ => StatErr true "no such file or directory";
  readFile := fun _ => inr "no such file or directory";
  scanLines := fun _ => inl "no such file or directory";
  parse := fun _ _ => {| pr_file := None; pr_err := Some (ErrorList "expected 'package'") |};
  load := fun _ _ => inl [];
  gopls := fun _ => ("", Some "exec: gopls: executable file not found in $PATH");
  filepath_Abs := fun p => inl p;
  filepath_Rel := fun base target =>
    if GoString.HasPrefix target (base +:+ "/")
    then inl (GoString.TrimPrefix target (base +:+ "/"))
    else inl ("../" +:+ target);
  filepath_Join := fun a b => a +:+ "/" +:+ b;
  filepath_IsAbs := fun p => GoString.HasPrefix p "/";
  filepath_Dir := fun p =>
    match GoString.Join (removelast (GoString.splitOn "/" p)) "/" with
    | "" => if GoString.HasPrefix p "/" then "/" else "."
    | dir => dir
    end;
  filepath_ToSlash := fun p => p;
  TrimSpace := GoString.trimSpaceASCII;
  isUpperInitial := fun _ => false;
  rangeOrder := fun keys => keys
|}.

(** [w] with a regular file at [path]: its identity, modification time,
    content (with its lines) and the tree the parser builds from it. *)
Definition withFile (w : World.t) (path : string) (id : nat) (modTime : Z)
    (content : string) (tree : File) : World.t := {|
  fileId := fun p => if String.eqb p path then Some id else fileId w p;
  stat := fun p => if String.eqb p path then StatOk modTime else stat w p;
  readFile := fun p => if String.eqb p path then inl content else readFile w p;
  scanLines := fun p =>
    if String.eqb p path
    then inr (GoString.splitOn GoString.newline content, None)
    else scanLines w p;
  parse := fun p src =>
    if String.eqb p path && String.eqb src content
    then {| pr_file := Some tree; pr_err := None |}
    else parse w p src;
  load := load w;
  gopls := gopls w;
  filepath_Abs := filepath_Abs w; filepath_Rel := filepath_Rel w; filepath_Join := filepath_Join w; filepath_IsAbs := filepath_IsAbs w; filepath_Dir := filepath_Dir w;
  filepath_ToSlash := filepath_ToSlash w; TrimSpace := TrimSpace w;
  isUpperInitial := isUpperInitial w;
  rangeOrder := rangeOrder w
|}.

(** [w] with gopls answering [answer] to every command. *)
Definition withGopls (w : World.t) (answer : list string -> string * option string)
  : World.t := {|
  fileId := fileId w; stat := stat w; readFile := readFile w;
  scanLines := scanLines w; parse := parse w; load := load w;
  gopls := answer;
  filepath_Abs := filepath_Abs w; filepath_Rel := filepath_Rel w; filepath_Join := filepath_Join w; filepath_IsAbs := filepath_IsAbs w; filepath_Dir := filepath_Dir w;
  filepath_ToSlash := filepath_ToSlash w; TrimSpace := TrimSpace w;
  isUpperInitial := isUpperInitial w;
  rangeOrder := rangeOrder w
|}.


Definition emptyFile (name : string) : File :=
  {| f_Name := name; f_Doc := None; f_Pos := None; f_Decls := [] |}.

(** A machine with the one file [/w/a.go], last modified at time 200. *)
Definition oneFile : World.t :=
  withFile bare "/w/a.go" 7 200 "package a" (emptyFile "a").

(** The same machine; the file is also named through [/w/./a.go]. *)
Definition twoNames : World.t :=
  withFile oneFile "/w/./a.go" 7 200 "package a" (emptyFile "a").

(** [func f() { if x { y() } }] on lines 2 to 6 of a file of package [p]. *)
Definition fileWithIf : File :=
  {| f_Name := "p"; f_Doc := None;
     f_Pos := Some {| Filename := "/w/p.go"; Line := 1 |};
     f_Decls :=
       [FuncDeclNode
          {| fn_Name := "f"; fn_Doc := None; fn_Recv := None;
             fn_Pos := {| Filename := "/w/p.go"; Line := 2 |};
             fn_End := {| Filename := "/w/p.go"; Line := 6 |};
             fn_Body :=
               Some (BlockStmt 1 2 6
                       [IfStmt 3 5 None (Other 3 3 [])
                          (BlockStmt 2 3 5 [Other 4 4 [Other 4 4 [Other 4 4 []]]])
                          None]);
             fn_BodyPrevLine := 2 |}] |}.

Definition at_ (line : Z) : Position := {| Filename := "/w/v.go"; Line := line |}.

(** [func Exported() {}] and [func unexported() {}] on lines 3 and 5. *)
Definition fnExported : FuncDecl :=
  {| fn_Name := "Exported"; fn_Doc := None; fn_Recv := None;
     fn_Pos := at_ 3; fn_End := at_ 3;
     fn_Body := Some (BlockStmt 1 3 3 []); fn_BodyPrevLine := 3 |}.

Definition fnUnexported : FuncDecl :=
  {| fn_Name := "unexported"; fn_Doc := None; fn_Recv := None;
     fn_Pos := at_ 5; fn_End := at_ 5;
     fn_Body := Some (BlockStmt 2 5 5 []); fn_BodyPrevLine := 5 |}.

(** [var hidden, Shown int] on line 7. *)
Definition varHiddenShown : ValueSpec :=
  {| vs_ptr := 3; vs_Names := ["hidden"; "Shown"]; vs_Doc := None;
     vs_Pos := at_ 7; vs_End := at_ 7 |}.

(** [type Point struct { ... }] on lines 9 to 11 of [/w/v.go]. *)
Definition typePoint : TypeSpec :=
  {| ts_ptr := 4; ts_Name := "Point"; ts_Doc := None; ts_Type := OtherExpr;
     ts_Pos := at_ 9; ts_End := at_ 11 |}.

Definition visibilityFile : File :=
  {| f_Name := "v"; f_Doc := None; f_Pos := Some (at_ 1);
     f_Decls :=
       [FuncDeclNode fnExported; FuncDeclNode fnUnexported;
        GenDeclNode {| gd_Tok := VAR; gd_Doc := None;
                       gd_Specs := [ValueSpecNode varHiddenShown] |};
        GenDeclNode {| gd_Tok := TYPE; gd_Doc := None;
                       gd_Specs := [TypeSpecNode typePoint] |}] |}.

(** The text of [/w/v.go]. *)
Definition vSource : string :=
  GoString.Join
    ["package v";
     "";
     "func Exported() {}";
     "";
     "func unexported() {}";
     "";
     "var hidden, Shown int";
     "";
     "type Point struct {";
     "    X int";
     "}"] GoString.nl.

(** A machine with the file [/w/v.go], where gopls cannot be run. *)
Definition vWorld : World.t := withFile bare "/w/v.go" 9 100 vSource visibilityFile.


(** An entry for [/w/a.go] made at time 100, and a state holding it. *)
Definition oldEntry : Run.cachedFile :=
  {| Run.cf_addr := 0; Run.cf_ast := emptyFile "a"; Run.cf_modTime := 100;
     Run.cf_filePath := "/w/a.go" |}.

Definition oldState : Run.State :=
  {| Run.files := {[ "/w/a.go" := oldEntry ]}; Run.nextAddr := 1;
     Run.trace := [] |}.

(** [vWorld] with a gopls that reports one reference, in a file that cannot
    be read. *)
Definition oneRefWorld : World.t :=
  withGopls vWorld
    (fun args =>
       match args with
       | "references" :: _ => ("/w/x.go:1:1-2", None)
       | _ => ("", None)
       end).

(** [vWorld] with a gopls that answers the call hierarchy and fails on
    every other command, after printing a message. *)
Definition callsOnlyWorld : World.t :=
  withGopls vWorld
    (fun args =>
       match args with
       | "call_hierarchy" :: _ =>
           ("identifier: function Exported in /w/v.go:3:6-14", None)
       | _ => ("gopls: no package metadata" +:+ GoString.nl, Some "exit status 2")
       end).

End Sample.

(** ** Claims about repeated runs *)
Module Repeat.
Import Ast World Run Format.

(** *** Repeating an inspection *)


End Repeat.

(** ** The statistics of the cache *)
Module Stats.
Import World Run.

(** The map [GetCacheStats] returns: its entries ["cached_files"] and
    ["files"]. *)
Record CacheStats := {
  cached_files : Z;
  cached_paths : list string
}.

(** [func (cache *fileCache) GetCacheStats()]; the paths come in the order
    in which [range] visits the map. *)
Definition GetCacheStats (w : World.t) : M CacheStats :=
  fun st =>
    ({| cached_files := Z.of_nat (size (files st));
        cached_paths := rangeOrder w (elements (dom (files st))) |}, st).

End Stats.

(** ** The handlers of the two MCP tools *)
Module Tool.
Import World Run GoString GoLib.
Local Open Scope go_scope.

Section Handlers.

(** The type [float64] of JSON numbers, and the conversion [int(f)]. *)
Context {float64 : Type} (int_of_float64 : float64 -> Z).

(** A value of the map [request.GetArguments()]. *)
Inductive Any :=
| AnyString (s : string)
| AnyNumber (f : float64)
| AnyBool (b : bool)
| AnyOther.

(** [*mcp.CallToolResult] with its one text content. *)
Record CallToolResult := { Content : string; IsError : bool }.

(** The type assertions [v.(string)], [v.(bool)] and [v.(float64)] on an
    entry of the map, with their [ok]. *)
Definition asString (v : option Any) : string * bool :=
  match v with Some (AnyString s) => (s, true) | _ => ("", false) end.

Definition asBool (v : option Any) : bool * bool :=
  match v with Some (AnyBool b) => (b, true) | _ => (false, false) end.

Definition asFloat64 (v : option Any) : option float64 :=
  match v with Some (AnyNumber f) => Some f | _ => None end.

(** The entry is a string and is not empty: the test
    [!ok || s == ""] of the handlers fails. *)
Definition present (v : option Any) : bool :=
  snd (asString v) && negb (String.eqb (fst (asString v)) "").

(** [isFilePath] of [handleInspect] *)
Definition isFilePath (pathStr : string) : bool :=
  Contains pathStr ".go" || HasPrefix pathStr "/" || HasPrefix pathStr "./"
  || HasPrefix pathStr "../".

(** The branch of [handleInspect] for file paths
    [/path/file.go[:line[:symbol]]]: path, line number and symbol name. *)
Definition parseFilePath (pathStr : string) : string * Z * string :=
  let parts := splitOn colon pathStr in
  let path := nth 0 parts "" in
  match parts with
  | _ :: part1 :: more =>
      match Atoi part1 with
      | Some ln => (path, ln, match more with part2 :: _ => part2 | [] => "" end)
      | None => (path, 0, part1)
      end
  | _ => (path, 0, "")
  end.

(** The loop [for i := len(pathStr) - 1; i >= 0; i--] of the branch for
    import paths, with the values [n - 1, ..., 0] of [i] left; the result is
    [colonIndex]. *)
Fixpoint lastSymbolColon (pathStr : string) (n : nat) : Z :=
  match n with
  | O => -1
  | S i =>
      let found :=
        match index pathStr (Z.of_nat i) with
        | Some c =>
            if Ascii.eqb c colon then
              let afterColon := slice pathStr (Z.of_nat i + 1) (len pathStr) in
              negb (String.eqb afterColon "")
              && negb (matchesNumber afterColon)
              && matchesIdentifier afterColon
            else false
        | None => false
        end in
      if found then Z.of_nat i else lastSymbolColon pathStr i
  end.

(** The branch for import paths [github.com/user/repo/package[:symbol]] *)
Definition parseImportPath (pathStr : string) : string * Z * string :=
  let colonIndex := lastSymbolColon pathStr (String.length pathStr) in
  if 0 <? colonIndex then
    (slice pathStr 0 colonIndex, 0, slice pathStr (colonIndex + 1) (len pathStr))
  else (pathStr, 0, "").

(** The path, line number and symbol name [handleInspect] takes from the
    argument [path]. *)
Definition parsePath (pathStr : string) : string * Z * string :=
  if isFilePath pathStr then parseFilePath pathStr else parseImportPath pathStr.

(** [handleInspect]: the result, or the error ([inr]); [None] when
    [Inspect] panics. *)
Definition handleInspect (w : World.t) (arguments : gmap string Any)
  : M (option (CallToolResult + string)) :=
  let '(pathStr, ok) := asString (arguments !! "path") in
  if negb ok || String.eqb pathStr "" then
    ret (Some (inr "path argument is required and must be a string"))
  else
    let '(path, lineNumber, symbolName) := parsePath pathStr in
    let '(onlyExported, _) := asBool (arguments !! "only_exported") in
    let '(workspaceDir, ok) := asString (arguments !! "workspace_dir") in
    if negb ok || String.eqb workspaceDir "" then
      ret (Some (inl {| Content := "Error: workspace_dir is required.";
                        IsError := true |}))
    else
      r <- Format.Inspect w path lineNumber symbolName (negb onlyExported)
             workspaceDir ;;
      match r with
      | Some (inr err) =>
          ret (Some (inl {| Content := "Error inspecting symbol: " +:+ err;
                            IsError := true |}))
      | Some (inl summary) =>
          ret (Some (inl {| Content := summary; IsError := false |}))
      | None => ret None
      end.

(** [handleRename] *)
Definition handleRename (w : World.t) (arguments : gmap string Any)
  : M (CallToolResult + string) :=
  let '(filePath, ok) := asString (arguments !! "file_path") in
  if negb ok || String.eqb filePath "" then
    ret (inr "file_path argument is required and must be a string")
  else
    match asFloat64 (arguments !! "line_number") with
    | None => ret (inr "line_number argument is required and must be a number")
    | Some lineNumberFloat =>
        let lineNumber := int_of_float64 lineNumberFloat in
        let '(oldName, ok) := asString (arguments !! "old_name") in
        if negb ok || String.eqb oldName "" then
          ret (inr "old_name argument is required and must be a string")
        else
          let '(newName, ok) := asString (arguments !! "new_name") in
          if negb ok || String.eqb newName "" then
            ret (inr "new_name argument is required and must be a string")
          else
            r <- Gopls.Rename w filePath lineNumber oldName newName ;;
            match r with
            | inr err =>
                ret (inl {| Content := "Error renaming symbol: " +:+ err;
                            IsError := true |})
            | inl result => ret (inl {| Content := result; IsError := false |})
            end
    end.

End Handlers.

End Tool.

(** ** Notions used to state what the lookups and the effects do *)
Module Lookup.
Import Ast Run Format.

(** The declaration is at the top level of the declarations of a file. *)
Definition declaredIn (decls : list Decl) (sym : Symbol) : Prop :=
  match sym with
  | SymFunc d => In (FuncDeclNode d) decls
  | SymType s =>
      exists g, In (GenDeclNode g) decls /\ In (TypeSpecNode s) (gd_Specs g)
  | SymValue s =>
      exists g, In (GenDeclNode g) decls /\ In (ValueSpecNode s) (gd_Specs g)
  end.

(** The declaration answers a request for a name and a line: it declares
    the name asked for, or its lines hold the line asked for. *)
Definition answers (symbolName : string) (lineNumber : Z) (sym : Symbol) : Prop :=
  match sym with
  | SymFunc d =>
      (symbolName <> "" /\ fn_Name d = symbolName) \/
      (0 < lineNumber /\ Line (fn_Pos d) <= lineNumber <= Line (fn_End d))
  | SymType s =>
      (symbolName <> "" /\ ts_Name s = symbolName) \/
      (0 < lineNumber /\ Line (ts_Pos s) <= lineNumber <= Line (ts_End s))
  | SymValue s =>
      (symbolName <> "" /\ In symbolName (vs_Names s)) \/
      (0 < lineNumber /\ Line (vs_Pos s) <= lineNumber <= Line (vs_End s) /\
       vs_Names s <> [])
  end.

(** The addresses of the type and value specs of a file. *)
Definition specAddr (spec : Spec) : list nat :=
  match spec with
  | TypeSpecNode s => [ts_ptr s]
  | ValueSpecNode s => [vs_ptr s]
  | ImportSpec _ _ => []
  end.

Definition specAddrs (decls : list Decl) : list nat :=
  flat_map
    (fun decl =>
       match decl with
       | GenDeclNode g => flat_map specAddr (gd_Specs g)
       | _ => []
       end)
    decls.

(** The test of [parentOf] on a declaration: it holds a spec at the
    address. *)
Definition holdsAddr (ptr : nat) (decl : Decl) : bool :=
  match decl with
  | GenDeclNode genDecl =>
      existsb
        (fun spec =>
           match spec with
           | TypeSpecNode s => Nat.eqb (ts_ptr s) ptr
           | ValueSpecNode s => Nat.eqb (vs_ptr s) ptr
           | ImportSpec _ _ => false
           end)
        (gd_Specs genDecl)
  | _ => false
  end.

(** The labels of the frames [findBlockScopesAtLine] makes. *)
Definition blockLabels : list string :=
  ["if"; "for"; "range"; "switch"; "type-switch"; "select"; "block"].

(** The text is the frame of a block scope whose lines hold the line. *)
Definition holdsLine (targetLine : Z) (f : string) : Prop :=
  exists (label : string) (s e : Z),
    f = Scope.frame label s e /\ In label blockLabels /\ s <= targetLine <= e.

(** The nodes the closure of [findBlockScopesAtLine] is called on and
    does not turn away, in the order of the traversal: the node itself when
    its lines hold the line, then those of its children. *)
Fixpoint reached (targetLine : Z) (n : Node) : list Node :=
  let many :=
    fix many (l : list Node) : list Node :=
      match l with
      | [] => []
      | c :: l' => reached targetLine c ++ many l'
      end in
  let opt (o : option Node) : list Node :=
    match o with Some c => reached targetLine c | None => [] end in
  if (targetLine <? startLine n) || (endLine n <? targetLine) then []
  else
    n :: match n with
         | IfStmt _ _ init cond body els =>
             opt init ++ reached targetLine cond ++ reached targetLine body
             ++ opt els
         | ForStmt _ _ init cond post body =>
             opt init ++ opt cond ++ opt post ++ reached targetLine body
         | RangeStmt _ _ key value x body =>
             opt key ++ opt value ++ reached targetLine x
             ++ reached targetLine body
         | SwitchStmt _ _ init tag body =>
             opt init ++ opt tag ++ reached targetLine body
         | TypeSwitchStmt _ _ init assign body =>
             opt init ++ reached targetLine assign ++ reached targetLine body
         | SelectStmt _ _ body => reached targetLine body
         | BlockStmt _ _ _ l => many l
         | CaseClause _ _ l body => many l ++ many body
         | CommClause _ _ comm body => opt comm ++ many body
         | FuncLit _ _ ty body => reached targetLine ty ++ reached targetLine body
         | Other _ _ l => many l
         end.

(** The node and every node below it. *)
Fixpoint nodesOf (n : Node) : list Node :=
  let many :=
    fix many (l : list Node) : list Node :=
      match l with
      | [] => []
      | c :: l' => nodesOf c ++ many l'
      end in
  let opt (o : option Node) : list Node :=
    match o with Some c => nodesOf c | None => [] end in
  n :: match n with
       | IfStmt _ _ init cond body els =>
           opt init ++ nodesOf cond ++ nodesOf body ++ opt els
       | ForStmt _ _ init cond post body =>
           opt init ++ opt cond ++ opt post ++ nodesOf body
       | RangeStmt _ _ key value x body =>
           opt key ++ opt value ++ nodesOf x ++ nodesOf body
       | SwitchStmt _ _ init tag body => opt init ++ opt tag ++ nodesOf body
       | TypeSwitchStmt _ _ init assign body =>
           opt init ++ nodesOf assign ++ nodesOf body
       | SelectStmt _ _ body => nodesOf body
       | BlockStmt _ _ _ l => many l
       | CaseClause _ _ l body => many l ++ many body
       | CommClause _ _ comm body => opt comm ++ many body
       | FuncLit _ _ ty body => nodesOf ty ++ nodesOf body
       | Other _ _ l => many l
       end.

(** The kind of a construct that has a frame. *)
Definition constructLabel (n : Node) : option string :=
  match n with
  | IfStmt _ _ _ _ _ _ => Some "if"
  | ForStmt _ _ _ _ _ _ => Some "for"
  | RangeStmt _ _ _ _ _ _ => Some "range"
  | SwitchStmt _ _ _ _ _ => Some "switch"
  | TypeSwitchStmt _ _ _ _ _ => Some "type-switch"
  | SelectStmt _ _ _ => Some "select"
  | BlockStmt _ _ _ _ => Some "block"
  | _ => None
  end.

(** The frame of a node the traversal has reached: that of its kind and
    lines, for a block only when [isPartOfConstruct], asked as the source
    asks it, says no. *)
Definition frameAt (n : Node) : list string :=
  match constructLabel n with
  | Some label =>
      if match n with
         | BlockStmt _ _ _ _ => Scope.isPartOfConstruct n n
         | _ => false
         end
      then []
      else [Scope.frame label (startLine n) (endLine n)]
  | None => []
  end.

(** The lines of a function declaration, or of a type spec of a [type]
    declaration, hold the line. *)
Definition declCovers (targetLine : Z) (decl : Decl) : bool :=
  match decl with
  | FuncDeclNode d =>
      (Line (fn_Pos d) <=? targetLine) && (targetLine <=? Line (fn_End d))
  | GenDeclNode g =>
      match gd_Tok g with
      | TYPE =>
          existsb
            (fun spec =>
               match spec with
               | TypeSpecNode s =>
                   (Line (ts_Pos s) <=? targetLine)
                   && (targetLine <=? Line (ts_End s))
               | _ => false
               end)
            (gd_Specs g)
      | _ => false
      end
  | BadDecl => false
  end.

(** The frame of a function or method (of its first receiver; a
    receiver list that is there and empty has no frame), and of a type
    spec. *)
Definition funcFrame (d : FuncDecl) : string :=
  match fn_Recv d with
  | Some (recv :: _) =>
      Scope.frame ("method " +:+ Scope.extractReceiverTypeSimple recv +:+ "."
                   +:+ fn_Name d) (Line (fn_Pos d)) (Line (fn_End d))
  | _ =>
      Scope.frame ("function " +:+ fn_Name d) (Line (fn_Pos d)) (Line (fn_End d))
  end.

(** The declaration on which [buildScopeHierarchyAtLine] panics: a function
    declaration whose lines hold the line and whose receiver list is there
    and empty. *)
Definition emptyReceiverAt (targetLine : Z) (decl : Decl) : bool :=
  match decl with
  | FuncDeclNode d =>
      (Line (fn_Pos d) <=? targetLine) && (targetLine <=? Line (fn_End d))
      && match fn_Recv d with Some [] => true | _ => false end
  | _ => false
  end.

Definition typeFrame (s : TypeSpec) : string :=
  Scope.frame ("type " +:+ ts_Name s) (Line (ts_Pos s)) (Line (ts_End s)).

(** The frames one declaration adds in the first and in the second loop
    of [buildScopeHierarchyAtLine]. *)
Definition typeFramesAt (targetLine : Z) (decl : Decl) : list string :=
  match decl with
  | GenDeclNode g =>
      match gd_Tok g with
      | TYPE =>
          flat_map
            (fun spec =>
               match spec with
               | TypeSpecNode s =>
                   if (Line (ts_Pos s) <=? targetLine)
                      && (targetLine <=? Line (ts_End s))
                   then [typeFrame s] else []
               | _ => []
               end)
            (gd_Specs g)
      | _ => []
      end
  | _ => []
  end.

Definition funcFramesAt (targetLine : Z) (decl : Decl) : list string :=
  match decl with
  | FuncDeclNode d =>
      if (Line (fn_Pos d) <=? targetLine) && (targetLine <=? Line (fn_End d))
      then funcFrame d
           :: match fn_Body d with
              | Some body => Scope.findBlockScopesAtLine body targetLine
              | None => []
              end
      else []
  | _ => []
  end.

(** The runs of gopls among the calls that left the process. *)
Definition goplsCalls (evs : list Event) : list (list string) :=
  flat_map (fun e => match e with EvGopls _ args => [args] | _ => [] end) evs.

(** Cache operations, each run in the world of its time, one after the
    other; and the paths they ask [GetOrParseFile] for. *)
Definition runSteps (steps : list (World.t * Cache.Op)) (st : State) : State :=
  fold_left (fun st step => Cache.runOp (fst step) (snd step) st) steps st.

Definition requestedPaths (steps : list (World.t * Cache.Op)) : list string :=
  flat_map
    (fun step =>
       match snd step with
       | Cache.OpGet p => [p]
       | _ => []
       end)
    steps.

(** The functions and methods whose formatter wrote at the top level of
    a builder, in order. *)
Definition functionCalls (out : list Out) : list FuncDecl :=
  flat_map
    (fun who => match who with WFunction d => [d] | _ => [] end)
    (callsOf out).

(** The locations [path:line:...] among the lines gopls printed, in
    order: the lines that the loops over the output do not skip. *)
Definition locationsOf (w : World.t) (outputStr : string) : list (string * Z) :=
  flat_map
    (fun line =>
       let line := World.TrimSpace w line in
       if String.eqb line "" then []
       else match splitLocation line with
            | Some loc => [loc]
            | None => []
            end)
    (GoString.splitOn GoString.newline outputStr).

(** The lines of the locations of one file, in order. *)
Definition linesIn (fp : string) (locs : list (string * Z)) : list Z :=
  flat_map (fun loc => if String.eqb (fst loc) fp then [snd loc] else []) locs.

(** The frames of a hierarchy as [formatScope] writes them, the first at
    depth [i]: each on a line of its own, indented by two spaces for each
    level. *)
Fixpoint indentedFrom (i : nat) (hierarchy : list string) : string :=
  match hierarchy with
  | [] => ""
  | scope :: rest =>
      GoString.Repeat "  " i +:+ scope +:+ GoString.nl
      +:+ indentedFrom (S i) rest
  end.

(** An event other than a run of gopls. *)
Definition notGopls (e : Event) : bool :=
  match e with EvGopls _ _ => false | _ => true end.

(** From [st] to [st'] the cache was left alone, and every call that left
    the process satisfies [p]. *)
Definition ran (p : Event -> bool) (st st' : State) : Prop :=
  files st' = files st /\ nextAddr st' = nextAddr st /\
  exists evs : list Event, trace st' = trace st ++ evs /\ forallb p evs = true.

End Lookup.

(** ** Further worlds for the examples *)
Module Scenario.
Import Ast World.

(** [w] with the parser answering [result] for the content [content] of the
    file at [path]. *)
Definition withParse (w : World.t) (path content : string) (result : ParseResult)
  : World.t := {|
  fileId := fileId w; stat := stat w; readFile := readFile w;
  scanLines := scanLines w;
  parse := fun p src =>
    if String.eqb p path && String.eqb src content then result
    else parse w p src;
  load := load w; gopls := gopls w;
  filepath_Abs := filepath_Abs w; filepath_Rel := filepath_Rel w;
  filepath_Join := filepath_Join w; filepath_IsAbs := filepath_IsAbs w;
  filepath_Dir := filepath_Dir w; filepath_ToSlash := filepath_ToSlash w;
  TrimSpace := TrimSpace w; isUpperInitial := isUpperInitial w;
  rangeOrder := rangeOrder w
|}.

(** [w] with [packages.Load] answering [result] to every pattern. *)
Definition withLoad (w : World.t) (result : list Package + string) : World.t := {|
  fileId := fileId w; stat := stat w; readFile := readFile w;
  scanLines := scanLines w; parse := parse w;
  load := fun _ _ => result; gopls := gopls w;
  filepath_Abs := filepath_Abs w; filepath_Rel := filepath_Rel w;
  filepath_Join := filepath_Join w; filepath_IsAbs := filepath_IsAbs w;
  filepath_Dir := filepath_Dir w; filepath_ToSlash := filepath_ToSlash w;
  TrimSpace := TrimSpace w; isUpperInitial := isUpperInitial w;
  rangeOrder := rangeOrder w
|}.

(** The file [/w/b.go], which ends in the middle of a declaration, and
    the tree and the error list the parser gives for it. *)
Definition brokenSource : string :=
  GoString.Join ["package b"; ""; "func ("] GoString.nl.

Definition brokenTree : File :=
  {| f_Name := "b"; f_Doc := None;
     f_Pos := Some {| Filename := "/w/b.go"; Line := 1 |};
     f_Decls := [BadDecl] |}.

Definition brokenWorld : World.t :=
  withParse
    (Sample.withFile Sample.bare "/w/b.go" 11 100 brokenSource brokenTree)
    "/w/b.go" brokenSource
    {| pr_file := Some brokenTree;
       pr_err := Some (ErrorList "/w/b.go:3:7: expected type, found 'EOF'") |}.

(** The package [example.com/m/sub/p] of the module [example.com/m] kept
    in [/w], with the file [/w/v.go] of the examples as its one file. *)
Definition subPackage : Package :=
  {| pkg_Errors := []; pkg_Module := Some ("/w", "example.com/m");
     pkg_PkgPath := "example.com/m/sub/p"; pkg_GoFiles := ["/w/sub/p/v.go"];
     pkg_Syntax := [Sample.visibilityFile] |}.

(** The file [/w/r.go], whose line 3 is [func () f() {}; var x int]: the
    parser accepts the declaration of [f], with a receiver list that is
    there and empty. *)
Definition noReceiverSource : string :=
  GoString.Join ["package r"; ""; "func () f() {}; var x int"] GoString.nl.

Definition noReceiver : FuncDecl :=
  {| fn_Name := "f"; fn_Doc := None; fn_Recv := Some [];
     fn_Pos := {| Filename := "/w/r.go"; Line := 3 |};
     fn_End := {| Filename := "/w/r.go"; Line := 3 |};
     fn_Body := Some (BlockStmt 1 3 3 []); fn_BodyPrevLine := 3 |}.

Definition varX : ValueSpec :=
  {| vs_ptr := 2; vs_Names := ["x"]; vs_Doc := None;
     vs_Pos := {| Filename := "/w/r.go"; Line := 3 |};
     vs_End := {| Filename := "/w/r.go"; Line := 3 |} |}.

Definition noReceiverFile : File :=
  {| f_Name := "r"; f_Doc := None;
     f_Pos := Some {| Filename := "/w/r.go"; Line := 1 |};
     f_Decls :=
       [FuncDeclNode noReceiver;
        GenDeclNode {| gd_Tok := VAR; gd_Doc := None;
                       gd_Specs := [ValueSpecNode varX] |}] |}.

Definition noReceiverWorld : World.t :=
  Sample.withFile Sample.bare "/w/r.go" 12 100 noReceiverSource noReceiverFile.

End Scenario.
(** * Theorems *)

(** ** Strings: slices, indexing and concatenation *)
Section StringFacts.

Lemma app_String (c : ascii) (a b : string) : String c a +:+ b = String c (a +:+ b).
Proof. reflexivity. Qed.

Lemma app_Empty (b : string) : "" +:+ b = b.
Proof. reflexivity. Qed.

Ltac ssimpl := simpl in *; rewrite ?app_String, ?app_Empty in *; simpl in *.

Lemma string_length_app (a b : string) :
  String.length (a +:+ b) = (String.length a + String.length b)%nat.
Proof. induction a as [|c a IH]; ssimpl; [reflexivity | now rewrite IH]. Qed.

Lemma substring_all (s : string) : String.substring 0 (String.length s) s = s.
Proof. induction s as [|c s IH]; ssimpl; [reflexivity | now rewrite IH]. Qed.

Lemma substring_prefix (a b : string) :
  String.substring 0 (String.length a) (a +:+ b) = a.
Proof.
  induction a as [|c a IH]; ssimpl.
  - now destruct b.
  - now rewrite IH.
Qed.

Lemma substring_skip (pre s : string) (n : nat) :
  String.substring (String.length pre) n (pre +:+ s) = String.substring 0 n s.
Proof. induction pre as [|c pre IH]; ssimpl; [reflexivity | exact IH]. Qed.

Lemma substring_app_mid (pre tok post : string) :
  String.substring (String.length pre) (String.length tok) (pre +:+ tok +:+ post) = tok.
Proof. rewrite substring_skip. apply substring_prefix. Qed.

Lemma substring_split (s : string) (i : nat) :
  (i <= String.length s)%nat ->
  s = String.substring 0 i s +:+ String.substring i (String.length s - i) s.
Proof.
  revert i. induction s as [|c s IH]; intros i Hi; ssimpl.
  - destruct i; [reflexivity | lia].
  - destruct i as [|i]; ssimpl.
    + now rewrite substring_all.
    + f_equal. apply IH. lia.
Qed.

Lemma substring_length (s : string) (i n : nat) :
  (i + n <= String.length s)%nat -> String.length (String.substring i n s) = n.
Proof.
  revert i n. induction s as [|c s IH]; intros i n H; ssimpl.
  - destruct i, n; ssimpl; lia.
  - destruct i as [|i].
    + destruct n as [|n]; ssimpl; [reflexivity|]. rewrite (IH 0%nat n); [reflexivity | lia].
    + apply IH. lia.
Qed.

Lemma substring_substring (s : string) (i n : nat) :
  (i + n <= String.length s)%nat ->
  String.substring 0 n (String.substring i (String.length s - i) s) = String.substring i n s.
Proof.
  revert i n. induction s as [|c s IH]; intros i n H; ssimpl.
  - destruct i, n; reflexivity.
  - destruct i as [|i].
    + ssimpl. destruct n as [|n]; [reflexivity|]. f_equal.
      rewrite substring_all. reflexivity.
    + apply IH. lia.
Qed.

Lemma get_app_at (pre : string) (c : ascii) (rest : string) :
  String.get (String.length pre) (pre +:+ String c rest) = Some c.
Proof. induction pre as [|d pre IH]; ssimpl; [reflexivity | exact IH]. Qed.

Lemma get_app_end (pre : string) :
  String.get (String.length pre) pre = None.
Proof. induction pre as [|d pre IH]; ssimpl; [reflexivity | exact IH]. Qed.

Lemma string_app_assoc (a b c : string) : (a +:+ b) +:+ c = a +:+ b +:+ c.
Proof. induction a as [|x a IH]; ssimpl; [reflexivity | now rewrite IH]. Qed.

Lemma string_app_nil_r (a : string) : a +:+ "" = a.
Proof. induction a as [|x a IH]; ssimpl; [reflexivity | now rewrite IH]. Qed.

Lemma string_snoc_inv (s : string) :
  s = "" \/ exists p c, s = p +:+ String c "".
Proof.
  induction s as [|x s IH]; [now left | right].
  destruct IH as [-> | (p & c & ->)].
  - exists "", x. reflexivity.
  - exists (String x p), c. reflexivity.
Qed.

Lemma string_app_inv_length (a b a' b' : string) :
  a +:+ b = a' +:+ b' -> String.length a = String.length a' -> a = a' /\ b = b'.
Proof.
  revert a'. induction a as [|x a IH]; intros [|y a'] H Hl; ssimpl; try discriminate.
  - auto.
  - injection H as -> H. destruct (IH a' H) as [-> ->]; [lia | auto].
Qed.

End StringFacts.

(** ** Position resolver *)
Section PositionFacts.
Import GoString Position.

Lemma isIdentifierChar_spec (c : ascii) :
  isIdentifierChar (rune c) = true <-> identifier_character c.
Proof.
  unfold isIdentifierChar, identifier_character, letter, digit, rune.
  assert (Hn : nat_of_ascii c = N.to_nat (N_of_ascii c)) by reflexivity.
  rewrite !Hn. change (nat_of_ascii "a") with 97%nat.
  change (nat_of_ascii "z") with 122%nat. change (nat_of_ascii "A") with 65%nat.
  change (nat_of_ascii "Z") with 90%nat. change (nat_of_ascii "0") with 48%nat.
  change (nat_of_ascii "9") with 57%nat.
  assert (Hu : c = "_"%char <-> N_of_ascii c = 95%N).
  { split; [intros ->; reflexivity |].
    intros H. rewrite <- (ascii_N_embedding c), H. reflexivity. }
  rewrite Hu. rewrite !orb_true_iff, !andb_true_iff, !Z.leb_le, Z.eqb_eq. lia.
Qed.

Lemma get_snoc_app (p : string) (c : ascii) (rest : string) :
  String.get (String.length p) ((p +:+ String c "") +:+ rest) = Some c.
Proof. rewrite string_app_assoc. apply get_app_at. Qed.

Lemma get_after_token (pre tok post : string) :
  String.get (String.length pre + String.length tok) (pre +:+ tok +:+ post) =
  match post with String c _ => Some c | EmptyString => None end.
Proof.
  rewrite <- string_app_assoc, <- string_length_app.
  destruct post as [|c q].
  - rewrite string_app_nil_r. apply get_app_end.
  - apply get_app_at.
Qed.

(** One iteration of the loop accepts offset [i] exactly when the token
    occurs there between non-identifier neighbours. *)
Lemma iteration_accepts (line tok : string) (i : Z) :
  0 <= i -> i + len tok <= len line ->
  (String.eqb (slice line i (i + len tok)) tok && isWordBoundary line i tok = true
   <-> boundary_occurrence line tok (Z.to_nat i)).
Proof.
  intros Hi Hle. unfold len in *.
  assert (Hsl : slice line i (i + Z.of_nat (String.length tok))
                = String.substring (Z.to_nat i) (String.length tok) line).
  { unfold slice. f_equal. lia. }
  unfold len. rewrite Hsl, andb_true_iff, String.eqb_eq. clear Hsl.
  set (n := Z.to_nat i) in *.
  assert (Hn : (n + String.length tok <= String.length line)%nat) by lia.
  split.
  - intros [Hsub Hwb].
    exists (String.substring 0 n line),
           (String.substring (String.length tok)
              (String.length line - n - String.length tok)
              (String.substring n (String.length line - n) line)).
    assert (Hlr : String.length (String.substring n (String.length line - n) line)
                  = (String.length line - n)%nat)
      by (apply substring_length; lia).
    assert (Hline : line = String.substring 0 n line +:+ tok +:+
              String.substring (String.length tok)
                (String.length line - n - String.length tok)
                (String.substring n (String.length line - n) line)).
    { rewrite (substring_split line n) at 1 by lia. f_equal.
      rewrite (substring_split (String.substring n (String.length line - n) line)
                 (String.length tok)) at 1 by lia.
      rewrite substring_substring by lia. rewrite Hsub, Hlr. reflexivity. }
    assert (Hpre : String.length (String.substring 0 n line) = n)
      by (apply substring_length; lia).
    split; [exact Hline|]. split; [exact Hpre|].
    unfold isWordBoundary, index, len in Hwb. split.
    + intros p c Hp. rewrite <- isIdentifierChar_spec.
      assert (Hlen : n = S (String.length p)).
      { rewrite <- Hpre, Hp, string_length_app. simpl. lia. }
      assert (Hget : String.get (String.length p) line = Some c).
      { rewrite Hline, Hp. apply get_snoc_app. }
      destruct (0 <? i) eqn:E0; [|apply Z.ltb_ge in E0; lia].
      destruct (i - 1 <? 0) eqn:E1; [apply Z.ltb_lt in E1; lia|].
      replace (Z.to_nat (i - 1)) with (String.length p) in Hwb by lia.
      rewrite Hget in Hwb.
      destruct (isIdentifierChar (rune c)); [discriminate | congruence].
    + intros c q Hq. rewrite <- isIdentifierChar_spec.
      assert (Hget : String.get (n + String.length tok) line = Some c).
      { rewrite Hline at 1. rewrite <- Hpre at 1. rewrite get_after_token, Hq.
        reflexivity. }
      assert (Hlt : (n + String.length tok < String.length line)%nat).
      { destruct (Nat.eq_dec (n + String.length tok)%nat (String.length line)) as [E|E];
          [|lia].
        rewrite E, get_app_end in Hget. discriminate. }
      destruct (if 0 <? i then _ else true); [|discriminate].
      destruct (i + Z.of_nat (String.length tok) <? Z.of_nat (String.length line)) eqn:E2;
        [|apply Z.ltb_ge in E2; lia].
      destruct (i + Z.of_nat (String.length tok) <? 0) eqn:E3;
        [apply Z.ltb_lt in E3; lia|].
      replace (Z.to_nat (i + Z.of_nat (String.length tok)))
        with (n + String.length tok)%nat in Hwb by lia.
      rewrite Hget in Hwb.
      destruct (isIdentifierChar (rune c)); [discriminate | congruence].
  - intros (pre & post & Hline & Hpre & Hbefore & Hafter).
    split.
    + rewrite Hline, <- Hpre. apply substring_app_mid.
    + unfold isWordBoundary, index, len.
      assert (Hb : (if 0 <? i
                    then match (if i - 1 <? 0 then None
                                else String.get (Z.to_nat (i - 1)) line) with
                         | Some prevChar => negb (isIdentifierChar (rune prevChar))
                         | None => true
                         end
                    else true) = true).
      { destruct (0 <? i) eqn:E0; [|reflexivity]. apply Z.ltb_lt in E0.
        destruct (i - 1 <? 0) eqn:E1; [reflexivity|].
        destruct (string_snoc_inv pre) as [-> | (p & c & Hp)]; [simpl in Hpre; lia|].
        assert (Hlen : n = S (String.length p)).
        { rewrite <- Hpre, Hp, string_length_app. simpl. lia. }
        replace (Z.to_nat (i - 1)) with (String.length p) by lia.
        rewrite Hline, Hp, get_snoc_app.
        specialize (Hbefore p c Hp). rewrite <- isIdentifierChar_spec in Hbefore.
        destruct (isIdentifierChar (rune c)); [congruence | reflexivity]. }
      rewrite Hb.
      destruct (i + Z.of_nat (String.length tok) <? Z.of_nat (String.length line)) eqn:E2;
        [|reflexivity].
      destruct (i + Z.of_nat (String.length tok) <? 0) eqn:E3; [reflexivity|].
      replace (Z.to_nat (i + Z.of_nat (String.length tok)))
        with (String.length pre + String.length tok)%nat by lia.
      rewrite Hline at 1. rewrite get_after_token.
      destruct post as [|c q]; [reflexivity|].
      specialize (Hafter c q eq_refl). rewrite <- isIdentifierChar_spec in Hafter.
      destruct (isIdentifierChar (rune c)); [congruence | reflexivity].
Qed.

Lemma boundary_occurrence_in_range (line tok : string) (i : nat) :
  boundary_occurrence line tok i ->
  (i + String.length tok <= String.length line)%nat.
Proof.
  intros (pre & post & -> & <- & _). rewrite !string_length_app. lia.
Qed.

(** The loop returns the least accepted offset of its range, or [-1]. *)
Lemma scanFrom_spec (line tok : string) (n : nat) (i : Z) :
  0 <= i -> i + Z.of_nat n + len tok <= len line + 1 ->
  let r := scanFrom line tok i n in
  (r = -1 /\ forall j, i <= j < i + Z.of_nat n ->
                       ~ boundary_occurrence line tok (Z.to_nat j))
  \/ (i <= r < i + Z.of_nat n /\ boundary_occurrence line tok (Z.to_nat r) /\
      forall j, i <= j < r -> ~ boundary_occurrence line tok (Z.to_nat j)).
Proof.
  revert i. induction n as [|n IH]; intros i Hi Hle; simpl.
  - left. split; [reflexivity | intros j Hj; lia].
  - destruct (String.eqb _ _ && isWordBoundary line i tok) eqn:E.
    + right. split; [lia|]. split; [apply iteration_accepts; [lia | lia | exact E]|].
      intros j Hj. lia.
    + assert (Hno : ~ boundary_occurrence line tok (Z.to_nat i)).
      { intros Hb. apply iteration_accepts in Hb; [congruence | lia | lia]. }
      destruct (IH (i + 1)) as [[Hr Hall] | (Hr & Hocc & Hall)]; [lia | lia | |].
      * left. split; [exact Hr|]. intros j Hj.
        destruct (Z.eq_dec j i) as [->|]; [exact Hno | apply Hall; lia].
      * right. split; [lia|]. split; [exact Hocc|]. intros j Hj.
        destruct (Z.eq_dec j i) as [->|]; [exact Hno | apply Hall; lia].
Qed.

End PositionFacts.

(** The cases of the repository's tests of the position resolver. *)
Example position_resolver_tests :
  Position.findSymbolColumnInLine "type MyStruct struct {" "MyStruct" 6 = inl 6 /\
  Position.findSymbolColumnInLine
    "func NewMyStruct(name string, age int) *MyStruct {" "NewMyStruct" 12 = inl 6 /\
  Position.findSymbolColumnInLine "    Name string" "Name" 7 = inl 5 /\
  Position.findSymbolColumnInLine "        Name: name," "Name" 14 = inl 9 /\
  Position.findSymbolColumnInLine "    var MyStruct int" "MyStruct" 20 = inl 9 /\
  Position.findSymbolColumnInLine "package testpkg" "NonExistent" 1
  = inr (Position.ErrNotAtWordBoundary "NonExistent" 1) /\
  Position.findSymbolColumnInLine "    var name string" "name" 4 = inl 9 /\
  Position.findSymbolColumnInLine "    fmt.Println(name)" "name" 6 = inl 17 /\
  Position.findSymbolColumnPosition
    (inl ("package test" +:+ GoString.nl)) 100 "MyStruct"
  = inr (Position.ErrLineExceeds 100 2).
Proof. repeat split; reflexivity. Qed.

(** *** Characters and bytes *)
Section CharacterFacts.
Import GoString Position.

Lemma last_snoc_some {A : Type} (l : list A) (x : A) :
  List.last (map Some (l ++ [x])) None = Some x.
Proof.
  rewrite map_app. cbn [map]. apply last_last.
Qed.

Lemma list_snoc_inv {A : Type} (l : list A) :
  l = [] \/ exists before x, l = before ++ [x].
Proof.
  destruct l as [|a l]; [now left | right].
  destruct (exists_last (l := a :: l)) as (before & x & H); [discriminate|].
  eauto.
Qed.

(** An occurrence at a boundary of characters is found by computation. *)
Lemma character_boundary_decided (u : Unicode.tables) (line token : string)
    (i : nat) :
  character_boundary_occurrence u line token i ->
  characterBoundaryAt u line token i = true.
Proof.
  intros (pre & post & -> & <- & Hb & Ha). unfold characterBoundaryAt.
  rewrite substring_prefix, substring_app_mid, String.eqb_refl.
  assert (Hpost : String.substring (String.length pre + String.length token)
                    (String.length (pre +:+ token +:+ post)
                     - (String.length pre + String.length token))
                    (pre +:+ token +:+ post) = post).
  { rewrite <- string_app_assoc, <- string_length_app, substring_skip.
    rewrite string_length_app.
    replace (String.length (pre +:+ token) + String.length post
             - String.length (pre +:+ token))%nat
      with (String.length post) by lia.
    apply substring_all. }
  rewrite Hpost.
  assert (Hlen : (String.length pre + String.length token
                  <=? String.length (pre +:+ token +:+ post))%nat = true).
  { apply Nat.leb_le. rewrite !string_length_app. lia. }
  rewrite Hlen. cbn [andb].
  assert (H1 : match List.last (map Some (Unicode.runes pre)) None with
               | Some r => identifierRune u r
               | None => false
               end = false).
  { destruct (list_snoc_inv (Unicode.runes pre)) as [->|(before & r & Hr)];
      [reflexivity|].
    rewrite Hr, last_snoc_some. exact (Hb before r Hr). }
  assert (H2 : match Unicode.runes post with
               | r :: _ => identifierRune u r
               | [] => false
               end = false).
  { destruct (Unicode.runes post) as [|r after] eqn:Hr; [reflexivity|].
    exact (Ha r after eq_refl). }
  now rewrite H1, H2.
Qed.

(** The characters of an ASCII string are its bytes. *)
Lemma runesFuel_ascii (s : string) (fuel : nat) :
  Unicode.isASCII s = true -> (String.length s <= fuel)%nat ->
  Unicode.runesFuel fuel s = Unicode.codes s.
Proof.
  revert fuel. induction s as [|c s IH]; intros fuel Ha Hf.
  - destruct fuel; reflexivity.
  - cbn [Unicode.isASCII] in Ha. apply andb_true_iff in Ha as [Hc Hs].
    destruct fuel as [|fuel]; [cbn in Hf; lia|].
    cbn [Unicode.runesFuel Unicode.decodeRune Unicode.codes]. rewrite Hc.
    f_equal. apply IH; [exact Hs | cbn in Hf; lia].
Qed.

Lemma runes_ascii (s : string) :
  Unicode.isASCII s = true -> Unicode.runes s = Unicode.codes s.
Proof. intros H. apply runesFuel_ascii; [exact H | lia]. Qed.

Lemma isASCII_app (a b : string) :
  Unicode.isASCII (a +:+ b) = Unicode.isASCII a && Unicode.isASCII b.
Proof.
  induction a as [|c a IH]; [reflexivity|].
  cbn [Unicode.isASCII]. change (String c a +:+ b) with (String c (a +:+ b)).
  cbn [Unicode.isASCII]. rewrite IH. apply andb_assoc.
Qed.

Lemma codes_app (a b : string) :
  Unicode.codes (a +:+ b) = Unicode.codes a ++ Unicode.codes b.
Proof.
  induction a as [|c a IH]; [reflexivity|].
  change (String c a +:+ b) with (String c (a +:+ b)).
  cbn [Unicode.codes app]. now rewrite IH.
Qed.

(** On an ASCII character the identifier characters of Go are those
    [isIdentifierChar] accepts. *)
Lemma identifierRune_ascii (u : Unicode.tables) (c : ascii) :
  (rune c <? 128) = true ->
  identifierRune u (rune c) = isIdentifierChar (rune c).
Proof.
  destruct c as [b0 b1 b2 b3 b4 b5 b6 b7].
  destruct b7; [intros H; vm_compute in H; destruct b0, b1, b2, b3, b4, b5, b6;
                discriminate H|].
  intros _. destruct b0, b1, b2, b3, b4, b5, b6; vm_compute; reflexivity.
Qed.

(** On an ASCII line the boundaries of characters are the boundaries of
    bytes the resolver looks for. *)
Lemma ascii_boundaries_agree (u : Unicode.tables) (line token : string)
    (i : nat) :
  Unicode.isASCII line = true ->
  (character_boundary_occurrence u line token i
   <-> boundary_occurrence line token i).
Proof.
  intros Hascii.
  assert (Hparts : forall pre post,
            line = pre +:+ token +:+ post ->
            Unicode.isASCII pre = true /\ Unicode.isASCII post = true).
  { intros pre post ->. rewrite !isASCII_app in Hascii.
    apply andb_true_iff in Hascii as [Hp Hq].
    apply andb_true_iff in Hq as [_ Hq]. auto. }
  assert (Hid : forall c, (rune c <? 128) = true ->
            (identifierRune u (rune c) = false <-> ~ identifier_character c)).
  { intros c Hc. rewrite (identifierRune_ascii u c Hc), <- isIdentifierChar_spec.
    destruct (isIdentifierChar (rune c)); split; congruence. }
  split; intros (pre & post & Hline & Hlen & Hb & Ha);
    destruct (Hparts pre post Hline) as [Hpre Hpost];
    exists pre, post; (split; [exact Hline|]); (split; [exact Hlen|]); split.
  - intros p c Hp. subst pre. rewrite isASCII_app in Hpre.
    apply andb_true_iff in Hpre as [Hp' Hc]. cbn [Unicode.isASCII] in Hc.
    rewrite andb_true_r in Hc. apply (Hid c Hc).
    apply (Hb (Unicode.codes p)).
    rewrite runes_ascii, codes_app; [reflexivity|].
    rewrite isASCII_app, Hp'. cbn [Unicode.isASCII]. now rewrite Hc.
  - intros c q Hq. subst post. cbn [Unicode.isASCII] in Hpost.
    apply andb_true_iff in Hpost as [Hc Hq']. apply (Hid c Hc).
    apply (Ha (rune c) (Unicode.codes q)).
    rewrite runes_ascii; [reflexivity|]. cbn [Unicode.isASCII]. now rewrite Hc.
  - intros before r Hr. rewrite (runes_ascii pre Hpre) in Hr.
    destruct (string_snoc_inv pre) as [->|(p & c & Hp)].
    + destruct before; discriminate Hr.
    + subst pre. rewrite codes_app in Hr. cbn [Unicode.codes] in Hr.
      apply app_inj_tail in Hr as [_ <-].
      rewrite isASCII_app in Hpre. apply andb_true_iff in Hpre as [_ Hc].
      cbn [Unicode.isASCII] in Hc. rewrite andb_true_r in Hc.
      apply (Hid c Hc). exact (Hb p c eq_refl).
  - intros r after Hr. rewrite (runes_ascii post Hpost) in Hr.
    destruct post as [|c q]; [discriminate Hr|].
    cbn [Unicode.codes] in Hr. injection Hr as <- _.
    cbn [Unicode.isASCII] in Hpost. apply andb_true_iff in Hpost as [Hc _].
    apply (Hid c Hc). exact (Ha c q eq_refl).
Qed.

End CharacterFacts.

(** The resolver returns the 1-based column of the leftmost occurrence of
    the token between bytes that [isIdentifierChar] rejects, and the error
    when there is none. *)
Lemma findSymbolColumnInLine_bytes
    (line token : string) (lineNumber : Z) :
  token <> "" ->
  match Position.findSymbolColumnInLine line token lineNumber with
  | inl column =>
      exists i : nat,
        column = Z.of_nat i + 1 /\
        Position.boundary_occurrence line token i /\
        forall j : nat, (j < i)%nat -> ~ Position.boundary_occurrence line token j
  | inr e =>
      e = Position.ErrNotAtWordBoundary token lineNumber /\
      forall i : nat, ~ Position.boundary_occurrence line token i
  end
  /\ Position.findSymbolColumnInLine "Person" "Per" lineNumber
     = inr (Position.ErrNotAtWordBoundary "Per" lineNumber)
  /\ Position.findSymbolColumnInLine "type MyStruct struct {" "MyStruct" lineNumber
     = inl 6.
Proof.
  intros _. split; [|split; reflexivity].
  unfold Position.findSymbolColumnInLine, Position.iterations.
  destruct (Z_le_gt_dec (GoString.len token) (GoString.len line + 1)) as [Hle|Hgt].
  - pose proof (scanFrom_spec line token
                  (Z.to_nat (GoString.len line - GoString.len token + 1)) 0) as H.
    cbv zeta in H.
    destruct H as [[Hr Hall] | (Hr & Hocc & Hall)]; [lia | lia | |].
    + rewrite Hr. simpl. split; [reflexivity|]. intros i Hb.
      pose proof (boundary_occurrence_in_range _ _ _ Hb) as Hrange.
      apply (Hall (Z.of_nat i)); [unfold GoString.len in *; lia|].
      now rewrite Nat2Z.id.
    + destruct (_ =? -1) eqn:E; [apply Z.eqb_eq in E; lia|].
      exists (Z.to_nat (Position.scanFrom line token 0
                (Z.to_nat (GoString.len line - GoString.len token + 1)))).
      split; [lia|]. split; [exact Hocc|]. intros j Hj Hb.
      apply (Hall (Z.of_nat j)); [lia | now rewrite Nat2Z.id].
  - replace (Z.to_nat (GoString.len line - GoString.len token + 1)) with 0%nat by lia.
    simpl. split; [reflexivity|]. intros i Hb.
    pose proof (boundary_occurrence_in_range _ _ _ Hb). unfold GoString.len in *. lia.
Qed.


(** C1, contradicted by the code.  The resolver takes the bytes next to an
    occurrence for its neighbouring characters and knows the ASCII letters
    only, where the claim, and the comment on [isIdentifierChar] ("can be
    part of a Go identifier"), speak of letters.
    - On a line of ASCII characters it does what the claim says: it returns
      the 1-based column of the leftmost occurrence of the token whose
      neighbouring characters (if any) are not identifier characters, and
      fails with the position-not-found error when there is none; token
      [Per] on line [Person] fails, and token [MyStruct] on line
      [type MyStruct struct {] gives column 6.
    - On the line [var naïve int] it returns column 5 for the token [na], and
      on the line [ÉPer] column 3 for the token [Per], although on neither
      line an occurrence of the token lies between characters that are not
      identifier characters: the claim asks for the error. *)
Theorem position_resolver_knows_ascii_letters_only
    (u : Unicode.tables) (line token : string) (lineNumber : Z) :
  token <> "" -> Unicode.isASCII line = true ->
  match Position.findSymbolColumnInLine line token lineNumber with
  | inl column =>
      exists i : nat,
        column = Z.of_nat i + 1 /\
        Position.character_boundary_occurrence u line token i /\
        forall j : nat,
          (j < i)%nat -> ~ Position.character_boundary_occurrence u line token j
  | inr e =>
      e = Position.ErrNotAtWordBoundary token lineNumber /\
      forall i : nat, ~ Position.character_boundary_occurrence u line token i
  end
  /\ Position.findSymbolColumnInLine "Person" "Per" lineNumber
     = inr (Position.ErrNotAtWordBoundary "Per" lineNumber)
  /\ Position.findSymbolColumnInLine "type MyStruct struct {" "MyStruct" lineNumber
     = inl 6
  /\ Position.findSymbolColumnInLine Position.naiveLine "na" lineNumber = inl 5
  /\ (forall i : nat,
        ~ Position.character_boundary_occurrence u Position.naiveLine "na" i)
  /\ Position.findSymbolColumnInLine Position.ePerLine "Per" lineNumber = inl 3
  /\ (forall i : nat,
        ~ Position.character_boundary_occurrence u Position.ePerLine "Per" i).
Proof.
  intros Htoken Hascii.
  split; [|split; [reflexivity|split; [reflexivity|split; [reflexivity|
          split; [|split; [reflexivity|]]]]]].
  - pose proof (proj1 (findSymbolColumnInLine_bytes line token lineNumber Htoken))
      as H.
    destruct (Position.findSymbolColumnInLine line token lineNumber) as [column|e].
    + destruct H as (i & Hc & Hocc & Hleft). exists i. split; [exact Hc|].
      split; [now apply ascii_boundaries_agree|].
      intros j Hj Hb. apply (Hleft j Hj). now apply (ascii_boundaries_agree u).
    + destruct H as [He Hnone]. split; [exact He|].
      intros i Hb. apply (Hnone i). now apply (ascii_boundaries_agree u).
  - intros i H. apply character_boundary_decided in H.
    do 16 (destruct i as [|i]; [vm_compute in H; discriminate H|]).
    vm_compute in H. discriminate H.
  - intros i H. apply character_boundary_decided in H.
    do 8 (destruct i as [|i]; [vm_compute in H; discriminate H|]).
    vm_compute in H. discriminate H.
Qed.

Lemma position_resolver_knows_ascii_letters_only_witness :
  "name" <> "" /\ Unicode.isASCII "    fmt.Println(name)" = true /\
  exists i : nat,
    17 = Z.of_nat i + 1 /\
    Position.character_boundary_occurrence
      {| Unicode.letterAbove := fun _ => false;
         Unicode.digitAbove := fun _ => false |}
      "    fmt.Println(name)" "name" i /\
    forall j : nat,
      (j < i)%nat ->
      ~ Position.character_boundary_occurrence
          {| Unicode.letterAbove := fun _ => false;
             Unicode.digitAbove := fun _ => false |}
          "    fmt.Println(name)" "name" j.
Proof.
  split; [discriminate|]. split; [reflexivity|].
  exact (proj1 (position_resolver_knows_ascii_letters_only
                  {| Unicode.letterAbove := fun _ => false;
                     Unicode.digitAbove := fun _ => false |}
                  "    fmt.Println(name)" "name" 6 ltac:(discriminate) eq_refl)).
Defined.

(** ** Parse cache *)
Section CacheFacts.
Import Ast World Run Cache.

Ltac run_cache :=
  unfold GetOrParseFile, ClearCache, RemoveFile, bind, ret, lookupFile, os_Stat,
    os_ReadFile, emit, newCachedFile, storeFile in *; simpl in *.

(** A call that finds a valid entry returns it and leaves the map alone. *)
Lemma GetOrParseFile_hit (w : World.t) (p : string) (st : State)
    (c : cachedFile) (now : Z) :
  files st !! p = Some c -> stat w p = StatOk now ->
  After now (cf_modTime c) = false ->
  GetOrParseFile w p st
  = (inl c, {| files := files st; nextAddr := nextAddr st;
               trace := trace st ++ [EvStat p] |}).
Proof. intros Hc Hs Ha. run_cache. rewrite Hc, Hs, Ha. reflexivity. Qed.

(** A call that has to parse, and can, allocates a new entry and stores it
    under the path. *)
Lemma GetOrParseFile_parse (w : World.t) (p : string) (st : State)
    (now : Z) (src : string) (file : File) :
  match files st !! p with
  | Some c => After now (cf_modTime c) = true
  | None => True
  end ->
  stat w p = StatOk now -> readFile w p = inl src ->
  pr_file (parse w p src) = Some file ->
  (forall e, pr_err (parse w p src) <> Some (OtherError e)) ->
  exists st',
    GetOrParseFile w p st
    = (inl {| cf_addr := nextAddr st; cf_ast := file; cf_modTime := now;
              cf_filePath := p |}, st') /\
    files st' = <[p := {| cf_addr := nextAddr st; cf_ast := file;
                          cf_modTime := now; cf_filePath := p |}]> (files st) /\
    nextAddr st' = S (nextAddr st).
Proof.
  intros Hc Hs Hr Hf He. run_cache.
  destruct (files st !! p) as [c|]; rewrite ?Hs, ?Hc; simpl;
    rewrite Hr, Hf; (destruct (pr_err (parse w p src)) as [[m|m]|];
      [| exfalso; exact (He m eq_refl) |]); rewrite ?Hs;
    eexists; (split; [reflexivity | split; reflexivity]).
Qed.

(** Whatever a call returns, the map changes at most at the path asked for,
    and only by storing a newly allocated entry, which is the one returned. *)
Lemma GetOrParseFile_files (w : World.t) (p : string) (st : State) :
  match GetOrParseFile w p st with
  | (inr _, st') => files st' = files st /\ nextAddr st' = nextAddr st
  | (inl c, st') =>
      (files st' = files st /\ files st !! p = Some c /\
       nextAddr st' = nextAddr st)
      \/ (files st' = <[p := c]> (files st) /\ cf_filePath c = p /\
          cf_addr c = nextAddr st /\ nextAddr st' = S (nextAddr st))
  end.
Proof.
  run_cache.
  destruct (files st !! p) as [c|] eqn:Hc; simpl.
  - destruct (stat w p) as [now|b m] eqn:Hs; simpl.
    + destruct (After now (cf_modTime c)); simpl; [|left; auto].
      destruct (readFile w p) as [src|e]; simpl; [|auto].
      destruct (pr_err (parse w p src)) as [[m|m]|]; simpl; auto;
        destruct (pr_file (parse w p src)); simpl; auto; rewrite ?Hs; simpl;
        right; auto.
    + destruct (readFile w p) as [src|e]; simpl; [|auto].
      destruct (pr_err (parse w p src)) as [[m'|m']|]; simpl; auto;
        destruct (pr_file (parse w p src)); simpl; auto; rewrite ?Hs; simpl; auto.
  - destruct (readFile w p) as [src|e]; simpl; [|auto].
    destruct (pr_err (parse w p src)) as [[m|m]|]; simpl; auto;
      destruct (pr_file (parse w p src)); simpl; auto;
      destruct (stat w p); simpl; auto; right; auto.
Qed.

End CacheFacts.

Section CacheInvariant.
Import Ast World Run Cache.

Lemma cache_inv_initial : cache_inv initial.
Proof. intros p c H. simpl in H. rewrite lookup_empty in H. discriminate. Qed.

Lemma cache_inv_alloc (st : State) (n : nat) :
  cache_inv st -> (nextAddr st <= n)%nat ->
  cache_inv {| files := files st; nextAddr := n; trace := trace st |}.
Proof.
  intros Hinv Hn p c Hc. simpl in *. destruct (Hinv p c Hc) as (H1 & H2 & H3).
  split; [exact H1|]. split; [lia | exact H3].
Qed.

Lemma cache_inv_store (st st' : State) (p : string) (c : cachedFile) :
  cache_inv st -> files st' = <[p := c]> (files st) -> cf_filePath c = p ->
  cf_addr c = nextAddr st -> nextAddr st' = S (nextAddr st) -> cache_inv st'.
Proof.
  intros Hinv Hf Hp Ha Hn q d Hd. rewrite Hf in Hd. rewrite Hn.
  destruct (decide (p = q)) as [<-|Hne].
  - rewrite lookup_insert_eq in Hd. injection Hd as <-.
    split; [exact Hp|]. split; [lia|]. intros q e He Hae. rewrite Hf in He.
    destruct (decide (p = q)) as [|Hne]; [assumption|].
    rewrite lookup_insert_ne in He by exact Hne.
    destruct (Hinv q e He) as (_ & Hlt & _). lia.
  - rewrite lookup_insert_ne in Hd by exact Hne.
    destruct (Hinv q d Hd) as (H1 & H2 & H3).
    split; [exact H1|]. split; [lia|]. intros r e He Hae. rewrite Hf in He.
    destruct (decide (p = r)) as [<-|Hne'].
    + rewrite lookup_insert_eq in He. injection He as <-. lia.
    + rewrite lookup_insert_ne in He by exact Hne'. exact (H3 r e He Hae).
Qed.

Lemma cache_inv_same (st st' : State) :
  cache_inv st -> files st' = files st -> nextAddr st' = nextAddr st ->
  cache_inv st'.
Proof.
  intros Hinv Hf Hn p c Hc. rewrite Hf in Hc. rewrite Hn.
  destruct (Hinv p c Hc) as (H1 & H2 & H3). split; [exact H1|].
  split; [exact H2|]. intros q d Hd. rewrite Hf in Hd. exact (H3 q d Hd).
Qed.

Lemma cache_inv_GetOrParseFile (w : World.t) (p : string) (st : State) :
  cache_inv st -> cache_inv (snd (GetOrParseFile w p st)).
Proof.
  intros Hinv. pose proof (GetOrParseFile_files w p st) as H.
  destruct (GetOrParseFile w p st) as [[c|e] st']; simpl.
  - destruct H as [(Hf & _ & Hn) | (Hf & Hp & Ha & Hn)].
    + exact (cache_inv_same _ _ Hinv Hf Hn).
    + exact (cache_inv_store _ _ _ _ Hinv Hf Hp Ha Hn).
  - destruct H as [Hf Hn]. exact (cache_inv_same _ _ Hinv Hf Hn).
Qed.

Lemma cache_inv_reachable (st : State) : reachable st -> cache_inv st.
Proof.
  induction 1 as [|w op st Hr IH]; [exact cache_inv_initial|].
  destruct op as [p| |p]; simpl.
  - exact (cache_inv_GetOrParseFile w p st IH).
  - intros q c Hc. simpl in Hc. rewrite lookup_empty in Hc. discriminate.
  - intros q c Hc. simpl in *.
    destruct (decide (p = q)) as [<-|Hne];
      [rewrite lookup_delete_eq in Hc; discriminate|].
    rewrite lookup_delete_ne in Hc by exact Hne.
    destruct (IH q c Hc) as (H1 & H2 & H3). split; [exact H1|].
    split; [exact H2|]. intros r d Hd Ha.
    destruct (decide (p = r)) as [<-|Hne'];
      [rewrite lookup_delete_eq in Hd; discriminate|].
    rewrite lookup_delete_ne in Hd by exact Hne'. exact (H3 r d Hd Ha).
Qed.

End CacheInvariant.

Section CacheClaims.
Import Ast World Run Cache.

Ltac run_cache :=
  unfold GetOrParseFile, ClearCache, RemoveFile, bind, ret, lookupFile, os_Stat,
    os_ReadFile, emit, newCachedFile, storeFile in *; simpl in *.

Lemma GetOrParseFileTimes_hit (w : World.t) (p : string) (c : cachedFile)
    (now : Z) (n : nat) (st : State) :
  files st !! p = Some c -> stat w p = StatOk now ->
  After now (cf_modTime c) = false ->
  fst (GetOrParseFileTimes w p n st) = repeat (inl c) n /\
  files (snd (GetOrParseFileTimes w p n st)) = files st.
Proof.
  intros Hc Hs Ha. revert st Hc.
  induction n as [|n IH]; intros st Hc; [split; reflexivity|].
  specialize (IH {| files := files st; nextAddr := nextAddr st;
                    trace := trace st ++ [EvStat p] |} Hc).
  simpl. unfold bind. rewrite (GetOrParseFile_hit w p st c now Hc Hs Ha).
  destruct (GetOrParseFileTimes w p n _) as [rs st'].
  simpl in *. destruct IH as [Hrs Hst]. rewrite Hrs, Hst. split; reflexivity.
Qed.

(** C2. An entry of the cache is served exactly when the file's current
    modification time is not strictly after the time recorded in the entry:
    while the time is unchanged, repeated calls return the same instance and
    leave the map alone; once it has advanced, the call never returns the
    old entry, and (the file being readable and parsable) returns a newly
    allocated entry with the new tree and time, stored under the path in
    place of the old one. *)
Theorem cache_entry_valid_iff_not_modified
    (w : World.t) (p : string) (st : State) (c : cachedFile) (now : Z) :
  files st !! p = Some c -> stat w p = StatOk now ->
  (fst (GetOrParseFile w p st) = inl c <-> ~ cf_modTime c < now) /\
  (~ cf_modTime c < now ->
   forall n : nat,
     fst (GetOrParseFileTimes w p n st) = repeat (inl c) n /\
     files (snd (GetOrParseFileTimes w p n st)) = files st) /\
  (cf_modTime c < now ->
   forall (src : string) (file : File),
     readFile w p = inl src -> pr_file (parse w p src) = Some file ->
     (forall e, pr_err (parse w p src) <> Some (OtherError e)) ->
     exists (c' : cachedFile) (st' : State),
       GetOrParseFile w p st = (inl c', st') /\ c' <> c /\
       cf_ast c' = file /\ cf_modTime c' = now /\ cf_addr c' = nextAddr st /\
       files st' = <[p := c']> (files st)).
Proof.
  intros Hc Hs.
  assert (Hold : ~ cf_modTime c < now -> After now (cf_modTime c) = false).
  { intros H. unfold After. apply Z.ltb_ge. lia. }
  assert (Hnew : cf_modTime c < now -> After now (cf_modTime c) = true).
  { intros H. unfold After. apply Z.ltb_lt. lia. }
  split; [split|split].
  - intros Hres Hlt. apply Hnew in Hlt. run_cache. rewrite Hc, Hs in Hres.
    simpl in Hres. rewrite Hlt in Hres. simpl in Hres.
    destruct (readFile w p) as [src|e]; simpl in Hres; [|discriminate].
    destruct (pr_err (parse w p src)) as [[m|m]|]; simpl in Hres;
      try discriminate;
      destruct (pr_file (parse w p src)); simpl in Hres; try discriminate;
      rewrite ?Hs in Hres; simpl in Hres; injection Hres as Hres;
      apply (f_equal cf_modTime) in Hres; simpl in Hres;
      unfold After in Hlt; apply Z.ltb_lt in Hlt; lia.
  - intros Hle. rewrite (GetOrParseFile_hit w p st c now Hc Hs (Hold Hle)).
    reflexivity.
  - intros Hle n. exact (GetOrParseFileTimes_hit w p c now n st Hc Hs (Hold Hle)).
  - intros Hlt src file Hr Hf He.
    destruct (GetOrParseFile_parse w p st now src file) as (st' & Hg & Hfiles & _);
      try assumption.
    { rewrite Hc. exact (Hnew Hlt). }
    eexists. exists st'. split; [exact Hg|]. split.
    { intros Heq. apply (f_equal cf_modTime) in Heq. simpl in Heq. lia. }
    repeat split; try reflexivity. exact Hfiles.
Qed.

Lemma cache_entry_valid_iff_not_modified_witness :
  exists (c' : cachedFile) (st' : State),
    GetOrParseFile Sample.oneFile "/w/a.go" Sample.oldState = (inl c', st') /\
    c' <> Sample.oldEntry /\
    cf_ast c' = Sample.emptyFile "a" /\ cf_modTime c' = 200 /\
    cf_addr c' = 1%nat /\
    files st' = <["/w/a.go" := c']> (files Sample.oldState).
Proof.
  destruct (cache_entry_valid_iff_not_modified Sample.oneFile "/w/a.go"
              Sample.oldState Sample.oldEntry 200) as (_ & _ & H).
  - reflexivity.
  - reflexivity.
  - apply (H ltac:(simpl; lia) "package a" (Sample.emptyFile "a")).
    + reflexivity.
    + reflexivity.
    + intros e. simpl. discriminate.
Defined.

(** C10. When the entry of a path is absent or not served, and reading,
    parsing or examining the file fails, [GetOrParseFile] returns an error
    and leaves the map of the cache as it was: the previous entry, if any, is
    still there and nothing is inserted.  Errors arise in no other way. *)
Theorem GetOrParseFile_failure_keeps_cache
    (w : World.t) (p : string) (st : State) :
  (needsParse w p st = true -> parseFails w p = true ->
   exists (err : string) (st' : State),
     GetOrParseFile w p st = (inr err, st') /\
     files st' = files st /\ nextAddr st' = nextAddr st) /\
  (forall (err : string) (st' : State),
     GetOrParseFile w p st = (inr err, st') ->
     files st' = files st /\ needsParse w p st = true /\ parseFails w p = true).
Proof.
  unfold needsParse, parseFails. split.
  - intros Hn Hf. run_cache.
    destruct (files st !! p) as [c|]; simpl.
    + destruct (stat w p) as [now|b m] eqn:Hs; simpl.
      * rewrite Hn. simpl.
        destruct (readFile w p) as [src|e]; simpl; [|eauto].
        destruct (pr_err (parse w p src)) as [[m|m]|]; simpl; eauto;
          destruct (pr_file (parse w p src)); simpl; eauto; discriminate.
      * destruct (readFile w p) as [src|e]; simpl; [|eauto].
        destruct (pr_err (parse w p src)) as [[m'|m']|]; simpl; eauto;
          destruct (pr_file (parse w p src)); simpl; eauto.
    + destruct (readFile w p) as [src|e]; simpl; [|eauto].
      destruct (pr_err (parse w p src)) as [[m|m]|]; simpl; eauto;
        destruct (pr_file (parse w p src)); simpl; eauto;
        destruct (stat w p); simpl; eauto; discriminate.
  - intros err st' H. split.
    + pose proof (GetOrParseFile_files w p st) as Hf. rewrite H in Hf.
      exact (proj1 Hf).
    + run_cache.
      destruct (files st !! p) as [c|]; simpl in *.
      * destruct (stat w p) as [now|b m] eqn:Hs; simpl in *.
        -- destruct (After now (cf_modTime c)); simpl in *; [|discriminate].
           destruct (readFile w p) as [src|e]; simpl in *; [|auto].
           destruct (pr_err (parse w p src)) as [[m|m]|]; simpl in *; auto;
             destruct (pr_file (parse w p src)); simpl in *; auto; discriminate.
        -- destruct (readFile w p) as [src|e]; simpl in *; [|auto].
           destruct (pr_err (parse w p src)) as [[m'|m']|]; simpl in *; auto;
             destruct (pr_file (parse w p src)); simpl in *; auto.
      * destruct (readFile w p) as [src|e]; simpl in *; [|auto].
        destruct (pr_err (parse w p src)) as [[m|m]|]; simpl in *; auto;
          destruct (pr_file (parse w p src)); simpl in *; auto;
          destruct (stat w p); simpl in *; auto; discriminate.
Qed.

Lemma GetOrParseFile_failure_keeps_cache_witness :
  exists (err : string) (st' : State),
    GetOrParseFile Sample.bare "/w/a.go" Sample.oldState = (inr err, st') /\
    files st' = files Sample.oldState /\
    nextAddr st' = nextAddr Sample.oldState.
Proof.
  apply (proj1 (GetOrParseFile_failure_keeps_cache Sample.bare "/w/a.go"
                  Sample.oldState)); reflexivity.
Defined.

(** C9, as stated, fails: two names of one file each get an entry. *)
Lemma one_entry_per_file_fails : ~ one_entry_per_file.
Proof.
  intros H.
  specialize (H Sample.twoNames [OpGet "/w/a.go"; OpGet "/w/./a.go"]
                "/w/a.go" "/w/./a.go").
  specialize (H {| cf_addr := 0; cf_ast := Sample.emptyFile "a";
                   cf_modTime := 200; cf_filePath := "/w/a.go" |}
                {| cf_addr := 1; cf_ast := Sample.emptyFile "a";
                   cf_modTime := 200; cf_filePath := "/w/./a.go" |}).
  assert (Hne : "/w/a.go" <> "/w/./a.go") by discriminate.
  apply Hne, H.
  - vm_compute. reflexivity.
  - vm_compute. reflexivity.
  - exists 7%nat. split; reflexivity.
Qed.

(** C9 (amended). In every reachable state the cache holds at most one entry
    per path string: each entry records the path it is stored under and has
    an address of its own, so two entries with the same recorded path (or
    the same address) are one entry under one key; a call of
    [GetOrParseFile] changes the map at most at the path asked for, where it
    overwrites what was there.  (Paths are compared as strings: two
    different names of one file each get an entry.) *)
Theorem cache_one_entry_per_path (st : State) :
  reachable st ->
  (forall (p : string) (c : cachedFile),
     files st !! p = Some c -> cf_filePath c = p) /\
  (forall (p q : string) (c d : cachedFile),
     files st !! p = Some c -> files st !! q = Some d ->
     cf_filePath c = cf_filePath d \/ cf_addr c = cf_addr d ->
     p = q /\ c = d) /\
  (forall (w : World.t) (p : string),
     (forall q : string,
        q <> p -> files (snd (GetOrParseFile w p st)) !! q = files st !! q) /\
     dom (files (snd (GetOrParseFile w p st))) ⊆ {[p]} ∪ dom (files st) /\
     (is_Some (files st !! p) ->
      dom (files (snd (GetOrParseFile w p st))) = dom (files st))).
Proof.
  intros Hr. pose proof (cache_inv_reachable st Hr) as Hinv.
  split; [|split].
  - intros p c Hc. exact (proj1 (Hinv p c Hc)).
  - intros p q c d Hc Hd Hsame.
    assert (Hpq : p = q).
    { destruct Hsame as [Hp|Ha].
      - destruct (Hinv p c Hc) as (<- & _). destruct (Hinv q d Hd) as (<- & _).
        exact Hp.
      - destruct (Hinv p c Hc) as (_ & _ & Huniq). exact (Huniq q d Hd Ha). }
    subst q. split; [reflexivity | congruence].
  - intros w p. pose proof (GetOrParseFile_files w p st) as H.
    destruct (GetOrParseFile w p st) as [[c|e] st']; simpl.
    + destruct H as [(Hf & _ & _) | (Hf & _)]; rewrite Hf.
      * split; [reflexivity|]. split; [set_solver | reflexivity].
      * split; [intros q Hq; apply lookup_insert_ne; congruence|].
        rewrite dom_insert_L. split; [set_solver|].
        intros Hsome. apply elem_of_dom in Hsome.
        apply subseteq_union_1_L, singleton_subseteq_l, Hsome.
    + destruct H as [Hf _]. rewrite Hf.
      split; [reflexivity|]. split; [set_solver | reflexivity].
Qed.

Lemma cache_one_entry_per_path_witness :
  reachable (runOp Sample.oneFile (OpGet "/w/a.go") initial) /\
  cf_filePath
    {| cf_addr := 0; cf_ast := Sample.emptyFile "a"; cf_modTime := 200;
       cf_filePath := "/w/a.go" |} = "/w/a.go".
Proof.
  split; [exact (reach_step Sample.oneFile (OpGet "/w/a.go") initial reach_initial)|].
  apply (proj1 (cache_one_entry_per_path
           (runOp Sample.oneFile (OpGet "/w/a.go") initial)
           (reach_step Sample.oneFile (OpGet "/w/a.go") initial reach_initial))
           "/w/a.go").
  vm_compute. reflexivity.
Defined.

End CacheClaims.

(** ** Scope hierarchy *)
Section NodeInduction.
Import Ast.

Variable P : Node -> Prop.

Hypothesis HIf : forall s e init cond body els,
  (forall c, init = Some c -> P c) -> P cond -> P body ->
  (forall c, els = Some c -> P c) -> P (IfStmt s e init cond body els).
Hypothesis HFor : forall s e init cond post body,
  (forall c, init = Some c -> P c) -> (forall c, cond = Some c -> P c) ->
  (forall c, post = Some c -> P c) -> P body ->
  P (ForStmt s e init cond post body).
Hypothesis HRange : forall s e key value x body,
  (forall c, key = Some c -> P c) -> (forall c, value = Some c -> P c) ->
  P x -> P body -> P (RangeStmt s e key value x body).
Hypothesis HSwitch : forall s e init tag body,
  (forall c, init = Some c -> P c) -> (forall c, tag = Some c -> P c) ->
  P body -> P (SwitchStmt s e init tag body).
Hypothesis HTypeSwitch : forall s e init assign body,
  (forall c, init = Some c -> P c) -> P assign -> P body ->
  P (TypeSwitchStmt s e init assign body).
Hypothesis HSelect : forall s e body, P body -> P (SelectStmt s e body).
Hypothesis HBlock : forall a s e l, Forall P l -> P (BlockStmt a s e l).
Hypothesis HCase : forall s e l body,
  Forall P l -> Forall P body -> P (CaseClause s e l body).
Hypothesis HComm : forall s e comm body,
  (forall c, comm = Some c -> P c) -> Forall P body ->
  P (CommClause s e comm body).
Hypothesis HFuncLit : forall s e ty body,
  P ty -> P body -> P (FuncLit s e ty body).
Hypothesis HOther : forall s e l, Forall P l -> P (Other s e l).

(** Induction on the nodes of a tree, through the lists and options of
    children. *)
Lemma Node_induction : forall n : Node, P n.
Proof.
  fix IH 1. intros n.
  pose (opt := fun (o : option Node) =>
          match o return forall c, o = Some c -> P c with
          | Some c' =>
              fun c (Hc : Some c' = Some c) =>
                match Hc in _ = y return
                      match y with Some c'' => P c'' | None => True end
                with eq_refl => IH c' end
          | None =>
              fun c (Hc : None = Some c) =>
                match Hc in _ = y return
                      match y with Some _ => P c | None => True end
                with eq_refl => I end
          end).
  destruct n as [s e init cond body els | s e init cond post body
                | s e key value x body | s e init tag body
                | s e init assign body | s e body | a s e l | s e l body
                | s e comm body | s e ty body | s e l].
  - apply HIf; [exact (opt init) | apply IH | apply IH | exact (opt els)].
  - apply HFor; [exact (opt init) | exact (opt cond) | exact (opt post) | apply IH].
  - apply HRange; [exact (opt key) | exact (opt value) | apply IH | apply IH].
  - apply HSwitch; [exact (opt init) | exact (opt tag) | apply IH].
  - apply HTypeSwitch; [exact (opt init) | apply IH | apply IH].
  - apply HSelect; apply IH.
  - apply HBlock. revert l. fix IHl 1.
    intros [|c l]; constructor; [apply IH | apply IHl].
  - apply HCase.
    + revert l. fix IHl 1. intros [|c l]; constructor; [apply IH | apply IHl].
    + revert body. fix IHl 1.
      intros [|c body]; constructor; [apply IH | apply IHl].
  - apply HComm; [exact (opt comm)|]. revert body. fix IHl 1.
    intros [|c body]; constructor; [apply IH | apply IHl].
  - apply HFuncLit; apply IH.
  - apply HOther. revert l. fix IHl 1.
    intros [|c l]; constructor; [apply IH | apply IHl].
Qed.

End NodeInduction.

Section InspectFacts.
Import Ast.

Variable S : Type.
Variable f : Node -> S -> bool * S.
Variable R : S -> S -> Prop.
Hypothesis R_trans : forall a b c, R a b -> R b c -> R a c.

(** A state reached from [s] stays reached after one more subtree, an
    optional one, or a list of them. *)
Lemma Inspect_after (c : Node) (s x : S) :
  R s x -> (forall s', R s' (Inspect f c s')) -> R s (Inspect f c x).
Proof. intros Hx Hc. exact (R_trans _ _ _ Hx (Hc x)). Qed.

Lemma Inspect_after_opt (o : option Node) (s x : S) :
  R s x -> (forall c, o = Some c -> forall s', R s' (Inspect f c s')) ->
  R s (match o with Some c => Inspect f c x | None => x end).
Proof.
  intros Hx Ho. destruct o as [c|]; [|exact Hx].
  exact (R_trans _ _ _ Hx (Ho c eq_refl x)).
Qed.

Lemma Inspect_after_list (l : list Node) (s x : S) :
  R s x -> Forall (fun c => forall s', R s' (Inspect f c s')) l ->
  R s ((fix walkList (l : list Node) (s : S) {struct l} : S :=
          match l with
          | [] => s
          | c :: l' => walkList l' (Inspect f c s)
          end) l x).
Proof.
  intros Hx Hl. revert x Hx. induction Hl as [|c l Hc Hl IH]; intros x Hx.
  - exact Hx.
  - apply IH. exact (R_trans _ _ _ Hx (Hc x)).
Qed.

End InspectFacts.

Section ScopeFacts.
Import Ast Scope.

(** The visitor of [findBlockScopesAtLine] only appends frames. *)
Lemma scopeVisitor_appends (t : Z) (n : Node) (scopes : list string) :
  exists more, snd (scopeVisitor t n scopes) = scopes ++ more.
Proof.
  unfold scopeVisitor.
  destruct ((t <? startLine n) || (endLine n <? t));
    [exists []; simpl; now rewrite app_nil_r|].
  cbv zeta. cbn [snd].
  destruct n;
    try (exists []; now rewrite app_nil_r);
    match goal with
    | |- context [if ?c then _ else _] =>
        destruct c; [eexists; reflexivity | exists []; now rewrite app_nil_r]
    end.
Qed.

Lemma findBlockScopes_appends (t : Z) (n : Node) :
  forall scopes, exists more, Inspect (scopeVisitor t) n scopes = scopes ++ more.
Proof.
  set (R := fun a b : list string => exists more, b = a ++ more).
  assert (R_trans : forall a b c, R a b -> R b c -> R a c).
  { intros a b c [m1 ->] [m2 ->]. exists (m1 ++ m2). now rewrite app_assoc. }
  induction n using Node_induction; intros scopes;
    match goal with
    | |- exists more, Inspect _ ?n _ = _ =>
        pose proof (scopeVisitor_appends t n scopes) as Hv
    end;
    cbn [Inspect];
    destruct (scopeVisitor t _ scopes) as [[|] s1]; cbn [snd] in Hv; try exact Hv;
    change (R scopes s1) in Hv;
    repeat first
      [ exact Hv
      | apply (Inspect_after _ _ R R_trans)
      | apply (Inspect_after_opt _ _ R R_trans)
      | apply (Inspect_after_list _ _ R R_trans)
      | assumption ].
Qed.


Lemma samePointer_addr (x : Node) (a : nat) (s e : Z) (l : list Node) :
  samePointer x (BlockStmt a s e l) = true -> In a (blockAddrs x).
Proof.
  destruct x; simpl; try discriminate. intros H. apply Nat.eqb_eq in H.
  left. exact H.
Qed.

Lemma blockAddrs_list (l : list Node) :
  (fix many (l : list Node) : list nat :=
     match l with
     | [] => []
     | c :: l' => blockAddrs c ++ many l'
     end) l = flat_map blockAddrs l.
Proof. induction l as [|c l IH]; simpl; [reflexivity | now rewrite IH]. Qed.

(** A node none of whose blocks has the address of [block] is not a
    construct with [block] as body. *)
Lemma isBodyOf_fresh (a : nat) (s e : Z) (l : list Node) (n : Node) :
  ~ In a (blockAddrs n) -> isBodyOf (BlockStmt a s e l) n = false.
Proof.
  intros Hn. destruct (isBodyOf (BlockStmt a s e l) n) eqn:E; [|reflexivity].
  exfalso. apply Hn. clear Hn.
  destruct n as [s0 e0 init cond body els | s0 e0 init cond post body
                | s0 e0 key value x body | s0 e0 init tag body
                | s0 e0 init assign body | s0 e0 body | a0 s0 e0 l0 | s0 e0 l0 body
                | s0 e0 comm body | s0 e0 ty body | s0 e0 l0];
    cbn [isBodyOf] in E; try discriminate E; cbn [blockAddrs];
    rewrite ?blockAddrs_list, ?in_app_iff.
  - apply orb_true_iff in E. destruct E as [E|E].
    + apply samePointer_addr in E. auto.
    + destruct els as [c|]; [|discriminate]. apply samePointer_addr in E. auto.
  - apply samePointer_addr in E. auto 6.
  - apply samePointer_addr in E. auto 6.
  - apply samePointer_addr in E. auto.
  - apply samePointer_addr in E. auto.
  - apply samePointer_addr in E. auto.
  - right. apply existsb_exists in E. destruct E as (c & Hc & E).
    apply samePointer_addr in E. apply in_flat_map. eauto.
  - right. apply existsb_exists in E. destruct E as (c & Hc & E).
    apply samePointer_addr in E. apply in_flat_map. eauto.
  - apply samePointer_addr in E. auto.
Qed.

(** Searching a tree without the address of [block] leaves the flag. *)
Lemma isPartOfConstruct_below (a : nat) (s e : Z) (l : list Node) (n : Node) :
  ~ In a (blockAddrs n) ->
  forall isPart : bool,
    Inspect (fun (n : Node) (isPart : bool) =>
               if isBodyOf (BlockStmt a s e l) n then (false, true)
               else (true, isPart)) n isPart = isPart.
Proof.
  set (g := fun (n : Node) (isPart : bool) =>
              if isBodyOf (BlockStmt a s e l) n then (false, true)
              else (true, isPart)).
  assert (R_trans : forall x y z : bool, y = x -> z = y -> z = x) by congruence.
  induction n using Node_induction; intros Hn isPart;
    cbn [Inspect]; unfold g at 1; rewrite (isBodyOf_fresh _ _ _ _ _ Hn);
    cbn [blockAddrs] in Hn; rewrite ?blockAddrs_list, ?in_app_iff in Hn;
    fold g.
  - rewrite IHn1, IHn2 by tauto.
    destruct init as [c|], els as [c'|]; cbn [blockAddrs] in *;
      rewrite ?(H c eq_refl), ?(H0 c' eq_refl) by tauto;
      repeat match goal with
             | Hc : forall c, Some ?x = Some c -> _ |- _ =>
                 rewrite (Hc x eq_refl) by tauto
             end; reflexivity.
  - rewrite IHn by tauto.
    destruct init as [c1|], cond as [c2|], post as [c3|]; cbn [blockAddrs] in *;
      repeat match goal with
             | Hc : forall c, Some ?x = Some c -> _ |- _ =>
                 rewrite (Hc x eq_refl) by tauto
             end; reflexivity.
  - rewrite IHn2, IHn1 by tauto.
    destruct key as [c1|], value as [c2|]; cbn [blockAddrs] in *;
      repeat match goal with
             | Hc : forall c, Some ?x = Some c -> _ |- _ =>
                 rewrite (Hc x eq_refl) by tauto
             end; reflexivity.
  - rewrite IHn by tauto.
    destruct init as [c1|], tag as [c2|]; cbn [blockAddrs] in *;
      repeat match goal with
             | Hc : forall c, Some ?x = Some c -> _ |- _ =>
                 rewrite (Hc x eq_refl) by tauto
             end; reflexivity.
  - rewrite IHn2, IHn1 by tauto.
    destruct init as [c1|]; cbn [blockAddrs] in *;
      repeat match goal with
             | Hc : forall c, Some ?x = Some c -> _ |- _ =>
                 rewrite (Hc x eq_refl) by tauto
             end; reflexivity.
  - apply IHn. tauto.
  - simpl in Hn.
    assert (Hl : ~ In a (flat_map blockAddrs l0)) by tauto. clear Hn.
    revert isPart. induction H as [|c l' Hc Hl' IH]; intros isPart; [reflexivity|].
    cbn [flat_map] in Hl. rewrite in_app_iff in Hl.
    rewrite Hc by tauto. apply IH. tauto.
  - assert (Hl : ~ In a (flat_map blockAddrs l0)) by tauto.
    assert (Hb : ~ In a (flat_map blockAddrs body)) by tauto. clear Hn.
    assert (H1 : forall isPart,
              (fix walkList (l : list Node) (s : bool) {struct l} : bool :=
                 match l with
                 | [] => s
                 | c :: l' => walkList l' (Inspect g c s)
                 end) l0 isPart = isPart).
    { induction H as [|c l' Hc Hl' IH]; intros x; [reflexivity|].
      cbn [flat_map] in Hl. rewrite in_app_iff in Hl.
      rewrite Hc by tauto. apply IH. tauto. }
    rewrite H1. clear H1 H Hl. revert isPart.
    induction H0 as [|c l' Hc Hl' IH]; intros x; [reflexivity|].
    cbn [flat_map] in Hb. rewrite in_app_iff in Hb.
    rewrite Hc by tauto. apply IH. tauto.
  - assert (Hb : ~ In a (flat_map blockAddrs body)) by tauto.
    assert (H1 : match comm with
                 | Some c => Inspect g c isPart
                 | None => isPart
                 end = isPart).
    { destruct comm as [c|]; [|reflexivity]. apply (H c eq_refl).
      cbn [blockAddrs] in Hn. tauto. }
    rewrite H1. clear H1 H Hn. revert isPart.
    induction H0 as [|c l' Hc Hl' IH]; intros x; [reflexivity|].
    cbn [flat_map] in Hb. rewrite in_app_iff in Hb.
    rewrite Hc by tauto. apply IH. tauto.
  - rewrite IHn1, IHn2 by tauto. reflexivity.
  - assert (Hl : ~ In a (flat_map blockAddrs l0)) by tauto. clear Hn.
    revert isPart. induction H as [|c l' Hc Hl' IH]; intros isPart; [reflexivity|].
    cbn [flat_map] in Hl. rewrite in_app_iff in Hl.
    rewrite Hc by tauto. apply IH. tauto.
Qed.

(** A block whose address is not the address of a block below it: the
    search of [isPartOfConstruct], started at the block itself, finds no
    construct that owns it. *)
Lemma isPartOfConstruct_self (a : nat) (s e : Z) (l : list Node) :
  ~ In a (flat_map blockAddrs l) ->
  isPartOfConstruct (BlockStmt a s e l) (BlockStmt a s e l) = false.
Proof.
  intros Hl. unfold isPartOfConstruct. cbn [Inspect isBodyOf].
  assert (H : forall (l' : list Node) (isPart : bool),
            ~ In a (flat_map blockAddrs l') ->
            (fix walkList (l0 : list Node) (s0 : bool) {struct l0} : bool :=
               match l0 with
               | [] => s0
               | c :: l'0 =>
                   walkList l'0
                     (Inspect
                        (fun (n : Node) (isPart : bool) =>
                           if isBodyOf (BlockStmt a s e l) n then (false, true)
                           else (true, isPart)) c s0)
               end) l' isPart = isPart).
  { induction l' as [|c l' IH]; intros isPart Hl'; [reflexivity|].
    cbn [flat_map] in Hl'. rewrite in_app_iff in Hl'.
    rewrite (isPartOfConstruct_below a s e l c) by tauto.
    apply IH. tauto. }
  apply H, Hl.
Qed.

(** C3, contradicted by the code.  A block whose lines contain the target
    line gets a block frame even when it is the body of a function or of
    another construct: [isPartOfConstruct] is asked to search the block
    itself for the construct that owns it, and never finds one.  So the
    frames of a function body start with its block frame; and for
    [func f() { if x { y() } }] with the target line inside the [if], the
    builder gives block frames to the function body and to the body of the
    [if], besides the frames of the function and of the [if]. *)
Theorem block_frames_of_construct_bodies
    (a : nat) (s e : Z) (l : list Node) (targetLine : Z) :
  ~ In a (flat_map blockAddrs l) -> s <= targetLine <= e ->
  isPartOfConstruct (BlockStmt a s e l) (BlockStmt a s e l) = false /\
  (exists more : list string,
     findBlockScopesAtLine (BlockStmt a s e l) targetLine
     = frame "block" s e :: more) /\
  buildScopeHierarchyAtLine Sample.fileWithIf 4
  = Some ["package p"; "function f (lines 2-6)"; "block (lines 2-6)";
          "if (lines 3-5)"; "block (lines 3-5)"].
Proof.
  intros Hl Ht. pose proof (isPartOfConstruct_self a s e l Hl) as Hself.
  split; [exact Hself|]. split; [|vm_compute; reflexivity].
  unfold findBlockScopesAtLine. cbn [Inspect].
  unfold scopeVisitor at 1. cbn [startLine endLine]. rewrite Hself.
  destruct (targetLine <? s) eqn:E1; [apply Z.ltb_lt in E1; lia|].
  destruct (e <? targetLine) eqn:E2; [apply Z.ltb_lt in E2; lia|].
  destruct (s <=? targetLine) eqn:E3; [|apply Z.leb_gt in E3; lia].
  destruct (targetLine <=? e) eqn:E4; [|apply Z.leb_gt in E4; lia].
  cbn [orb andb negb app].
  set (R := fun x y : list string => exists more, y = x ++ more).
  assert (R_trans : forall x y z, R x y -> R y z -> R x z).
  { intros x y z [m1 ->] [m2 ->]. exists (m1 ++ m2). now rewrite app_assoc. }
  assert (H : R [frame "block" s e]
                ((fix walkList (l0 : list Node) (s0 : list string) {struct l0}
                    : list string :=
                    match l0 with
                    | [] => s0
                    | c :: l' => walkList l' (Inspect (scopeVisitor targetLine) c s0)
                    end) l [frame "block" s e])).
  { apply (Inspect_after_list _ _ R R_trans).
    - exists []. reflexivity.
    - apply Forall_forall. intros c _ s'. apply findBlockScopes_appends. }
  destruct H as [more Hmore]. exists more. exact Hmore.
Qed.

Lemma block_frames_of_construct_bodies_witness :
  exists more : list string,
    findBlockScopesAtLine
      (BlockStmt 1 2 6
         [IfStmt 3 5 None (Other 3 3 [])
            (BlockStmt 2 3 5 [Other 4 4 [Other 4 4 [Other 4 4 []]]]) None]) 4
    = frame "block" 2 6 :: more.
Proof.
  apply (proj1 (proj2 (block_frames_of_construct_bodies 1 2 6
           [IfStmt 3 5 None (Other 3 3 [])
              (BlockStmt 2 3 5 [Other 4 4 [Other 4 4 [Other 4 4 []]]]) None] 4
           ltac:(simpl; intros [H|[]]; discriminate H) ltac:(lia)))).
Defined.

End ScopeFacts.

(** ** Rename *)
Section RenameFacts.
Import World Run Gopls.

Lemma eqb_neq_empty (s : string) : s <> "" -> String.eqb s "" = false.
Proof. intros H. apply String.eqb_neq. exact H. Qed.

(** C7. Renaming a symbol to the name it already has (file path and names
    not empty, line number positive) returns the confirmation message
    without error and leaves the state as it is: no call leaves the
    process, so gopls is not run and no file is examined or read. *)
Theorem rename_to_same_name
    (w : World.t) (filePath : string) (lineNumber : Z) (name : string)
    (st : State) :
  filePath <> "" -> 0 < lineNumber -> name <> "" ->
  Rename w filePath lineNumber name name st
  = (inl ("Symbol '" +:+ name +:+ "' already has the desired name"), st).
Proof.
  intros Hf Hl Hn. unfold Rename.
  rewrite (eqb_neq_empty _ Hf), (eqb_neq_empty _ Hn), String.eqb_refl.
  destruct (lineNumber <=? 0) eqn:E; [apply Z.leb_le in E; lia|]. reflexivity.
Qed.

Lemma rename_to_same_name_witness :
  Rename Sample.bare "/w/main.go" 12 "Person" "Person" Cache.initial
  = (inl "Symbol 'Person' already has the desired name", Cache.initial).
Proof.
  apply (rename_to_same_name Sample.bare "/w/main.go" 12 "Person" Cache.initial).
  - discriminate.
  - lia.
  - discriminate.
Defined.

End RenameFacts.

(** ** The monad *)
Section MonadFacts.
Import Run.

Lemma bind_run {A B : Type} (m : M A) (k : A -> M B) (st : State) :
  bind m k st = k (fst (m st)) (snd (m st)).
Proof. unfold bind. destruct (m st). reflexivity. Qed.

Lemma ret_run {A : Type} (a : A) (st : State) : ret a st = (a, st).
Proof. reflexivity. Qed.

End MonadFacts.

(** ** Whole-file inspection and visibility *)
Section VisibilityFacts.
Import Ast World Run Format.

Lemma callsOf_app (a b : list Out) : callsOf (a ++ b) = callsOf a ++ callsOf b.
Proof. unfold callsOf. apply flat_map_app. Qed.

Lemma callsOf_separator (s : list Out * bool) :
  callsOf (fst (addFileSeparator s)) = callsOf (fst s).
Proof.
  destruct s as [out [|]]; simpl; [|reflexivity].
  rewrite callsOf_app. simpl. apply app_nil_r.
Qed.

(** A loop whose body adds the calls [shown a] for the element [a] adds
    the calls of all the elements, in order. *)
Lemma forEach_calls {A : Type} (l : list A)
    (body : A -> list Out * bool -> M (list Out * bool))
    (shown : A -> list Writer) :
  (forall a s st,
     callsOf (fst (fst (body a s st))) = callsOf (fst s) ++ shown a) ->
  forall s st,
    callsOf (fst (fst (forEach l body s st))) = callsOf (fst s) ++ flat_map shown l.
Proof.
  intros Hbody. induction l as [|a l IH]; intros s st.
  - simpl. symmetry. apply app_nil_r.
  - cbn [forEach flat_map]. rewrite bind_run, IH, Hbody. symmetry. apply app_assoc.
Qed.

Lemma add_call_calls (s : list Out * bool) (who : Writer) (m : M (list Out))
    (st : State) :
  callsOf (fst (fst
    ((let '(out, lineWritten) := addFileSeparator s in
      bind m (fun o => ret (out ++ [Call who o], lineWritten))) st)))
  = callsOf (fst s) ++ [who].
Proof.
  pose proof (callsOf_separator s) as Hs.
  destruct (addFileSeparator s) as [out lw]. rewrite bind_run. simpl.
  rewrite callsOf_app. simpl in *. now rewrite Hs.
Qed.

(** Without its scope section [formatVariable] returns. *)
Lemma formatVariable_without_scope (w : World.t) (vs : ValueSpec) (r : bool)
    (parent : option GenDecl) (ws : string) (st : State) :
  exists o : list Out, fst (formatVariable w vs r false parent ws st) = Some o.
Proof.
  unfold formatVariable. rewrite !bind_run. cbn [fst snd ret].
  rewrite bind_run. eexists. reflexivity.
Qed.

(** The calls of declaration formatters in the output of [formatFile] are
    those of the declarations shown. *)
Lemma formatFile_calls (w : World.t) (file : File)
    (includePrivate includeImports : bool) (ws : string) (st : State) :
  callsOf (fst (formatFile w file includePrivate includeImports ws st))
  = shownDecls w includePrivate (f_Decls file).
Proof.
  unfold formatFile.
  set (s0 := match f_Pos file with
             | Some pos => _ | None => _ end).
  set (s1 := match f_Doc file with Some text => _ | None => _ end).
  assert (H1 : callsOf (fst s1) = []).
  { subst s1 s0. destruct (f_Pos file), (f_Doc file); reflexivity. }
  rewrite bind_run.
  match goal with
  | |- context [(if includeImports then ?a else ?b) st] =>
      set (m := (if includeImports then a else b) st)
  end.
  assert (H2 : callsOf (fst (fst m)) = []).
  { subst m. destruct includeImports; [|exact H1].
    rewrite bind_run. destruct (fst (collectImports w (f_Decls file) st)) as [|i l];
      [exact H1|].
    pose proof (callsOf_separator s1) as Hs.
    destruct (addFileSeparator s1) as [out lw]. simpl in *.
    rewrite !callsOf_app, Hs, H1. simpl.
    induction l as [|x xs IH]; [reflexivity | exact IH]. }
  rewrite bind_run. simpl.
  rewrite (forEach_calls (f_Decls file) _
             (fun decl =>
                match decl with
                | FuncDeclNode d =>
                    if includePrivate || IsExported w (fn_Name d)
                    then [WFunction d] else []
                | GenDeclNode g => shownSpecs w includePrivate (gd_Specs g)
                | BadDecl => []
                end)).
  - now rewrite H2.
  - intros decl s st'. destruct decl as [d|g|].
    + destruct (includePrivate || IsExported w (fn_Name d)).
      * apply add_call_calls.
      * simpl. symmetry. apply app_nil_r.
    + apply (forEach_calls (gd_Specs g) _
               (fun spec =>
                  match spec with
                  | ImportSpec _ _ => []
                  | TypeSpecNode ts =>
                      if includePrivate || IsExported w (ts_Name ts)
                      then [WType ts] else []
                  | ValueSpecNode vs =>
                      if includePrivate || existsb (IsExported w) (vs_Names vs)
                      then [WVariable vs] else []
                  end)).
      intros spec s' st''. destruct spec as [a b|ts|vs].
      * simpl. symmetry. apply app_nil_r.
      * destruct (includePrivate || IsExported w (ts_Name ts)).
        -- apply add_call_calls.
        -- simpl. symmetry. apply app_nil_r.
      * cbv zeta.
        destruct (includePrivate || existsb (IsExported w) (vs_Names vs)).
        -- pose proof (callsOf_separator s') as Hs.
           destruct (addFileSeparator s') as [out lw]. rewrite bind_run.
           destruct (formatVariable_without_scope w vs false (Some g) ws st'')
             as [o Ho].
           rewrite Ho. simpl. rewrite callsOf_app. simpl in *. now rewrite Hs.
        -- simpl. symmetry. apply app_nil_r.
    + simpl. symmetry. apply app_nil_r.
Qed.

Lemma In_shownSpecs (w : World.t) (includePrivate : bool) (specs : list Spec)
    (who : Writer) :
  In who (shownSpecs w includePrivate specs) <->
  (exists ts, In (TypeSpecNode ts) specs /\ who = WType ts /\
              includePrivate || IsExported w (ts_Name ts) = true) \/
  (exists vs, In (ValueSpecNode vs) specs /\ who = WVariable vs /\
              includePrivate || existsb (IsExported w) (vs_Names vs) = true).
Proof.
  unfold shownSpecs. rewrite in_flat_map. split.
  - intros (spec & Hin & Hwho). destruct spec as [a b|ts|vs]; [destruct Hwho| |].
    + destruct (includePrivate || IsExported w (ts_Name ts)) eqn:E;
        [|destruct Hwho].
      destruct Hwho as [<-|[]]. left. exists ts. auto.
    + destruct (includePrivate || existsb (IsExported w) (vs_Names vs)) eqn:E;
        [|destruct Hwho].
      destruct Hwho as [<-|[]]. right. exists vs. auto.
  - intros [(ts & Hin & -> & E) | (vs & Hin & -> & E)].
    + exists (TypeSpecNode ts). split; [exact Hin|]. rewrite E. now left.
    + exists (ValueSpecNode vs). split; [exact Hin|]. rewrite E. now left.
Qed.

Lemma In_shownDecls (w : World.t) (includePrivate : bool) (decls : list Decl)
    (who : Writer) :
  In who (shownDecls w includePrivate decls) <->
  (exists d, In (FuncDeclNode d) decls /\ who = WFunction d /\
             includePrivate || IsExported w (fn_Name d) = true) \/
  (exists g, In (GenDeclNode g) decls /\
             In who (shownSpecs w includePrivate (gd_Specs g))).
Proof.
  unfold shownDecls. rewrite in_flat_map. split.
  - intros (decl & Hin & Hwho). destruct decl as [d|g|]; [| |destruct Hwho].
    + destruct (includePrivate || IsExported w (fn_Name d)) eqn:E;
        [|destruct Hwho].
      destruct Hwho as [<-|[]]. left. exists d. auto.
    + right. exists g. auto.
  - intros [(d & Hin & -> & E) | (g & Hin & Hwho)].
    + exists (FuncDeclNode d). split; [exact Hin|]. rewrite E. now left.
    + exists (GenDeclNode g). auto.
Qed.

(** A public-only inspection of the file [/w/v.go] of the examples. *)
Example inspect_public_only :
  fst (Inspect Sample.vWorld "/w/v.go" 0 "" false "/w" Cache.initial)
  = Some (inl (GoString.Join
                 ["File: /w/v.go"; "";
                  "Lines: 3"; "Code:"; "func Exported() {}"; "";
                  "Lines: 7"; "Code:"; "var hidden, Shown int"; "";
                  "Lines: 9-11"; "Code:"; "type Point struct {"; "    X int";
                  "}"]
                 GoString.nl)).
Proof. vm_compute. reflexivity. Qed.

(** C8, as stated, fails: the private name [hidden] shares its spec with the
    public [Shown], and the spec is shown. *)
Lemma public_only_iff_public_fails : ~ public_only_iff_public.
Proof.
  intros H.
  specialize (H Sample.bare Sample.visibilityFile false "/w" Cache.initial
                "hidden" (WVariable Sample.varHiddenShown)).
  assert (Hd : declares Sample.visibilityFile "hidden"
                 (WVariable Sample.varHiddenShown)).
  { right. right. eexists. exists Sample.varHiddenShown.
    split; [simpl; right; right; left; reflexivity|].
    split; [left; reflexivity|]. split; [left; reflexivity | reflexivity]. }
  destruct (H Hd) as [Hfwd _].
  assert (Hin : included (WVariable Sample.varHiddenShown)
                  (fst (formatFile Sample.bare Sample.visibilityFile false false
                          "/w" Cache.initial))).
  { unfold included. rewrite formatFile_calls. simpl. right. left. reflexivity. }
  specialize (Hfwd Hin). discriminate Hfwd.
Qed.

(** C8 (amended). In a whole-file inspection a function, method or type
    declaration is included exactly when private declarations are asked for
    or its name is public (its first character an upper-case letter); a
    [var] or [const] spec is included exactly when private declarations are
    asked for or at least one of the names it declares is public, private
    names of the same spec being shown with it.  With the functions
    [Exported] and [unexported] in one file, a public-only inspection includes
    the first and not the second, and an inspection with private
    declarations includes both. *)
Theorem file_inspection_visibility
    (w : World.t) (file : File) (includePrivate includeImports : bool)
    (ws : string) (st : State) :
  (forall d, In (FuncDeclNode d) (f_Decls file) ->
     (included (WFunction d)
        (fst (formatFile w file includePrivate includeImports ws st))
      <-> includePrivate = true \/ IsExported w (fn_Name d) = true)) /\
  (forall g ts, In (GenDeclNode g) (f_Decls file) ->
     In (TypeSpecNode ts) (gd_Specs g) ->
     (included (WType ts)
        (fst (formatFile w file includePrivate includeImports ws st))
      <-> includePrivate = true \/ IsExported w (ts_Name ts) = true)) /\
  (forall g vs, In (GenDeclNode g) (f_Decls file) ->
     In (ValueSpecNode vs) (gd_Specs g) ->
     (included (WVariable vs)
        (fst (formatFile w file includePrivate includeImports ws st))
      <-> includePrivate = true \/
          exists name, In name (vs_Names vs) /\ IsExported w name = true)) /\
  (forall (c : ascii) (rest : string),
     GoString.rune c < 128 ->
     (IsExported w (String c rest) = true <-> 65 <= GoString.rune c <= 90)) /\
  (included (WFunction Sample.fnExported)
     (fst (formatFile w Sample.visibilityFile false includeImports ws st)) /\
   ~ included (WFunction Sample.fnUnexported)
       (fst (formatFile w Sample.visibilityFile false includeImports ws st)) /\
   included (WFunction Sample.fnExported)
     (fst (formatFile w Sample.visibilityFile true includeImports ws st)) /\
   included (WFunction Sample.fnUnexported)
     (fst (formatFile w Sample.visibilityFile true includeImports ws st))).
Proof.
  unfold included. rewrite !formatFile_calls.
  split; [|split; [|split; [|split]]].
  - intros d Hd. rewrite In_shownDecls, <- orb_true_iff. split.
    + intros [(d' & _ & Heq & E) | (g & _ & Hs)].
      * injection Heq as <-. exact E.
      * apply In_shownSpecs in Hs.
        destruct Hs as [(ts & _ & Heq & _) | (vs & _ & Heq & _)]; discriminate.
    + intros E. left. exists d. auto.
  - intros g ts Hg Hts. rewrite In_shownDecls, <- orb_true_iff. split.
    + intros [(d' & _ & Heq & _) | (g' & _ & Hs)]; [discriminate|].
      apply In_shownSpecs in Hs.
      destruct Hs as [(ts' & _ & Heq & E) | (vs & _ & Heq & _)]; [|discriminate].
      injection Heq as <-. exact E.
    + intros E. right. exists g. split; [exact Hg|]. apply In_shownSpecs.
      left. exists ts. auto.
  - intros g vs Hg Hvs.
    assert (Hex : includePrivate || existsb (IsExported w) (vs_Names vs) = true
                  <-> includePrivate = true \/
                      exists name, In name (vs_Names vs) /\ IsExported w name = true).
    { rewrite orb_true_iff, existsb_exists. reflexivity. }
    rewrite <- Hex, In_shownDecls. split.
    + intros [(d' & _ & Heq & _) | (g' & _ & Hs)]; [discriminate|].
      apply In_shownSpecs in Hs.
      destruct Hs as [(ts' & _ & Heq & _) | (vs' & _ & Heq & E)]; [discriminate|].
      injection Heq as <-. exact E.
    + intros E. right. exists g. split; [exact Hg|]. apply In_shownSpecs.
      right. exists vs. auto.
  - intros c rest Hc. unfold IsExported.
    destruct (GoString.rune c <? 128) eqn:E; [|apply Z.ltb_ge in E; lia].
    rewrite andb_true_iff, !Z.leb_le. reflexivity.
  - simpl. repeat split.
    + left. reflexivity.
    + intros [H|[H|[H|[]]]]; discriminate H.
    + left. reflexivity.
    + right. left. reflexivity.
Qed.

Lemma file_inspection_visibility_witness :
  included (WVariable Sample.varHiddenShown)
    (fst (formatFile Sample.bare Sample.visibilityFile false true "/w"
            Cache.initial))
  <-> false = true \/
      exists name, In name (vs_Names Sample.varHiddenShown) /\
                   IsExported Sample.bare name = true.
Proof.
  apply (proj1 (proj2 (proj2 (file_inspection_visibility Sample.bare
           Sample.visibilityFile false true "/w" Cache.initial)))
           {| gd_Tok := VAR; gd_Doc := None;
              gd_Specs := [ValueSpecNode Sample.varHiddenShown] |}).
  - simpl. right. right. left. reflexivity.
  - simpl. left. reflexivity.
Defined.

End VisibilityFacts.

(** ** Sections and the workspace *)
Section WorkspaceFacts.
Import Ast World Run Format.











End WorkspaceFacts.

(** ** Failures of the external collaborator *)
Section CollaboratorFacts.
Import Ast World Run Gopls Format.












(** *** The answers of the cache *)

Lemma sameStore_sym (a b : State) : sameStore a b -> sameStore b a.
Proof. intros [H1 H2]. split; congruence. Qed.





(** What [GetOrParseFile] returns depends on the state through the cache
    only. *)
Lemma GetOrParseFile_sameStore (w : World.t) (p : string) (st st' : State) :
  sameStore st st' ->
  fst (Cache.GetOrParseFile w p st) = fst (Cache.GetOrParseFile w p st').
Proof.
  intros [Hf Hn].
  unfold Cache.GetOrParseFile, bind, ret, lookupFile, os_Stat, os_ReadFile, emit,
    newCachedFile, storeFile. simpl. rewrite <- Hf.
  destruct (files st !! p) as [c|]; simpl.
  - destruct (stat w p) as [now|b m]; simpl.
    + destruct (negb (Cache.After now (cf_modTime c))); simpl; [reflexivity|].
      destruct (readFile w p) as [src|e]; simpl; [|reflexivity].
      destruct (pr_err (parse w p src)) as [[m|m]|]; simpl; try reflexivity;
        destruct (pr_file (parse w p src)); simpl; try reflexivity;
        now rewrite Hn.
    + destruct (readFile w p) as [src|e]; simpl; [|reflexivity].
      destruct (pr_err (parse w p src)) as [[m'|m']|]; simpl; try reflexivity;
        destruct (pr_file (parse w p src)); reflexivity.
  - destruct (readFile w p) as [src|e]; simpl; [|reflexivity].
    destruct (pr_err (parse w p src)) as [[m|m]|]; simpl; try reflexivity;
      destruct (pr_file (parse w p src)); simpl; try reflexivity;
      destruct (stat w p); simpl; try reflexivity; now rewrite Hn.
Qed.




(** *** What the declaration formatters write around the sections *)
















(** *** What [Inspect] returns *)












(** An inspection of the function [Exported] where gopls cannot be run, and
    one where gopls answers the call hierarchy and fails on the references:
    the section that failed holds the error, the rest is there. *)
Example inspect_with_failing_gopls :
  fst (Inspect Sample.vWorld "/w/v.go" 0 "Exported" true "/w" Cache.initial)
  = Some (inl (GoString.Join
                 ["Lines: 3"; "Code:"; "func Exported() {}"; "";
                  "References:";
                  "gopls references failed: gopls command failed: "
                  +:+ "exec: gopls: executable file not found in $PATH";
                  "No references found"; ""; "";
                  "Call Hierarchy:";
                  "gopls call_hierarchy failed: gopls command failed: "
                  +:+ "exec: gopls: executable file not found in $PATH";
                  ""]
                 GoString.nl)) /\
  fst (Inspect Sample.callsOnlyWorld "/w/v.go" 0 "Exported" true "/w"
         Cache.initial)
  = Some (inl (GoString.Join
                 ["Lines: 3"; "Code:"; "func Exported() {}"; "";
                  "References:";
                  "gopls references failed: gopls command failed: "
                  +:+ "exit status 2 (gopls: no package metadata)";
                  "No references found"; ""; "";
                  "Call Hierarchy:";
                  "identifier: function Exported in /w/v.go:3:6-14";
                  ""]
                 GoString.nl)).
Proof. split; vm_compute; reflexivity. Qed.



End CollaboratorFacts.

(** ** Repeating an inspection *)
Section RepeatFacts.
Import Ast World Run Gopls Format Repeat.











End RepeatFacts.

(** * Further properties of the code *)

(** ** Splitting and joining texts, numerals *)
Section TextFacts.
Import GoString GoLib.

Lemma splitOn_nonempty (sep : ascii) (s : string) : splitOn sep s <> [].
Proof.
  induction s as [|c s IH]; simpl; [discriminate|].
  destruct (Ascii.eqb c sep); [discriminate|].
  destruct (splitOn sep s); discriminate.
Qed.

Lemma Join_cons (e : string) (rest : list string) (sep : string) :
  rest <> [] -> Join (e :: rest) sep = e +:+ sep +:+ Join rest sep.
Proof. destruct rest; [congruence | reflexivity]. Qed.

(** [strings.Join(strings.Split(s, sep), sep) == s] *)
Lemma Join_splitOn (sep : ascii) (s : string) :
  Join (splitOn sep s) (String sep "") = s.
Proof.
  induction s as [|c s IH]; [reflexivity|].
  cbn [splitOn]. destruct (Ascii.eqb_spec c sep) as [->|_].
  - rewrite Join_cons by apply splitOn_nonempty. rewrite IH. reflexivity.
  - pose proof (splitOn_nonempty sep s) as Hne.
    destruct (splitOn sep s) as [|piece pieces]; [congruence|].
    destruct pieces as [|p ps].
    + simpl in *. now rewrite IH.
    + rewrite Join_cons by discriminate. rewrite Join_cons in IH by discriminate.
      rewrite app_String. now rewrite IH.
Qed.

(** Splitting a text at a separator splits its two sides. *)
Lemma splitOn_app (sep : ascii) (a b : string) :
  splitOn sep (a +:+ String sep b) = splitOn sep a ++ splitOn sep b.
Proof.
  induction a as [|c a IH].
  - rewrite app_Empty. cbn [splitOn]. now rewrite Ascii.eqb_refl.
  - rewrite app_String. cbn [splitOn]. rewrite IH.
    destruct (Ascii.eqb c sep); [reflexivity|].
    pose proof (splitOn_nonempty sep a) as Hne.
    destruct (splitOn sep a); [congruence | reflexivity].
Qed.

Lemma Contains_cons (c : ascii) (s : string) (sep : ascii) :
  Contains (String c s) (String sep "") = Ascii.eqb sep c || Contains s (String sep "").
Proof.
  cbn [Contains String.prefix].
  destruct (ascii_dec sep c) as [->|Hne].
  - rewrite Ascii.eqb_refl. destruct s; reflexivity.
  - destruct (Ascii.eqb_spec sep c); [congruence | reflexivity].
Qed.

Lemma Contains_nil (sep : ascii) : Contains "" (String sep "") = false.
Proof. reflexivity. Qed.

(** A text without the separator is one piece. *)
Lemma splitOn_none (sep : ascii) (s : string) :
  Contains s (String sep "") = false -> splitOn sep s = [s].
Proof.
  induction s as [|c s IH]; intros H; [reflexivity|].
  rewrite Contains_cons in H. apply orb_false_elim in H as [Hc Hs].
  cbn [splitOn]. rewrite Ascii.eqb_sym, Hc. now rewrite (IH Hs).
Qed.

End TextFacts.
Section NumberFacts.
Import GoString GoLib.

Lemma digitsValue_acc (d : Decimal.uint) (acc : positive) :
  digitsValue (NilEmpty.string_of_uint d) (Z.pos acc)
  = Some (Z.pos (Pos.of_uint_acc d acc)).
Proof.
  revert acc. induction d; intros acc; cbn [NilEmpty.string_of_uint digitsValue];
    [reflexivity | ..];
    match goal with
    | |- context [rune ?c - 48] =>
        let v := eval vm_compute in (rune c - 48) in
        change (rune c - 48) with v
    end;
    cbn [Z.leb Z.compare andb Pos.compare Pos.compare_cont];
    cbn [Pos.of_uint_acc]; rewrite <- IHd; f_equal; lia.
Qed.

Lemma digitsValue_uint (d : Decimal.uint) :
  digitsValue (NilEmpty.string_of_uint d) 0 = Some (Z.of_N (Pos.of_uint d)).
Proof.
  induction d; cbn [NilEmpty.string_of_uint digitsValue];
    [reflexivity | ..];
    match goal with
    | |- context [rune ?c - 48] =>
        let v := eval vm_compute in (rune c - 48) in
        change (rune c - 48) with v
    end;
    cbn [Z.leb Z.compare andb Pos.compare Pos.compare_cont Z.mul Z.add];
    [exact IHd | ..];
    match goal with
    | |- digitsValue _ ?a = _ =>
        let v := eval vm_compute in a in change a with v
    end;
    rewrite digitsValue_acc; reflexivity.
Qed.

(** The numeral of a positive number starts with a digit. *)
Lemma string_of_uint_head (d : Decimal.uint) :
  d <> Decimal.Nil ->
  exists c rest, NilEmpty.string_of_uint d = String c rest /\
                 c <> "-"%char /\ c <> "+"%char.
Proof.
  intros Hd. destruct d; [congruence | ..]; cbn [NilEmpty.string_of_uint];
    eexists; eexists; (split; [reflexivity | split; discriminate]).
Qed.

(** [strconv.Atoi(fmt.Sprintf("%d", z)) == z] for an [int]. *)
Lemma Atoi_itoa (z : Z) : isInt z = true -> Atoi (itoa z) = Some z.
Proof.
  unfold isInt. intros Hz. unfold Atoi, itoa.
  destruct z as [|p|p]; cbn [Z.to_int NilEmpty.string_of_int].
  - reflexivity.
  - destruct (string_of_uint_head (Pos.to_uint p)) as (c & rest & Hs & Hm & Hp);
      [apply DecimalPos.Unsigned.to_uint_nonnil|].
    pose proof (digitsValue_uint (Pos.to_uint p)) as Hv.
    rewrite DecimalPos.Unsigned.of_to in Hv. rewrite Hs in *.
    assert (Hgen : match (match String c rest with
                          | String "-" t =>
                              option_map Z.opp
                                (match t with "" => None | _ => digitsValue t 0 end)
                          | String "+" t =>
                              match t with "" => None | _ => digitsValue t 0 end
                          | _ => digitsValue (String c rest) 0
                          end) with
                   | Some z => if (- 2 ^ 63 <=? z) && (z <? 2 ^ 63) then Some z else None
                   | None => None
                   end = Some (Z.pos p)).
    { destruct c as [[|] [|] [|] [|] [|] [|] [|] [|]];
        try congruence; rewrite Hv; simpl Z.of_N; now rewrite Hz. }
    exact Hgen.
  - pose proof (digitsValue_uint (Pos.to_uint p)) as Hv.
    rewrite DecimalPos.Unsigned.of_to in Hv.
    pose proof (DecimalPos.Unsigned.to_uint_nonnil p) as Hne.
    destruct (NilEmpty.string_of_uint (Pos.to_uint p)) eqn:Hs.
    + destruct (Pos.to_uint p); try congruence; discriminate Hs.
    + rewrite Hv. simpl option_map. change (- Z.pos p) with (Z.neg p).
      cbv beta iota. now rewrite Hz.
Qed.

Lemma string_of_uint_no_colon (d : Decimal.uint) :
  Contains (NilEmpty.string_of_uint d) ":" = false.
Proof.
  induction d; cbn [NilEmpty.string_of_uint]; [reflexivity | ..];
    rewrite Contains_cons; rewrite IHd; reflexivity.
Qed.

(** A numeral holds no colon. *)
Lemma itoa_no_colon (z : Z) : Contains (itoa z) ":" = false.
Proof.
  unfold itoa. destruct z; cbn [Z.to_int NilEmpty.string_of_int];
    first [ apply string_of_uint_no_colon
          | rewrite Contains_cons, string_of_uint_no_colon; reflexivity ].
Qed.

End NumberFacts.
Section LocationFacts.
Import GoString GoLib Format.

Lemma colon_app (s : string) : ":" +:+ s = String colon s.
Proof. reflexivity. Qed.

(** The pieces of a split hold no separator. *)
Lemma splitOn_pieces (sep : ascii) (s : string) :
  Forall (fun piece => Contains piece (String sep "") = false) (splitOn sep s).
Proof.
  induction s as [|c s IH]; cbn [splitOn]; [repeat constructor|].
  destruct (Ascii.eqb_spec c sep) as [->|Hne].
  - constructor; [reflexivity | exact IH].
  - pose proof (splitOn_nonempty sep s) as Hnil.
    destruct (splitOn sep s) as [|piece pieces]; [congruence|].
    inversion IH as [|? ? Hp Hps]; subst. constructor; [|exact Hps].
    rewrite Contains_cons, Hp.
    destruct (Ascii.eqb_spec sep c); [congruence | reflexivity].
Qed.

Lemma Join_app (a b : list string) (sep : string) :
  a <> [] -> b <> [] -> Join (a ++ b) sep = Join a sep +:+ sep +:+ Join b sep.
Proof.
  intros Ha Hb. induction a as [|e a IH]; [congruence|].
  destruct a as [|e' a].
  - simpl app. now rewrite Join_cons.
  - change ((e :: e' :: a) ++ b) with (e :: ((e' :: a) ++ b)).
    rewrite Join_cons by discriminate. rewrite IH by discriminate.
    rewrite (Join_cons e (e' :: a)) by discriminate.
    now rewrite !string_app_assoc.
Qed.

(** A location made of a path, a numeral and a last part is taken apart
    into the path and the number. *)
Lemma splitLocation_build (fp lineText rest : string) (ln : Z) :
  Atoi lineText = Some ln ->
  Contains lineText ":" = false -> Contains rest ":" = false ->
  splitLocation (fp +:+ ":" +:+ lineText +:+ ":" +:+ rest) = Some (fp, ln).
Proof.
  intros Hln Htext Hrest. unfold splitLocation.
  rewrite colon_app, splitOn_app, colon_app, splitOn_app.
  rewrite (splitOn_none colon lineText) by exact Htext.
  rewrite (splitOn_none colon rest) by exact Hrest.
  cbn [app]. rewrite length_app. cbn [length].
  replace (length (splitOn colon fp) + 2 - 2)%nat
    with (length (splitOn colon fp)) by lia.
  replace (length (splitOn colon fp) + 2 <? 3)%nat with false.
  2:{ symmetry. apply Nat.ltb_ge.
      pose proof (splitOn_nonempty colon fp).
      destruct (splitOn colon fp); [congruence | simpl; lia]. }
  rewrite take_app_length.
  rewrite app_nth2 by lia. rewrite Nat.sub_diag. cbn [nth].
  rewrite Hln.
  change ":" with (String colon ""). now rewrite Join_splitOn.
Qed.

Lemma splitLocation_make (fp : string) (ln : Z) (rest : string) :
  isInt ln = true -> Contains rest ":" = false ->
  splitLocation (fp +:+ ":" +:+ itoa ln +:+ ":" +:+ rest) = Some (fp, ln).
Proof.
  intros Hln Hrest.
  apply splitLocation_build; [now apply Atoi_itoa | apply itoa_no_colon | exact Hrest].
Qed.

Lemma splitLocation_parts (s fp : string) (ln : Z) :
  splitLocation s = Some (fp, ln) ->
  exists lineText rest : string,
    s = fp +:+ ":" +:+ lineText +:+ ":" +:+ rest /\
    Atoi lineText = Some ln /\
    Contains lineText ":" = false /\ Contains rest ":" = false.
Proof.
  unfold splitLocation. intros H.
  pose proof (Join_splitOn colon s) as Hjoin.
  pose proof (splitOn_pieces colon s) as Hpieces.
  set (parts := splitOn colon s) in *.
  destruct (length parts <? 3)%nat eqn:Hn; [discriminate|].
  apply Nat.ltb_ge in Hn.
  destruct (Atoi (nth (length parts - 2) parts "")) as [v|] eqn:Ha; [|discriminate].
  injection H as Hfp Hv. subst v.
  assert (Hsplit : parts = take (length parts - 2) parts
                           ++ [nth (length parts - 2) parts "";
                               nth (length parts - 1) parts ""]).
  { rewrite <- (take_drop (length parts - 2) parts) at 1. f_equal.
    assert (Hd : length (drop (length parts - 2) parts) = 2%nat)
      by (rewrite length_drop; lia).
    destruct (drop (length parts - 2) parts) as [|x [|y [|z l]]] eqn:Hdrop;
      simpl in Hd; try lia.
    assert (Hx : parts !! (length parts - 2)%nat = Some x).
    { rewrite <- (Nat.add_0_r (length parts - 2)), <- lookup_drop, Hdrop.
      reflexivity. }
    assert (Hy : parts !! (length parts - 1)%nat = Some y).
    { replace (length parts - 1)%nat with (length parts - 2 + 1)%nat by lia.
      rewrite <- lookup_drop, Hdrop. reflexivity. }
    rewrite (nth_lookup_Some _ _ _ _ Hx), (nth_lookup_Some _ _ _ _ Hy).
    reflexivity. }
  exists (nth (length parts - 2) parts ""), (nth (length parts - 1) parts "").
  split; [|split; [exact Ha|]].
  - rewrite <- Hjoin at 1. rewrite Hsplit at 1.
    change (String colon "") with ":".
    rewrite Join_app; [| |discriminate].
    + rewrite Hfp. reflexivity.
    + intros Hnil. apply (f_equal (@length string)) in Hnil.
      rewrite length_take in Hnil. simpl in Hnil. lia.
  - rewrite Forall_forall in Hpieces.
    split; apply Hpieces, list_elem_of_In, nth_In; lia.
Qed.

End LocationFacts.

(** X1. The loops over the locations gopls prints
    ([path:line:columns]) and over the scope strings
    ([path:line:function]) take a text apart into a path and a line exactly
    when the text is a path, a colon, a numeral that [strconv.Atoi] reads as
    the line, a colon, and a last part without a colon; the path may hold
    colons itself.  In particular the text made from a path, the [%d] form of
    an [int] and such a last part gives back the path and the number. *)
Theorem location_taken_apart (s fp : string) (ln : Z) :
  (Format.splitLocation s = Some (fp, ln) <->
   exists lineText rest : string,
     s = fp +:+ ":" +:+ lineText +:+ ":" +:+ rest /\
     GoString.Atoi lineText = Some ln /\
     GoLib.Contains lineText ":" = false /\ GoLib.Contains rest ":" = false) /\
  (GoLib.isInt ln = true ->
   forall rest : string,
     GoLib.Contains rest ":" = false ->
     Format.splitLocation
       (fp +:+ ":" +:+ GoString.itoa ln +:+ ":" +:+ rest) = Some (fp, ln)).
Proof.
  split; [split|].
  - apply splitLocation_parts.
  - intros (lineText & rest & -> & Ha & Ht & Hr).
    now apply splitLocation_build.
  - intros Hln rest Hrest. now apply splitLocation_make.
Qed.

Lemma location_taken_apart_witness :
  Format.splitLocation "C:/w/a.go:12:5-9" = Some ("C:/w/a.go", 12).
Proof.
  exact (proj2 (location_taken_apart "" "C:/w/a.go" 12) eq_refl "5-9" eq_refl).
Defined.

Section ReferenceScopes.
Import Ast World Run Cache GoString GoLib Format.

Lemma enclosingFunc_Some (decls : list Decl) (ln : Z) (fn : FuncDecl) :
  enclosingFunc decls ln = Some fn ->
  In (FuncDeclNode fn) decls /\ Line (fn_Pos fn) <= ln <= Line (fn_End fn).
Proof.
  induction decls as [|[d|d|] decls IH]; cbn [enclosingFunc]; intros H.
  - discriminate.
  - destruct ((Line (fn_Pos d) <=? ln) && (ln <=? Line (fn_End d))) eqn:E.
    + injection H as <-. apply andb_prop in E as [E1 E2].
      apply Z.leb_le in E1, E2. split; [now left | lia].
    + destruct (IH H) as [Hin Hr]. split; [now right | exact Hr].
  - destruct (IH H) as [Hin Hr]. split; [now right | exact Hr].
  - destruct (IH H) as [Hin Hr]. split; [now right | exact Hr].
Qed.

Lemma enclosingFunc_spanning (decls : list Decl) (ln : Z) (fn : FuncDecl) :
  In (FuncDeclNode fn) decls -> Line (fn_Pos fn) <= ln <= Line (fn_End fn) ->
  exists g, enclosingFunc decls ln = Some g.
Proof.
  induction decls as [|[d|d|] decls IH]; cbn [enclosingFunc]; intros Hin Hr.
  - destruct Hin.
  - destruct ((Line (fn_Pos d) <=? ln) && (ln <=? Line (fn_End d))) eqn:E;
      [eauto|].
    destruct Hin as [Heq|Hin]; [|now apply IH].
    injection Heq as ->. apply andb_false_iff in E as [E|E];
      [apply Z.leb_gt in E | apply Z.leb_gt in E]; lia.
  - destruct Hin as [Heq|Hin]; [discriminate | now apply IH].
  - destruct Hin as [Heq|Hin]; [discriminate | now apply IH].
Qed.

Lemma string_app_neq_self (a b : string) : b <> "" -> a +:+ b <> a.
Proof.
  intros Hb H. apply (f_equal String.length) in H.
  rewrite string_length_app in H. destruct b; [congruence | simpl in H; lia].
Qed.

(** X2. When the file of a reference parses and the line of the reference
    lies in a function, [determineScope] answers a scope string that differs
    from the path (so the reference is grouped under a function, not under
    the package), and the loop that writes the groups takes this string apart
    into the same path and the first line of the function; looking that line
    up again finds the same function, provided no other function of the file
    spans it.  When the line lies in no function the scope is the path, and
    when the file does not parse it is the path with the error. *)
Theorem function_scope_found_again
    (w : World.t) (fp : string) (ln : Z) (st : State) :
  match fst (GetOrParseFile w fp st) with
  | inr err => fst (determineScope w fp ln st) = (fp, Some err)
  | inl c =>
      match enclosingFunc (f_Decls (cf_ast c)) ln with
      | None => fst (determineScope w fp ln st) = (fp, None)
      | Some fn =>
          isInt (Line (fn_Pos fn)) = true -> Contains (fn_Name fn) ":" = false ->
          exists scope : string,
            fst (determineScope w fp ln st) = (scope, None) /\ scope <> fp /\
            splitLocation scope = Some (fp, Line (fn_Pos fn)) /\
            ((forall g, In (FuncDeclNode g) (f_Decls (cf_ast c)) ->
                        Line (fn_Pos g) <= Line (fn_Pos fn) <= Line (fn_End g) ->
                        g = fn) ->
             enclosingFunc (f_Decls (cf_ast c)) (Line (fn_Pos fn)) = Some fn)
      end
  end.
Proof.
  unfold determineScope. rewrite bind_run.
  destruct (fst (GetOrParseFile w fp st)) as [c|err]; [|reflexivity].
  destruct (enclosingFunc (f_Decls (cf_ast c)) ln) as [fn|] eqn:Hfn; [|reflexivity].
  intros Hint Hname. eexists. split; [reflexivity|]. split; [|split].
  - apply string_app_neq_self. discriminate.
  - now apply splitLocation_make.
  - intros Honly. destruct (enclosingFunc_Some _ _ _ Hfn) as [Hin Hr].
    destruct (enclosingFunc_spanning _ (Line (fn_Pos fn)) fn Hin ltac:(lia))
      as [g Hg].
    rewrite Hg. f_equal.
    destruct (enclosingFunc_Some _ _ _ Hg) as [Hing Hrg]. now apply Honly.
Qed.

Lemma function_scope_found_again_witness :
  exists scope : string,
    fst (determineScope Sample.vWorld "/w/v.go" 3 Cache.initial) = (scope, None) /\
    scope <> "/w/v.go" /\
    splitLocation scope = Some ("/w/v.go", 3).
Proof.
  destruct (function_scope_found_again Sample.vWorld "/w/v.go" 3 Cache.initial
              eq_refl eq_refl) as (scope & H1 & H2 & H3 & _).
  exists scope. auto.
Defined.

End ReferenceScopes.
Section SourceLines.
Import World Run GoString Format.

(** The loop of [readSourceLines], started at line [k] of the file. *)
Lemma collectLines_spec (s e : Z) (l : list string) :
  forall (k : Z) (acc : list string), 1 <= k ->
    collectLines s e l k acc
    = (acc ++ take (Z.to_nat (e - Z.max s k + 1)) (drop (Z.to_nat (s - k)) l),
       (0 <? Z.of_nat (length l)) && (e <? k + Z.of_nat (length l) - 1)).
Proof.
  induction l as [|text l IH]; intros k acc Hk.
  - cbn [collectLines]. rewrite drop_nil, take_nil, app_nil_r. reflexivity.
  - cbn [collectLines length].
    destruct (e <? k) eqn:Hbreak.
    + apply Z.ltb_lt in Hbreak.
      replace ((s <=? k) && (k <=? e)) with false
        by (symmetry; apply andb_false_iff; right; apply Z.leb_gt; lia).
      replace (Z.to_nat (e - Z.max s k + 1)) with 0%nat by lia.
      rewrite take_0, app_nil_r. f_equal. symmetry.
      apply andb_true_iff. split; [apply Z.ltb_lt | apply Z.ltb_lt]; lia.
    + apply Z.ltb_ge in Hbreak. rewrite IH by lia.
      f_equal.
      * destruct (s <=? k) eqn:Hs.
        -- apply Z.leb_le in Hs.
           replace (k <=? e) with true by (symmetry; apply Z.leb_le; lia).
           cbn [andb].
           replace (Z.to_nat (s - k)) with 0%nat by lia.
           replace (Z.to_nat (s - (k + 1))) with 0%nat by lia.
           rewrite !drop_0.
           replace (Z.to_nat (e - Z.max s k + 1))
             with (S (Z.to_nat (e - Z.max s (k + 1) + 1))) by lia.
           cbn [take]. now rewrite <- app_assoc.
        -- apply Z.leb_gt in Hs. cbn [andb].
           replace (Z.to_nat (s - k)) with (S (Z.to_nat (s - (k + 1)))) by lia.
           cbn [drop]. replace (Z.max s (k + 1)) with (Z.max s k) by lia.
           reflexivity.
      * destruct l as [|text' l].
        -- cbn [length]. replace (e <? k + Z.of_nat 1 - 1) with false
             by (symmetry; apply Z.ltb_ge; lia).
           now rewrite andb_false_r.
        -- replace (0 <? Z.of_nat (length (text' :: l))) with true
             by (symmetry; apply Z.ltb_lt; cbn [length]; lia).
           replace (0 <? Z.of_nat (S (length (text' :: l)))) with true
             by (symmetry; apply Z.ltb_lt; lia).
           cbn [andb]. f_equal. lia.
Qed.

(** X3. [readSourceLines] returns the lines [startLine] to [endLine] of the
    file (counted from 1, both included), joined by newlines and clipped to
    the lines the file has: nothing when the range is empty or lies past the
    end, and no error for that.  An error of the scanner is returned only
    when the scan reached it, that is, when the file was read to its end; a
    failure to open the file is returned as it is. *)
Theorem readSourceLines_selects
    (w : World.t) (filename : string) (startLine endLine : Z) (st : State) :
  match scanLines w filename with
  | inl err => fst (readSourceLines w filename startLine endLine st) = inr err
  | inr (scanned, scanErr) =>
      let selected :=
        take (Z.to_nat (endLine - Z.max startLine 1 + 1))
          (drop (Z.to_nat (startLine - 1)) scanned) in
      fst (readSourceLines w filename startLine endLine st)
      = match scanErr with
        | Some err =>
            if (0 <? Z.of_nat (length scanned))
               && (endLine <? Z.of_nat (length scanned))
            then inl (Join selected nl) else inr err
        | None => inl (Join selected nl)
        end
  end.
Proof.
  unfold readSourceLines. rewrite bind_run. unfold open_scan. rewrite bind_run.
  cbn [fst snd emit ret].
  destruct (scanLines w filename) as [err|[scanned scanErr]]; [reflexivity|].
  rewrite (collectLines_spec startLine endLine scanned 1 []) by lia.
  cbn [app]. cbv zeta.
  replace (endLine <? 1 + Z.of_nat (length scanned) - 1)
    with (endLine <? Z.of_nat (length scanned)) by (f_equal; lia).
  destruct scanErr as [err|].
  - destruct ((0 <? Z.of_nat (length scanned))
              && (endLine <? Z.of_nat (length scanned))); reflexivity.
  - destruct ((0 <? Z.of_nat (length scanned))
              && (endLine <? Z.of_nat (length scanned))); reflexivity.
Qed.

Lemma readSourceLines_selects_witness :
  fst (readSourceLines Sample.vWorld "/w/v.go" 9 11 Cache.initial)
  = inl (Join ["type Point struct {"; "    X int"; "}"] nl).
Proof. exact (readSourceLines_selects Sample.vWorld "/w/v.go" 9 11 Cache.initial). Defined.

End SourceLines.
Section SymbolLookup.
Import Ast World Run GoString Format Lookup.

Lemma name_test (symbolName name : string) :
  negb (String.eqb symbolName "") && String.eqb name symbolName = true
  <-> symbolName <> "" /\ name = symbolName.
Proof.
  rewrite andb_true_iff, negb_true_iff, String.eqb_eq.
  split; intros [H1 H2]; split; try assumption.
  - intros ->. now rewrite String.eqb_refl in H1.
  - now apply eqb_neq_empty.
Qed.

Lemma line_test (lineNumber : Z) (pos end_ : Position) :
  (0 <? lineNumber) && containsLine pos end_ lineNumber = true
  <-> 0 < lineNumber /\ Line pos <= lineNumber <= Line end_.
Proof.
  unfold containsLine. rewrite !andb_true_iff, Z.ltb_lt, !Z.leb_le. tauto.
Qed.

Lemma func_test (symbolName : string) (lineNumber : Z) (d : FuncDecl) :
  (negb (String.eqb symbolName "") && String.eqb (fn_Name d) symbolName)
  || ((0 <? lineNumber) && containsLine (fn_Pos d) (fn_End d) lineNumber) = true
  <-> answers symbolName lineNumber (SymFunc d).
Proof. rewrite orb_true_iff, name_test, line_test. reflexivity. Qed.

Lemma type_test (symbolName : string) (lineNumber : Z) (s : TypeSpec) :
  (negb (String.eqb symbolName "") && String.eqb (ts_Name s) symbolName)
  || ((0 <? lineNumber) && containsLine (ts_Pos s) (ts_End s) lineNumber) = true
  <-> answers symbolName lineNumber (SymType s).
Proof. rewrite orb_true_iff, name_test, line_test. reflexivity. Qed.

Lemma value_test (symbolName : string) (lineNumber : Z) (s : ValueSpec) :
  existsb
    (fun name =>
       (negb (String.eqb symbolName "") && String.eqb name symbolName)
       || ((0 <? lineNumber) && containsLine (vs_Pos s) (vs_End s) lineNumber))
    (vs_Names s) = true
  <-> answers symbolName lineNumber (SymValue s).
Proof.
  rewrite existsb_exists. cbn [answers]. split.
  - intros (name & Hin & H). rewrite orb_true_iff, name_test, line_test in H.
    destruct H as [[Hne ->]|[Hl Hr]]; [left; now split | right].
    repeat split; try lia. intros Hnil. rewrite Hnil in Hin. destruct Hin.
  - intros [[Hne Hin]|(Hl & Hr & Hnames)].
    + exists symbolName. split; [exact Hin|].
      rewrite orb_true_iff, name_test. now left.
    + destruct (vs_Names s) as [|name names]; [congruence|].
      exists name. split; [now left|].
      rewrite orb_true_iff, line_test. right. split; [exact Hl | exact Hr].
Qed.

Lemma findSymbolInSpecs_spec (specs : list Spec) (symbolName : string)
    (lineNumber : Z) :
  match findSymbolInSpecs specs symbolName lineNumber with
  | Some (SymFunc _) => False
  | Some (SymType s) =>
      In (TypeSpecNode s) specs /\ answers symbolName lineNumber (SymType s)
  | Some (SymValue s) =>
      In (ValueSpecNode s) specs /\ answers symbolName lineNumber (SymValue s)
  | None =>
      (forall s, In (TypeSpecNode s) specs ->
                 ~ answers symbolName lineNumber (SymType s)) /\
      (forall s, In (ValueSpecNode s) specs ->
                 ~ answers symbolName lineNumber (SymValue s))
  end.
Proof.
  induction specs as [|[p e|s|s] specs IH]; cbn [findSymbolInSpecs].
  - split; intros s [].
  - destruct (findSymbolInSpecs specs symbolName lineNumber) as [[d|s|s]|];
      try exact IH.
    + destruct IH as [Hin Ha]. split; [now right | exact Ha].
    + destruct IH as [Hin Ha]. split; [now right | exact Ha].
    + destruct IH as [Ht Hv]. split; intros s [Heq|Hin]; try discriminate; auto.
  - destruct (_ || _) eqn:E.
    + apply type_test in E. split; [now left | exact E].
    + destruct (findSymbolInSpecs specs symbolName lineNumber) as [[d|s'|s']|];
        try exact IH.
      * destruct IH as [Hin Ha]. split; [now right | exact Ha].
      * destruct IH as [Hin Ha]. split; [now right | exact Ha].
      * destruct IH as [Ht Hv]. split; intros s' [Heq|Hin]; try discriminate; auto.
        injection Heq as <-. intros Ha. apply type_test in Ha. congruence.
  - destruct (existsb _ _) eqn:E.
    + apply value_test in E. split; [now left | exact E].
    + destruct (findSymbolInSpecs specs symbolName lineNumber) as [[d|s'|s']|];
        try exact IH.
      * destruct IH as [Hin Ha]. split; [now right | exact Ha].
      * destruct IH as [Hin Ha]. split; [now right | exact Ha].
      * destruct IH as [Ht Hv]. split; intros s' [Heq|Hin]; try discriminate; auto.
        injection Heq as <-. intros Ha. apply value_test in Ha. congruence.
Qed.

(** X4. The symbol search of [Inspect] answers a declaration of the file
    that has the name asked for (when a name is given) or whose lines hold
    the line asked for (when a line is given), either being enough when both
    are given; and it answers none only when no function, type spec or
    value spec of the file does. *)
Theorem findSymbol_sound_and_complete
    (decls : list Decl) (symbolName : string) (lineNumber : Z) :
  match findSymbol decls symbolName lineNumber with
  | Some sym => declaredIn decls sym /\ answers symbolName lineNumber sym
  | None =>
      forall sym, declaredIn decls sym -> ~ answers symbolName lineNumber sym
  end.
Proof.
  induction decls as [|[d|g|] decls IH]; cbn [findSymbol].
  - intros [d|s|s]; cbn [declaredIn]; [intros [] | intros (g & [] & _) ..].
  - destruct (_ || _) eqn:E.
    + apply func_test in E. split; [now left | exact E].
    + destruct (findSymbol decls symbolName lineNumber) as [sym|].
      * destruct IH as [Hd Ha]. split; [|exact Ha].
        destruct sym as [d'|s|s]; cbn [declaredIn] in *;
          [now right | destruct Hd as (g & Hg & Hs); exists g; split;
                       [now right | exact Hs] ..].
      * intros [d'|s|s]; cbn [declaredIn].
        -- intros [Heq|Hin]; [|exact (IH (SymFunc d') Hin)].
           injection Heq as <-. intros Ha. apply func_test in Ha. congruence.
        -- intros (g & [Heq|Hg] & Hs); [discriminate|].
           apply (IH (SymType s)). now exists g.
        -- intros (g & [Heq|Hg] & Hs); [discriminate|].
           apply (IH (SymValue s)). now exists g.
  - pose proof (findSymbolInSpecs_spec (gd_Specs g) symbolName lineNumber) as Hs.
    destruct (findSymbolInSpecs (gd_Specs g) symbolName lineNumber)
      as [[d|s|s]|].
    + destruct Hs.
    + destruct Hs as [Hin Ha]. split; [|exact Ha]. exists g. split; [now left | exact Hin].
    + destruct Hs as [Hin Ha]. split; [|exact Ha]. exists g. split; [now left | exact Hin].
    + destruct Hs as [Ht Hv].
      destruct (findSymbol decls symbolName lineNumber) as [sym|].
      * destruct IH as [Hd Ha]. split; [|exact Ha].
        destruct sym as [d'|s|s]; cbn [declaredIn] in *;
          [now right | destruct Hd as (g' & Hg & Hs); exists g'; split;
                       [now right | exact Hs] ..].
      * intros [d'|s|s]; cbn [declaredIn].
        -- intros [Heq|Hin]; [discriminate | exact (IH (SymFunc d') Hin)].
        -- intros (g' & [Heq|Hg] & Hs).
           ++ injection Heq as <-. now apply Ht.
           ++ apply (IH (SymType s)). now exists g'.
        -- intros (g' & [Heq|Hg] & Hs).
           ++ injection Heq as <-. now apply Hv.
           ++ apply (IH (SymValue s)). now exists g'.
  - destruct (findSymbol decls symbolName lineNumber) as [sym|].
    + destruct IH as [Hd Ha]. split; [|exact Ha].
      destruct sym as [d'|s|s]; cbn [declaredIn] in *;
        [now right | destruct Hd as (g' & Hg & Hs); exists g'; split;
                     [now right | exact Hs] ..].
    + intros [d'|s|s]; cbn [declaredIn].
      * intros [Heq|Hin]; [discriminate | exact (IH (SymFunc d') Hin)].
      * intros (g' & [Heq|Hg] & Hs); [discriminate|].
        apply (IH (SymType s)). now exists g'.
      * intros (g' & [Heq|Hg] & Hs); [discriminate|].
        apply (IH (SymValue s)). now exists g'.
Qed.

End SymbolLookup.
Section ParentDeclaration.
Import Ast World Run GoString Format Lookup.

Lemma holdsAddr_iff (ptr : nat) (g : GenDecl) :
  holdsAddr ptr (GenDeclNode g) = true <-> In ptr (flat_map specAddr (gd_Specs g)).
Proof.
  cbn [holdsAddr]. rewrite existsb_exists, in_flat_map. split.
  - intros (spec & Hin & H). exists spec. split; [exact Hin|].
    destruct spec as [p e|s|s]; [discriminate | ..];
      apply Nat.eqb_eq in H; now left.
  - intros (spec & Hin & H). exists spec. split; [exact Hin|].
    destruct spec as [p e|s|s]; [destruct H | ..];
      destruct H as [H|[]]; now apply Nat.eqb_eq.
Qed.

Lemma parentOf_cons (decl : Decl) (decls : list Decl) (ptr : nat) :
  parentOf (decl :: decls) ptr
  = if holdsAddr ptr decl
    then match decl with GenDeclNode g => Some g | _ => None end
    else parentOf decls ptr.
Proof.
  unfold parentOf. cbn [List.find]. fold (holdsAddr ptr decl).
  destruct (holdsAddr ptr decl); reflexivity.
Qed.

Lemma parentOf_holder (decls : list Decl) (ptr : nat) (spec : Spec) :
  NoDup (specAddrs decls) -> specAddr spec = [ptr] ->
  forall g, In (GenDeclNode g) decls -> In spec (gd_Specs g) ->
  parentOf decls ptr = Some g.
Proof.
  intros Hnd Hspec. induction decls as [|decl decls IH]; intros g Hg Hin.
  - destruct Hg.
  - rewrite parentOf_cons. cbn [specAddrs flat_map] in Hnd.
    apply NoDup_app in Hnd as (Hhead & Hdisj & Htail).
    assert (Hptr : In ptr (flat_map specAddr (gd_Specs g))).
    { apply in_flat_map. exists spec. split; [exact Hin|]. rewrite Hspec. now left. }
    destruct Hg as [->|Hg].
    + rewrite (proj2 (holdsAddr_iff ptr g) Hptr). reflexivity.
    + destruct (holdsAddr ptr decl) eqn:E; [|now apply IH].
      exfalso. destruct decl as [d|g0|]; try discriminate.
      apply holdsAddr_iff in E.
      apply (Hdisj ptr); [apply list_elem_of_In; exact E|].
      apply list_elem_of_In. unfold specAddrs. apply in_flat_map.
      exists (GenDeclNode g). split; [exact Hg | exact Hptr].
Qed.

(** X5. For a type spec or value spec of the file, the search of
    [formatSymbolWithContext] for its enclosing declaration, which compares
    addresses, answers the declaration that holds the spec, so that the
    comment of the declaration is at hand when the spec has none; the specs
    of the file have distinct addresses. *)
Theorem parent_declaration_found (decls : list Decl) (sym : Symbol) :
  NoDup (specAddrs decls) -> declaredIn decls sym ->
  match sym with
  | SymFunc _ => True
  | SymType s =>
      exists g, parentOf decls (ts_ptr s) = Some g /\
                In (GenDeclNode g) decls /\ In (TypeSpecNode s) (gd_Specs g)
  | SymValue s =>
      exists g, parentOf decls (vs_ptr s) = Some g /\
                In (GenDeclNode g) decls /\ In (ValueSpecNode s) (gd_Specs g)
  end.
Proof.
  intros Hnd Hd. destruct sym as [d|s|s]; [exact I | ..];
    destruct Hd as (g & Hg & Hin); exists g;
    (split; [|split; assumption]).
  - exact (parentOf_holder decls (ts_ptr s) (TypeSpecNode s) Hnd eq_refl g Hg Hin).
  - exact (parentOf_holder decls (vs_ptr s) (ValueSpecNode s) Hnd eq_refl g Hg Hin).
Qed.

Lemma parent_declaration_found_witness :
  exists g, parentOf (f_Decls Sample.visibilityFile) 4 = Some g /\
            In (GenDeclNode g) (f_Decls Sample.visibilityFile) /\
            In (TypeSpecNode Sample.typePoint) (gd_Specs g).
Proof.
  apply (parent_declaration_found (f_Decls Sample.visibilityFile)
           (SymType Sample.typePoint)).
  - apply (bool_decide_unpack _). vm_compute. exact I.
  - eexists. split; [do 3 right; left; reflexivity | left; reflexivity].
Defined.

End ParentDeclaration.

Section ResolvePath.
Import Ast World Run GoString Format Lookup.

(** X6. [resolveFilePath] answers only paths that exist: on success
    [os.Stat] succeeded for the path returned, which is the path given when
    it is absolute, and otherwise the workspace directory joined with the
    path given, or (for a path that does not start with [./] or [../], when
    the first candidate does not exist) joined with [./] and the path given.
    It fails exactly when the workspace directory has no absolute form or
    no candidate exists.  The cache is not touched. *)
Theorem resolveFilePath_existing
    (w : World.t) (filePath workspaceDir : string) (st : State) :
  sameStore st (snd (resolveFilePath w filePath workspaceDir st)) /\
  match fst (resolveFilePath w filePath workspaceDir st) with
  | inl p =>
      (exists t, stat w p = StatOk t) /\
      exists absWorkspaceDir,
        filepath_Abs w workspaceDir = inl absWorkspaceDir /\
        if filepath_IsAbs w filePath then p = filePath
        else
          p = filepath_Join w absWorkspaceDir filePath \/
          (p = filepath_Join w absWorkspaceDir ("./" +:+ filePath) /\
           HasPrefix filePath "./" || HasPrefix filePath "../" = false /\
           forall t, stat w (filepath_Join w absWorkspaceDir filePath) <> StatOk t)
  | inr _ =>
      forall absWorkspaceDir,
        filepath_Abs w workspaceDir = inl absWorkspaceDir ->
        forall t,
          if filepath_IsAbs w filePath then stat w filePath <> StatOk t
          else
            stat w (filepath_Join w absWorkspaceDir filePath) <> StatOk t /\
            (HasPrefix filePath "./" || HasPrefix filePath "../" = false ->
             stat w (filepath_Join w absWorkspaceDir ("./" +:+ filePath))
             <> StatOk t)
  end.
Proof.
  unfold resolveFilePath, sameStore.
  destruct (filepath_Abs w workspaceDir) as [a|e].
  2:{ split; [split; reflexivity|]. intros a' Ha'. discriminate. }
  destruct (filepath_IsAbs w filePath).
  - rewrite bind_run. unfold os_Stat. rewrite bind_run. cbn [fst snd emit ret].
    destruct (stat w filePath) as [t|b m] eqn:Hs; cbn [fst snd].
    + split; [split; reflexivity|]. split; [eauto|]. exists a. auto.
    + split; [split; reflexivity|]. intros a' _ t. discriminate.
  - destruct (HasPrefix filePath "./" || HasPrefix filePath "../") eqn:Hrel.
    + cbn [forEach]. rewrite !bind_run. unfold os_Stat. rewrite !bind_run.
      cbn [fst snd emit ret].
      destruct (stat w (filepath_Join w a filePath)) as [t|b m] eqn:Hs;
        cbn [fst snd].
      * split; [split; reflexivity|]. split; [eauto|]. exists a. auto.
      * split; [split; reflexivity|]. intros a' Ha' t.
        injection Ha' as <-. split; [rewrite Hs; discriminate | discriminate].
    + cbn [forEach]. rewrite !bind_run. unfold os_Stat. rewrite !bind_run.
      cbn [fst snd emit ret].
      destruct (stat w (filepath_Join w a filePath)) as [t|b m] eqn:Hs;
        cbn [fst snd].
      * split; [split; reflexivity|]. split; [eauto|]. exists a. auto.
      * rewrite ?bind_run. cbn [fst snd emit ret].
        destruct (stat w (filepath_Join w a ("./" +:+ filePath))) as [t|b' m']
          eqn:Hs'; cbn [fst snd].
        -- split; [split; reflexivity|]. split; [eauto|]. exists a.
           split; [reflexivity|]. right. split; [reflexivity|].
           split; [reflexivity|]. intros t'. rewrite Hs. discriminate.
        -- split; [split; reflexivity|]. intros a' Ha' t. injection Ha' as <-.
           split; [rewrite Hs; discriminate|]. intros _. rewrite Hs'. discriminate.
Qed.

Lemma resolveFilePath_existing_witness :
  fst (resolveFilePath Sample.vWorld "v.go" "/w" Cache.initial) = inl "/w/v.go" /\
  exists t, stat Sample.vWorld "/w/v.go" = StatOk t.
Proof.
  split; [reflexivity|].
  exact (proj1 (proj2 (resolveFilePath_existing Sample.vWorld "v.go" "/w"
                         Cache.initial))).
Defined.

End ResolvePath.
Section Effects.
Import Ast World Run GoString Cache Gopls Format Lookup.
Local Open Scope go_scope.

Lemma ran_refl (p : Event -> bool) (st : State) : ran p st st.
Proof.
  repeat split. exists []. split; [now rewrite app_nil_r | reflexivity].
Qed.

Lemma ran_trans (p : Event -> bool) (a b c : State) :
  ran p a b -> ran p b c -> ran p a c.
Proof.
  intros (Hf1 & Hn1 & e1 & Ht1 & Hp1) (Hf2 & Hn2 & e2 & Ht2 & Hp2).
  split; [congruence|]. split; [congruence|]. exists (e1 ++ e2).
  split; [rewrite Ht2, Ht1; now rewrite app_assoc|].
  rewrite forallb_app, Hp1, Hp2. reflexivity.
Qed.

Lemma ran_ret {A : Type} (p : Event -> bool) (a : A) (st : State) :
  ran p st (snd (ret a st)).
Proof. apply ran_refl. Qed.

Lemma ran_bind {A B : Type} (p : Event -> bool) (m : M A) (k : A -> M B)
    (st : State) :
  ran p st (snd (m st)) -> (forall a st1, ran p st1 (snd (k a st1))) ->
  ran p st (snd (bind m k st)).
Proof.
  intros Hm Hk. rewrite bind_run. exact (ran_trans _ _ _ _ Hm (Hk _ _)).
Qed.

Lemma ran_emit (p : Event -> bool) (e : Event) (st : State) :
  p e = true -> ran p st (snd (emit e st)).
Proof.
  intros He. repeat split. exists [e]. split; [reflexivity|].
  cbn [forallb]. now rewrite He.
Qed.

Lemma ran_forEach {A S : Type} (p : Event -> bool) (l : list A)
    (body : A -> S -> M S) :
  (forall a s st, ran p st (snd (body a s st))) ->
  forall s st, ran p st (snd (forEach l body s st)).
Proof.
  intros Hbody. induction l as [|a l IH]; intros s st; cbn [forEach].
  - apply ran_ret.
  - apply ran_bind; [apply Hbody | intros s' st'; apply IH].
Qed.

Ltac ran_auto :=
  repeat first
    [ apply ran_ret
    | apply ran_bind; [|intros ? ?]
    | apply ran_emit; reflexivity
    | apply ran_forEach; intros ? ? ?
    | progress cbv beta zeta
    | match goal with
      | |- ran _ _ (snd ((if ?c then _ else _) _)) => destruct c
      | |- ran _ _ (snd (match ?x with _ => _ end _)) => destruct x
      end ].

Lemma readSourceLines_ran (w : World.t) (file : string) (a b : Z) (st : State) :
  ran notGopls st (snd (readSourceLines w file a b st)).
Proof. unfold readSourceLines, open_scan. ran_auto. Qed.

Lemma formatFunction_off_ran (w : World.t) (fn : FuncDecl) (ws : string)
    (st : State) :
  ran notGopls st (snd (formatFunction w fn false false ws st)).
Proof.
  unfold formatFunction, formatFunctionWith. cbn [andb].
  ran_auto.
Qed.

Lemma formatType_off_ran (w : World.t) (ts : TypeSpec) (parent : option GenDecl)
    (ws : string) (st : State) :
  ran notGopls st (snd (formatType w ts false false false parent ws st)).
Proof.
  unfold formatType, formatTypeWith. cbn [andb].
  ran_auto.
Qed.

Lemma formatVariable_off_ran (w : World.t) (vs : ValueSpec)
    (parent : option GenDecl) (ws : string) (st : State) :
  ran notGopls st (snd (formatVariable w vs false false parent ws st)).
Proof.
  unfold formatVariable. cbn [andb].
  ran_auto.
Qed.

Lemma formatFile_ran (w : World.t) (file : File) (includePrivate imports : bool)
    (ws : string) (st : State) :
  ran notGopls st (snd (formatFile w file includePrivate imports ws st)).
Proof.
  unfold formatFile, collectImports.
  ran_auto.
Qed.

Lemma formatPackage_ran (w : World.t) (pkg : Package) (includePrivate : bool)
    (ws : string) (st : State) :
  ran notGopls st (snd (formatPackage w pkg includePrivate ws st)).
Proof.
  unfold formatPackage. ran_auto; apply formatFile_ran.
Qed.

Lemma resolveFilePath_ran (w : World.t) (filePath ws : string) (st : State) :
  ran notGopls st (snd (resolveFilePath w filePath ws st)).
Proof. unfold resolveFilePath, os_Stat. ran_auto. Qed.

Lemma resolvePackagePath_ran (w : World.t) (pkgPath ws : string) (st : State) :
  ran notGopls st (snd (resolvePackagePath w pkgPath ws st)).
Proof. unfold resolvePackagePath. ran_auto; apply resolveFilePath_ran. Qed.

Lemma parser_ParseFile_ran (w : World.t) (filename : string) (st : State) :
  ran notGopls st (snd (parser_ParseFile w filename st)).
Proof. unfold parser_ParseFile, os_ReadFile. ran_auto. Qed.

Lemma packages_Load_ran (w : World.t) (dir pattern : string) (st : State) :
  ran notGopls st (snd (packages_Load w dir pattern st)).
Proof. unfold packages_Load. ran_auto. Qed.

End Effects.
Section InspectEffects.
Import Ast World Run GoString Cache Gopls Format Lookup.
Local Open Scope go_scope.

Lemma InspectOut_effects (w : World.t) (path : string) (line : Z) (name : string)
    (includePrivate : bool) (ws : string) (st : State) :
  match fst (InspectOut w path line name includePrivate ws st) with
  | Some (inr _) =>
      ran notGopls st (snd (InspectOut w path line name includePrivate ws st))
  | _ =>
      name = "" -> (HasSuffix path ".go" = true -> line = 0) ->
      ran notGopls st (snd (InspectOut w path line name includePrivate ws st)) /\
      fst (InspectOut w path line name includePrivate ws st) <> None
  end.
Proof.
  unfold InspectOut.
  destruct (String.eqb ws ""); [apply ran_refl|].
  destruct (negb (filepath_IsAbs w ws)); [apply ran_refl|].
  destruct (HasSuffix path ".go") eqn:Hgo.
  - rewrite bind_run. pose proof (resolveFilePath_ran w path ws st) as H1.
    destruct (resolveFilePath w path ws st) as [[resolved|e] st1];
      cbn [fst snd] in *; [|exact H1].
    rewrite bind_run. pose proof (parser_ParseFile_ran w resolved st1) as H2.
    destruct (parser_ParseFile w resolved st1) as [r st2]; cbn [fst snd] in *.
    pose proof (ran_trans _ _ _ _ H1 H2) as H12.
    destruct (pr_err r) as [[m|m]|]; destruct (pr_file r) as [file|];
      try exact H12;
      (destruct ((line =? 0) && String.eqb name "") eqn:E;
       [ rewrite bind_run; cbn [fst snd ret]; intros _ _;
         split; [|discriminate];
         exact (ran_trans _ _ _ _ H12 (formatFile_ran _ _ _ _ _ _))
       | destruct (findSymbol (f_Decls file) name line);
         [ rewrite bind_run;
           destruct (fst (formatSymbolWithContext w _ file ws st2));
           cbn [fst snd ret]; intros -> Hl; rewrite (Hl eq_refl) in E;
           discriminate E
         | destruct (negb (String.eqb name "")); exact H12 ] ]).
  - rewrite bind_run. pose proof (resolvePackagePath_ran w path ws st) as H1.
    destruct (resolvePackagePath w path ws st) as [[resolved|e] st1];
      cbn [fst snd] in *; [|exact H1].
    rewrite bind_run. pose proof (packages_Load_ran w ws resolved st1) as H2.
    destruct (packages_Load w ws resolved st1) as [r st2]; cbn [fst snd] in *.
    pose proof (ran_trans _ _ _ _ H1 H2) as H12.
    destruct r as [[|pkg pkgs]|e]; try exact H12.
    destruct (pkg_Errors pkg); [|exact H12].
    destruct (String.eqb name "") eqn:E.
    + rewrite bind_run. cbn [fst snd ret]. intros _ _. split; [|discriminate].
      exact (ran_trans _ _ _ _ H12 (formatPackage_ran _ _ _ _ _)).
    + destruct (findInPackage (pkg_Syntax pkg) name) as [[symbol file]|];
        [|exact H12].
      rewrite bind_run.
      destruct (fst (formatSymbolWithContext w symbol file ws st2));
        cbn [fst snd ret]; intros -> _; discriminate E.
Qed.

(** X7. [Inspect] reads and writes the parse cache, and runs gopls, only
    while it formats a single symbol: a call that fails, and a call that
    asks for the overview of a whole file or of a whole package, leave the
    cache as it was and never run gopls; and a call for an overview
    returns. *)
Theorem inspect_overview_leaves_cache
    (w : World.t) (path : string) (line : Z) (name : string)
    (includePrivate : bool) (ws : string) (st : State) :
  (forall err,
     fst (Inspect w path line name includePrivate ws st) = Some (inr err) ->
     ran notGopls st (snd (Inspect w path line name includePrivate ws st))) /\
  (name = "" -> (HasSuffix path ".go" = true -> line = 0) ->
   ran notGopls st (snd (Inspect w path line name includePrivate ws st)) /\
   fst (Inspect w path line name includePrivate ws st) <> None).
Proof.
  pose proof (InspectOut_effects w path line name includePrivate ws st) as H.
  unfold Inspect. rewrite bind_run.
  destruct (InspectOut w path line name includePrivate ws st) as [[[out|e]|] st'];
    cbn [fst snd ret] in *.
  - split; [discriminate|]. intros Hn Hl. split; [|discriminate].
    exact (proj1 (H Hn Hl)).
  - split; [intros err _; exact H|]. intros _ _. split; [exact H | discriminate].
  - split; [discriminate|]. intros Hn Hl. destruct (proj2 (H Hn Hl) eq_refl).
Qed.

Lemma inspect_overview_leaves_cache_witness :
  ran notGopls Cache.initial
    (snd (Inspect Sample.vWorld "/w/v.go" 0 "" false "/w" Cache.initial)) /\
  fst (Inspect Sample.vWorld "/w/v.go" 0 "" false "/w" Cache.initial) <> None.
Proof.
  apply (proj2 (inspect_overview_leaves_cache Sample.vWorld "/w/v.go" 0 "" false
                  "/w" Cache.initial)); reflexivity.
Defined.

End InspectEffects.
Section SyntaxErrors.
Import Ast World Run GoString Cache Gopls Format Lookup.
Local Open Scope go_scope.

Lemma renderAll_cons (o : Out) (out : list Out) :
  renderAll (o :: out) = render o +:+ renderAll out.
Proof. reflexivity. Qed.

(** X8. A file that has syntax errors but for which the parser still gives
    a tree is inspected all the same: whenever [Inspect] succeeds on it, the
    text it returns starts with the warning followed by the messages of the
    parser, and the only way it fails is that no declaration answers the
    request.  (It does not return at all only when the declaration that
    answers the request is a value spec, whose scope section panics.) *)
Theorem syntax_errors_are_reported
    (w : World.t) (path : string) (line : Z) (name : string)
    (includePrivate : bool) (ws : string) (st st1 : State)
    (resolved src msg : string) (file : File) :
  ws <> "" -> filepath_IsAbs w ws = true -> HasSuffix path ".go" = true ->
  resolveFilePath w path ws st = (inl resolved, st1) ->
  readFile w resolved = inl src ->
  parse w resolved src
  = {| pr_file := Some file; pr_err := Some (ErrorList msg) |} ->
  match fst (Inspect w path line name includePrivate ws st) with
  | Some (inl text) =>
      exists rest : string,
        text = "WARNING: Syntax errors found, analysis may be incomplete:"
               +:+ nl +:+ msg +:+ nl +:+ nl +:+ rest
  | Some (inr _) =>
      findSymbol (f_Decls file) name line = None /\
      (line =? 0) && String.eqb name "" = false
  | None =>
      exists vs : ValueSpec,
        findSymbol (f_Decls file) name line = Some (SymValue vs) /\
        (line =? 0) && String.eqb name "" = false
  end.
Proof.
  intros Hws Habs Hgo Hres Hread Hparse.
  unfold Inspect, InspectOut.
  rewrite (eqb_neq_empty _ Hws), Habs, Hgo. cbn [negb].
  rewrite !bind_run, Hres. cbn [fst snd].
  unfold parser_ParseFile at 1 2. rewrite !bind_run. unfold os_ReadFile.
  rewrite !bind_run. cbn [fst snd emit ret]. rewrite Hread. cbn [fst snd ret].
  rewrite Hparse. cbn [pr_err pr_file].
  destruct ((line =? 0) && String.eqb name "") eqn:E.
  - rewrite !bind_run. cbn [fst snd ret]. rewrite renderAll_cons. cbn [render].
    rewrite !string_app_assoc. eexists. reflexivity.
  - destruct (findSymbol (f_Decls file) name line) as [symbol|].
    + rewrite !bind_run.
      destruct (fst (formatSymbolWithContext w symbol file ws _)) as [o|] eqn:Ho;
        cbn [fst snd ret].
      * rewrite renderAll_cons. cbn [render].
        rewrite !string_app_assoc. eexists. reflexivity.
      * destruct symbol as [fn|ts|vs]; cbn [formatSymbolWithContext] in Ho;
          rewrite bind_run in Ho; try discriminate Ho.
        exists vs. split; reflexivity.
    + destruct (negb (String.eqb name "")); cbn [fst snd ret]; split; reflexivity.
Qed.

Lemma syntax_errors_are_reported_witness :
  exists rest : string,
    fst (Inspect Scenario.brokenWorld "b.go" 0 "" true "/w" Cache.initial)
    = Some (inl ("WARNING: Syntax errors found, analysis may be incomplete:"
                 +:+ nl +:+ "/w/b.go:3:7: expected type, found 'EOF'"
                 +:+ nl +:+ nl +:+ rest)).
Proof.
  pose proof (syntax_errors_are_reported Scenario.brokenWorld "b.go" 0 "" true
                "/w" Cache.initial _ "/w/b.go" Scenario.brokenSource
                "/w/b.go:3:7: expected type, found 'EOF'" Scenario.brokenTree
                ltac:(discriminate) eq_refl eq_refl eq_refl eq_refl eq_refl) as H.
  destruct (fst (Inspect Scenario.brokenWorld "b.go" 0 "" true "/w" Cache.initial))
    as [[text|err]|].
  - destruct H as [rest ->]. exists rest. reflexivity.
  - destruct H as [_ H]. discriminate H.
  - destruct H as (vs & _ & H). discriminate H.
Defined.

End SyntaxErrors.

Section PackageOverview.
Import Ast World Run GoString Cache Gopls Format Lookup.
Local Open Scope go_scope.

Lemma TrimPrefix_app (a b : string) : TrimPrefix (a +:+ b) a = b.
Proof.
  unfold TrimPrefix, HasPrefix.
  assert (Hp : String.prefix a (a +:+ b) = true).
  { induction a as [|c a IH]; [now destruct b|].
    rewrite app_String. cbn [String.prefix].
    destruct (ascii_dec c c); [exact IH | congruence]. }
  rewrite Hp, string_length_app, substring_skip.
  replace (String.length a + String.length b - String.length a)%nat
    with (String.length b) by lia.
  apply substring_all.
Qed.

(** A loop whose body only appends to the builder only appends to it. *)
Lemma forEach_extends {A : Type} (l : list A)
    (body : A -> list Out * bool -> M (list Out * bool)) :
  (forall a s st, exists more, fst (fst (body a s st)) = fst s ++ more) ->
  forall s st, exists more, fst (fst (forEach l body s st)) = fst s ++ more.
Proof.
  intros Hbody. induction l as [|a l IH]; intros s st; cbn [forEach].
  - exists []. cbn. now rewrite app_nil_r.
  - rewrite bind_run. destruct (Hbody a s st) as [m1 H1].
    destruct (IH (fst (body a s st)) (snd (body a s st))) as [m2 H2].
    exists (m1 ++ m2). rewrite H2, H1. now rewrite app_assoc.
Qed.

(** X9. [formatPackage] formats every file of the package once, in the
    order of [pkg.Syntax] and without its imports; and for a package that
    lies below the root of its module, with the directory of the module
    known, the text starts with the directory of the module followed by the
    path of the package relative to the module, and then the import path. *)
Theorem formatPackage_files_and_directory
    (w : World.t) (pkg : Package) (includePrivate : bool) (ws : string)
    (st : State) :
  callsOf (fst (formatPackage w pkg includePrivate ws st))
  = map WFile (pkg_Syntax pkg) /\
  (forall moduleDir modulePath rel : string,
     pkg_Module pkg = Some (moduleDir, modulePath) -> moduleDir <> "" ->
     pkg_PkgPath pkg = modulePath +:+ "/" +:+ rel -> rel <> "" ->
     exists rest : list Out,
       fst (formatPackage w pkg includePrivate ws st)
       = Text ("Directory: " +:+ moduleDir +:+ "/" +:+ rel +:+ nl)
         :: Text ("Import Path: " +:+ modulePath +:+ "/" +:+ rel +:+ nl)
         :: Text (nl +:+ nl) :: rest).
Proof.
  unfold formatPackage. rewrite bind_run. cbn [fst snd ret]. split.
  - match goal with
    | |- context [forEach _ ?body ?s st] =>
        rewrite (forEach_calls (pkg_Syntax pkg) body (fun file => [WFile file]))
    end.
    + cbn [fst callsOf flat_map app]. rewrite flat_map_concat_map.
      induction (pkg_Syntax pkg) as [|f l IH]; [reflexivity|].
      cbn [map concat app]. now rewrite IH.
    + intros file [out fileWritten] st0. rewrite bind_run. cbn [fst snd ret].
      destruct fileWritten; rewrite !callsOf_app; cbn [callsOf flat_map app fst];
        rewrite ?app_nil_r; reflexivity.
  - intros moduleDir modulePath rel Hmod Hdir Hpath Hrel.
    match goal with
    | |- context [forEach _ ?body ?s0 st] =>
        assert (Hb : forall a s st,
                  exists more, fst (fst (body a s st)) = fst s ++ more);
        [|destruct (forEach_extends (pkg_Syntax pkg) body Hb s0 st)
            as [more Hmore]]
    end.
    { intros file [out fileWritten] st0. rewrite bind_run. cbn [fst snd ret].
      destruct fileWritten; [|eexists; reflexivity].
      rewrite <- app_assoc. eexists. reflexivity. }
    rewrite Hmore. cbn [fst app]. exists more.
    rewrite Hmod, Hpath. rewrite (eqb_neq_empty _ Hdir). cbn [negb].
    assert (Hne : String.eqb (modulePath +:+ "/" +:+ rel) modulePath = false).
    { apply String.eqb_neq. apply string_app_neq_self. discriminate. }
    rewrite Hne. cbn [negb]. rewrite TrimPrefix_app.
    assert (Hne1 : String.eqb ("/" +:+ rel) "" = false) by reflexivity.
    assert (Hne2 : String.eqb ("/" +:+ rel) "/" = false).
    { destruct rel; [congruence | reflexivity]. }
    rewrite Hne1, Hne2. cbn [negb andb].
    rewrite (TrimPrefix_app "/" rel).
    assert (Hne3 : String.eqb (modulePath +:+ "/" +:+ rel) "" = false).
    { apply String.eqb_neq. intros H. apply (f_equal String.length) in H.
      rewrite string_length_app in H. simpl in H. lia. }
    rewrite Hne3. cbn [negb]. rewrite !string_app_assoc. reflexivity.
Qed.

Lemma formatPackage_files_and_directory_witness :
  exists rest : list Out,
    fst (formatPackage Sample.vWorld Scenario.subPackage false "/w" Cache.initial)
    = Text ("Directory: /w/sub/p" +:+ nl)
      :: Text ("Import Path: example.com/m/sub/p" +:+ nl)
      :: Text (nl +:+ nl) :: rest.
Proof.
  exact (proj2 (formatPackage_files_and_directory Sample.vWorld
                  Scenario.subPackage false "/w" Cache.initial)
           "/w" "example.com/m" "sub/p" eq_refl ltac:(discriminate) eq_refl
           ltac:(discriminate)).
Defined.

End PackageOverview.
Section ScopeFrames.
Import Ast GoString Scope Lookup.

Lemma scopeVisitor_frames (t : Z) (n : Node) (scopes : list string) :
  Forall (holdsLine t) scopes ->
  Forall (holdsLine t) (snd (scopeVisitor t n scopes)).
Proof.
  intros Hs. unfold scopeVisitor.
  destruct ((t <? startLine n) || (endLine n <? t)) eqn:Hout; [exact Hs|].
  apply orb_false_elim in Hout as [H1 H2].
  apply Z.ltb_ge in H1, H2. cbv zeta. cbn [snd].
  assert (Hadd : forall label, In label blockLabels ->
            Forall (holdsLine t) (scopes ++ [frame label (startLine n) (endLine n)])).
  { intros label Hl. apply Forall_app. split; [exact Hs|].
    constructor; [|constructor]. exists label, (startLine n), (endLine n).
    repeat split; [exact Hl | lia | lia]. }
  destruct n; try exact Hs;
    match goal with
    | |- context [if ?c then _ else _] =>
        destruct c; [apply Hadd; cbn; tauto | exact Hs]
    end.
Qed.

Lemma findBlockScopes_frames (t : Z) (n : Node) :
  forall scopes,
    Forall (holdsLine t) scopes ->
    Forall (holdsLine t) (Inspect (scopeVisitor t) n scopes).
Proof.
  set (R := fun a b : list string =>
              Forall (holdsLine t) a -> Forall (holdsLine t) b).
  assert (R_trans : forall a b c, R a b -> R b c -> R a c).
  { unfold R. auto. }
  change (forall scopes, R scopes (Inspect (scopeVisitor t) n scopes)).
  induction n using Node_induction; intros scopes;
    match goal with
    | |- R _ (Inspect _ ?n _) =>
        pose proof (scopeVisitor_frames t n scopes) as Hv
    end;
    cbn [Inspect];
    destruct (scopeVisitor t _ scopes) as [[|] s1]; cbn [snd] in Hv; try exact Hv;
    change (R scopes s1) in Hv;
    repeat first
      [ exact Hv
      | apply (Inspect_after _ _ R R_trans)
      | apply (Inspect_after_opt _ _ R R_trans)
      | apply (Inspect_after_list _ _ R R_trans)
      | assumption ].
Qed.

(** What the closure does on one node: it turns the node away, or adds the
    frame of the node and goes on below it. *)
Lemma scopeVisitor_step (t : Z) (n : Node) (scopes : list string) :
  scopeVisitor t n scopes
  = if (t <? startLine n) || (endLine n <? t) then (false, scopes)
    else (true, scopes ++ frameAt n).
Proof.
  unfold scopeVisitor.
  destruct ((t <? startLine n) || (endLine n <? t)) eqn:Hout; [reflexivity|].
  apply orb_false_elim in Hout as [H1 H2]. apply Z.ltb_ge in H1, H2.
  cbv zeta.
  assert (Hin : (startLine n <=? t) && (t <=? endLine n) = true).
  { apply andb_true_iff. split; apply Z.leb_le; lia. }
  rewrite Hin. unfold frameAt.
  destruct n; cbn [constructLabel andb]; rewrite ?app_nil_r; try reflexivity.
  destruct (isPartOfConstruct _ _); cbn [negb]; now rewrite ?app_nil_r.
Qed.

Lemma reached_many (t : Z) (l : list Node) :
  (fix many (l : list Node) : list Node :=
     match l with
     | [] => []
     | c :: l' => reached t c ++ many l'
     end) l = flat_map (reached t) l.
Proof. induction l as [|c l IH]; [reflexivity|]. cbn [flat_map]. now rewrite IH. Qed.

Lemma walkList_frames (t : Z) (l : list Node) :
  Forall (fun c => forall scopes,
            Inspect (scopeVisitor t) c scopes
            = scopes ++ flat_map frameAt (reached t c)) l ->
  forall scopes,
    (fix walkList (l : list Node) (s : list string) {struct l} : list string :=
       match l with
       | [] => s
       | c :: l' => walkList l' (Inspect (scopeVisitor t) c s)
       end) l scopes
    = scopes ++ flat_map frameAt (flat_map (reached t) l).
Proof.
  intros Hl. induction Hl as [|c l Hc Hl IH]; intros scopes.
  - cbn. now rewrite app_nil_r.
  - rewrite IH, Hc. cbn [flat_map]. rewrite flat_map_app, app_assoc. reflexivity.
Qed.

Lemma walkOpt_frames (t : Z) (o : option Node) :
  (forall c, o = Some c ->
     forall scopes,
       Inspect (scopeVisitor t) c scopes
       = scopes ++ flat_map frameAt (reached t c)) ->
  forall scopes,
    match o with Some c => Inspect (scopeVisitor t) c scopes | None => scopes end
    = scopes ++ flat_map frameAt
                  (match o with Some c => reached t c | None => [] end).
Proof.
  intros Ho scopes. destruct o as [c|]; [apply (Ho c eq_refl)|].
  cbn. now rewrite app_nil_r.
Qed.

(** The traversal collects the frames of the nodes it reaches, in order. *)
Lemma findBlockScopes_reached (t : Z) (n : Node) :
  forall scopes,
    Inspect (scopeVisitor t) n scopes = scopes ++ flat_map frameAt (reached t n).
Proof.
  induction n using Node_induction; intros scopes;
    cbn [Inspect reached]; rewrite scopeVisitor_step;
    cbn [startLine endLine];
    match goal with
    | |- context [(t <? ?s) || (?e <? t)] =>
        destruct ((t <? s) || (e <? t));
        [cbn; now rewrite app_nil_r|]
    end;
    rewrite ?reached_many;
    repeat first
      [ rewrite walkList_frames by assumption
      | rewrite walkOpt_frames by assumption
      | match goal with
        | IH : forall scopes, Inspect _ ?c scopes = _ |- context [Inspect _ ?c _] =>
            rewrite IH
        end ];
    cbn [flat_map]; rewrite ?flat_map_app, <- ?app_assoc; reflexivity.
Qed.

Lemma nodesOf_many (l : list Node) :
  (fix many (l : list Node) : list Node :=
     match l with
     | [] => []
     | c :: l' => nodesOf c ++ many l'
     end) l = flat_map nodesOf l.
Proof. induction l as [|c l IH]; [reflexivity|]. cbn [flat_map]. now rewrite IH. Qed.

Lemma reached_in_list (t : Z) (l : list Node) (m : Node) :
  Forall (fun c => In m (reached t c) ->
                   In m (nodesOf c) /\ startLine m <= t <= endLine m) l ->
  In m (flat_map (reached t) l) ->
  In m (flat_map nodesOf l) /\ startLine m <= t <= endLine m.
Proof.
  intros Hl Hin. apply in_flat_map in Hin as (c & Hc & Hm).
  rewrite Forall_forall in Hl.
  destruct (Hl c (proj2 (list_elem_of_In _ _) Hc) Hm) as [H1 H2].
  split; [|exact H2]. apply in_flat_map. eauto.
Qed.

Lemma reached_in_opt (t : Z) (o : option Node) (m : Node) :
  (forall c, o = Some c ->
     In m (reached t c) -> In m (nodesOf c) /\ startLine m <= t <= endLine m) ->
  In m (match o with Some c => reached t c | None => [] end) ->
  In m (match o with Some c => nodesOf c | None => [] end) /\
  startLine m <= t <= endLine m.
Proof. destruct o as [c|]; [intros H; apply (H c eq_refl) | intros _ []]. Qed.

(** A node the traversal reaches is a node of the statement, and its lines
    hold the line. *)
Lemma reached_spec (t : Z) (n m : Node) :
  In m (reached t n) -> In m (nodesOf n) /\ startLine m <= t <= endLine m.
Proof.
  induction n using Node_induction;
    cbn [reached nodesOf]; cbn [startLine endLine];
    match goal with
    | |- context [(t <? ?s) || (?e <? t)] =>
        destruct ((t <? s) || (e <? t)) eqn:Hout; [intros []|]
    end;
    apply orb_false_elim in Hout as [H1' H2']; apply Z.ltb_ge in H1', H2';
    rewrite ?reached_many, ?nodesOf_many;
    (intros [<-|Hin]; [split; [now left | cbn [startLine endLine]; lia]|]);
    rewrite ?in_app_iff in Hin;
    assert (Hgoal : forall A B : Prop, A /\ B -> (In m (nodesOf m) \/ A) /\ B)
      by tauto;
    cbn [In]; rewrite ?in_app_iff;
    repeat match goal with
           | H : _ \/ _ |- _ => destruct H as [H|H]
           end;
    first
      [ match goal with
        | IH : In m (reached t ?c) -> _, Hm : In m (reached t ?c) |- _ =>
            destruct (IH Hm) as [Ha Hb]; split; [tauto | exact Hb]
        end
      | match goal with
        | IH : Forall _ ?l, Hm : In m (flat_map (reached t) ?l) |- _ =>
            destruct (reached_in_list t l m IH Hm) as [Ha Hb];
            split; [tauto | exact Hb]
        end
      | match goal with
        | IH : forall c, ?o = Some c -> _,
          Hm : In m (match ?o with Some _ => _ | None => _ end) |- _ =>
            destruct (reached_in_opt t o m IH Hm) as [Ha Hb];
            split; [tauto | exact Hb]
        end ].
Qed.

(** X10. [findBlockScopesAtLine] reports, in the order of the traversal, the
    frames of the nodes it reaches: the nodes whose lines hold the target
    line and that lie below such nodes only.  So every frame reported is the
    frame of an [if], [for], [range], [switch], [type-switch], [select] or
    block that is a node of the statement and whose lines hold the line; and
    a statement whose lines do not hold the line gives no frame at all. *)
Theorem block_scopes_hold_the_line (stmt : Node) (targetLine : Z) :
  findBlockScopesAtLine stmt targetLine
  = flat_map frameAt (reached targetLine stmt) /\
  (forall f : string,
     In f (findBlockScopesAtLine stmt targetLine) ->
     exists (n : Node) (label : string),
       In n (nodesOf stmt) /\ constructLabel n = Some label /\
       f = frame label (startLine n) (endLine n) /\
       startLine n <= targetLine <= endLine n) /\
  Forall (holdsLine targetLine) (findBlockScopesAtLine stmt targetLine) /\
  (targetLine < startLine stmt \/ endLine stmt < targetLine ->
   findBlockScopesAtLine stmt targetLine = []).
Proof.
  assert (Heq : findBlockScopesAtLine stmt targetLine
                = flat_map frameAt (reached targetLine stmt))
    by apply (findBlockScopes_reached targetLine stmt []).
  split; [exact Heq|]. split; [|split].
  - intros f Hf. rewrite Heq in Hf. apply in_flat_map in Hf as (n & Hn & Hf).
    destruct (reached_spec targetLine stmt n Hn) as [Hnode Hlines].
    unfold frameAt in Hf.
    destruct (constructLabel n) as [label|] eqn:Hlabel; [|destruct Hf].
    exists n, label. repeat split; try assumption; try lia.
    destruct (match n with BlockStmt _ _ _ _ => _ | _ => false end);
      [destruct Hf|].
    destruct Hf as [<-|[]]. reflexivity.
  - apply findBlockScopes_frames. constructor.
  - intros Hout. rewrite Heq.
    assert (Hr : reached targetLine stmt = []).
    { assert (Ht : (targetLine <? startLine stmt) || (endLine stmt <? targetLine)
                   = true).
      { apply orb_true_iff. destruct Hout; [left | right]; now apply Z.ltb_lt. }
      destruct stmt; cbn [reached]; cbn [startLine endLine] in *; now rewrite Ht. }
    now rewrite Hr.
Qed.

Lemma block_scopes_hold_the_line_witness :
  findBlockScopesAtLine
    (IfStmt 3 5 None (Other 3 3 []) (BlockStmt 2 3 5 []) None) 7 = [].
Proof.
  apply (proj2 (proj2 (proj2 (block_scopes_hold_the_line
                  (IfStmt 3 5 None (Other 3 3 []) (BlockStmt 2 3 5 []) None) 7)))).
  right. reflexivity.
Defined.

End ScopeFrames.
Section ScopeHierarchy.
Import Ast GoString Scope Lookup.

Lemma fold_left_appends {A B : Type} (f : list B -> A -> list B)
    (g : A -> list B) (l : list A) :
  (forall acc a, f acc a = acc ++ g a) ->
  forall init, fold_left f l init = init ++ flat_map g l.
Proof.
  intros Hf. induction l as [|a l IH]; intros init; cbn [fold_left flat_map].
  - now rewrite app_nil_r.
  - rewrite IH, Hf. now rewrite app_assoc.
Qed.

(** A loop that appends to a slice until one element makes it panic. *)
Lemma fold_left_appends_until {A B : Type}
    (f : option (list B) -> A -> option (list B))
    (bad : A -> bool) (g : A -> list B) (l : list A) :
  (forall a, f None a = None) ->
  (forall acc a, f (Some acc) a = if bad a then None else Some (acc ++ g a)) ->
  forall init,
    fold_left f l (Some init)
    = if existsb bad l then None else Some (init ++ flat_map g l).
Proof.
  intros Hnone Hsome.
  assert (Hstuck : forall l', fold_left f l' None = None).
  { induction l' as [|a l' IH]; [reflexivity|]. cbn [fold_left].
    now rewrite Hnone. }
  induction l as [|a l IH]; intros init; cbn [fold_left flat_map existsb].
  - now rewrite app_nil_r.
  - rewrite Hsome. destruct (bad a); cbn [orb]; [apply Hstuck|].
    rewrite IH. destruct (existsb bad l); [reflexivity|].
    now rewrite app_assoc.
Qed.

(** The builder panics on a declaration with an empty receiver list whose
    lines hold the line; otherwise the hierarchy is the package frame, then
    the frames of the type specs that hold the line, then those of the
    functions that hold it, each with the frames of its blocks. *)
Lemma buildScopeHierarchyAtLine_frames (file : File) (targetLine : Z) :
  buildScopeHierarchyAtLine file targetLine
  = if existsb (emptyReceiverAt targetLine) (f_Decls file) then None
    else Some (("package " +:+ f_Name file)
               :: flat_map (typeFramesAt targetLine) (f_Decls file)
               ++ flat_map (funcFramesAt targetLine) (f_Decls file)).
Proof.
  unfold buildScopeHierarchyAtLine.
  rewrite (fold_left_appends_until _ (emptyReceiverAt targetLine)
             (funcFramesAt targetLine)).
  - rewrite (fold_left_appends _ (typeFramesAt targetLine)); [reflexivity|].
    intros acc [d|g|]; cbn [typeFramesAt]; try (now rewrite app_nil_r).
    destruct (gd_Tok g); try (now rewrite app_nil_r).
    apply fold_left_appends.
    intros acc' [p e|s|s]; try (now rewrite app_nil_r).
    destruct ((Line (ts_Pos s) <=? targetLine) && (targetLine <=? Line (ts_End s)));
      [reflexivity | now rewrite app_nil_r].
  - reflexivity.
  - intros acc [d|g|]; cbn [funcFramesAt emptyReceiverAt];
      try (now rewrite app_nil_r).
    destruct ((Line (fn_Pos d) <=? targetLine) && (targetLine <=? Line (fn_End d)));
      cbn [andb]; [|now rewrite app_nil_r].
    unfold funcFrame.
    destruct (fn_Recv d) as [[|recv more]|], (fn_Body d);
      rewrite <- ?app_assoc; cbn [app]; rewrite ?app_nil_r; reflexivity.
Qed.

Lemma flat_map_nil {A B : Type} (f : A -> list B) (l : list A) :
  (forall a, In a l -> f a = []) -> flat_map f l = [].
Proof.
  induction l as [|a l IH]; intros H; [reflexivity|].
  cbn [flat_map]. rewrite (H a (or_introl eq_refl)), IH; [reflexivity|].
  intros b Hb. apply H. now right.
Qed.

(** X11. [buildScopeHierarchyAtLine] panics exactly when a function
    declaration of the file whose lines hold the line has a receiver list
    that is there and empty.  When it returns, the hierarchy starts with the
    frame of the package and is that frame alone when no function
    declaration and no type spec of the file holds the line; every
    function, method and type spec of the file whose lines hold the line
    has its frame in the hierarchy. *)
Theorem hierarchy_of_a_line (file : File) (targetLine : Z) :
  (buildScopeHierarchyAtLine file targetLine = None <->
   exists d : FuncDecl,
     In (FuncDeclNode d) (f_Decls file) /\
     Line (fn_Pos d) <= targetLine <= Line (fn_End d) /\
     fn_Recv d = Some []) /\
  (forall hierarchy : list string,
     buildScopeHierarchyAtLine file targetLine = Some hierarchy ->
     (exists rest : list string,
        hierarchy = ("package " +:+ f_Name file) :: rest) /\
     (forallb (fun decl => negb (declCovers targetLine decl)) (f_Decls file)
      = true ->
      hierarchy = ["package " +:+ f_Name file]) /\
     (forall d : FuncDecl,
        In (FuncDeclNode d) (f_Decls file) ->
        Line (fn_Pos d) <= targetLine <= Line (fn_End d) ->
        In (funcFrame d) hierarchy) /\
     (forall (g : GenDecl) (s : TypeSpec),
        In (GenDeclNode g) (f_Decls file) -> gd_Tok g = TYPE ->
        In (TypeSpecNode s) (gd_Specs g) ->
        Line (ts_Pos s) <= targetLine <= Line (ts_End s) ->
        In (typeFrame s) hierarchy)).
Proof.
  rewrite buildScopeHierarchyAtLine_frames. split.
  - destruct (existsb (emptyReceiverAt targetLine) (f_Decls file)) eqn:E.
    + split; [intros _|reflexivity].
      apply existsb_exists in E as (decl & Hin & Hd).
      destruct decl as [d|g|]; try discriminate Hd.
      cbn [emptyReceiverAt] in Hd.
      apply andb_true_iff in Hd as [Hl Hr]. apply andb_true_iff in Hl as [H1 H2].
      apply Z.leb_le in H1, H2. exists d. split; [exact Hin|]. split; [lia|].
      destruct (fn_Recv d) as [[|? ?]|]; [reflexivity | discriminate | discriminate].
    + split; [discriminate|]. intros (d & Hin & Hl & Hr). exfalso.
      assert (Hex : existsb (emptyReceiverAt targetLine) (f_Decls file) = true).
      { apply existsb_exists. exists (FuncDeclNode d). split; [exact Hin|].
        cbn [emptyReceiverAt]. rewrite Hr.
        rewrite !andb_true_iff, !Z.leb_le. repeat split; lia. }
      congruence.
  - intros hierarchy.
    destruct (existsb (emptyReceiverAt targetLine) (f_Decls file)); [discriminate|].
    intros [= <-]. split; [eauto|]. split; [|split].
    + intros Hnone. rewrite forallb_forall in Hnone.
      rewrite !flat_map_nil; [reflexivity | |].
      * intros [d|g|] Hin; try reflexivity. specialize (Hnone _ Hin).
        cbn [declCovers funcFramesAt] in *.
        now destruct ((Line (fn_Pos d) <=? targetLine)
                      && (targetLine <=? Line (fn_End d))).
      * intros [d|g|] Hin; try reflexivity. specialize (Hnone _ Hin).
        cbn [declCovers typeFramesAt] in *.
        destruct (gd_Tok g); try reflexivity.
        apply negb_true_iff in Hnone.
        apply flat_map_nil. intros [p e|s|s] Hs; try reflexivity.
        destruct ((Line (ts_Pos s) <=? targetLine)
                  && (targetLine <=? Line (ts_End s))) eqn:E; [|reflexivity].
        assert (Hex : existsb
                  (fun spec =>
                     match spec with
                     | TypeSpecNode s0 =>
                         (Line (ts_Pos s0) <=? targetLine)
                         && (targetLine <=? Line (ts_End s0))
                     | _ => false
                     end) (gd_Specs g) = true).
        { apply existsb_exists. exists (TypeSpecNode s). split; [exact Hs | exact E]. }
        congruence.
    + intros d Hin Hr. right. apply in_or_app. right.
      apply in_flat_map. exists (FuncDeclNode d). split; [exact Hin|].
      cbn [funcFramesAt].
      replace ((Line (fn_Pos d) <=? targetLine) && (targetLine <=? Line (fn_End d)))
        with true; [now left|].
      symmetry. apply andb_true_iff. split; apply Z.leb_le; lia.
    + intros g s Hg Htok Hs Hr. right. apply in_or_app. left.
      apply in_flat_map. exists (GenDeclNode g). split; [exact Hg|].
      cbn [typeFramesAt]. rewrite Htok.
      apply in_flat_map. exists (TypeSpecNode s). split; [exact Hs|].
      replace ((Line (ts_Pos s) <=? targetLine) && (targetLine <=? Line (ts_End s)))
        with true; [now left|].
      symmetry. apply andb_true_iff. split; apply Z.leb_le; lia.
Qed.

Lemma hierarchy_of_a_line_witness :
  buildScopeHierarchyAtLine Scenario.noReceiverFile 3 = None /\
  In "type Point (lines 9-11)" ["package v"; "type Point (lines 9-11)"].
Proof.
  split.
  - apply (proj1 (hierarchy_of_a_line Scenario.noReceiverFile 3)).
    exists Scenario.noReceiver. split; [left; reflexivity|].
    split; [simpl; lia | reflexivity].
  - apply (proj2 (proj2 (proj2 (proj2 (hierarchy_of_a_line Sample.visibilityFile 10)
             ["package v"; "type Point (lines 9-11)"] eq_refl)))
             {| gd_Tok := TYPE; gd_Doc := None;
                gd_Specs := [TypeSpecNode Sample.typePoint] |} Sample.typePoint).
    + do 3 right. left. reflexivity.
    + reflexivity.
    + left. reflexivity.
    + simpl. lia.
Defined.

(** An inspection of the variable [x] of [/w/r.go], on the line of the
    declaration [func () f() {}], does not return: the scope section
    panics. *)
Example inspect_panics_on_empty_receiver :
  fst (Format.Inspect Scenario.noReceiverWorld "/w/r.go" 0 "x" true "/w"
         Cache.initial) = None /\
  fst (Format.Inspect Scenario.noReceiverWorld "/w/r.go" 0 "" true "/w"
         Cache.initial)
  = Some (inl (Join ["File: /w/r.go"; "";
                     "Lines: 3"; "Code:"; "func () f() {}; var x int"; "";
                     "Lines: 3"; "Code:"; "func () f() {}; var x int"] nl)).
Proof. split; vm_compute; reflexivity. Qed.

End ScopeHierarchy.
Section GoplsPosition.
Import Ast World Run GoString GoLib Position Gopls Lookup.
Local Open Scope go_scope.




End GoplsPosition.
Section RenameEffects.
Import Ast World Run GoString GoLib Position Gopls Lookup.
Local Open Scope go_scope.

Lemma createGoplsPosition_quiet (w : World.t) (filePath : string) (line : Z)
    (name : string) (st : State) :
  files (snd (createGoplsPosition w filePath line name st)) = files st /\
  nextAddr (snd (createGoplsPosition w filePath line name st)) = nextAddr st /\
  exists evs,
    trace (snd (createGoplsPosition w filePath line name st)) = trace st ++ evs /\
    goplsCalls evs = [].
Proof.
  assert (Hq : forall (st' : State) (evs : list Event),
            files st' = files st -> nextAddr st' = nextAddr st ->
            trace st' = trace st ++ evs -> goplsCalls evs = [] ->
            files st' = files st /\ nextAddr st' = nextAddr st /\
            exists evs, trace st' = trace st ++ evs /\ goplsCalls evs = []).
  { intros st' evs H1 H2 H3 H4. eauto. }
  unfold createGoplsPosition.
  destruct (line <=? 0);
    [apply (Hq _ []); try reflexivity; cbn; now rewrite app_nil_r|].
  destruct (String.eqb name "");
    [apply (Hq _ []); try reflexivity; cbn; now rewrite app_nil_r|].
  rewrite bind_run. unfold os_Stat. rewrite !bind_run. cbn [fst snd emit ret].
  destruct (stat w filePath) as [t|[|] m];
    try (apply (Hq _ [EvStat filePath]); reflexivity);
    (destruct (filepath_Abs w filePath) as [a|e];
     [|apply (Hq _ [EvStat filePath]); reflexivity]);
    rewrite bind_run; unfold os_ReadFile; rewrite bind_run;
    cbn [fst snd emit ret];
    destruct (findSymbolColumnPosition _ _ _); cbn [fst snd ret];
    apply (Hq _ [EvStat filePath; EvReadFile a]); try reflexivity;
    cbn; now rewrite <- app_assoc.
Qed.

(** X13. [Rename] never touches the parse cache, and it runs gopls at most
    once: only after all of its parameters passed the checks, the new name
    differing from the old one, and [createGoplsPosition] found the symbol,
    and then with the arguments [rename -w position newName] for the
    position found.  A successful call never returns the empty text. *)
Theorem rename_runs_gopls_at_the_symbol
    (w : World.t) (filePath : string) (lineNumber : Z)
    (symbolName newName : string) (st : State) :
  files (snd (Rename w filePath lineNumber symbolName newName st)) = files st /\
  nextAddr (snd (Rename w filePath lineNumber symbolName newName st))
  = nextAddr st /\
  (exists evs : list Event,
     trace (snd (Rename w filePath lineNumber symbolName newName st))
     = trace st ++ evs /\
     (goplsCalls evs = [] \/
      exists position : string,
        fst (createGoplsPosition w filePath lineNumber symbolName st)
        = inl position /\
        goplsCalls evs = [["rename"; "-w"; position; newName]] /\
        filePath <> "" /\ newName <> "" /\ symbolName <> newName)) /\
  fst (Rename w filePath lineNumber symbolName newName st) <> inl "".
Proof.
  unfold Rename.
  assert (Hnone : forall (r : string + string),
            r <> inl "" ->
            files (snd (ret r st)) = files st /\
            nextAddr (snd (ret r st)) = nextAddr st /\
            (exists evs : list Event,
               trace (snd (ret r st)) = trace st ++ evs /\
               (goplsCalls evs = [] \/
                exists position : string,
                  fst (createGoplsPosition w filePath lineNumber symbolName st)
                  = inl position /\
                  goplsCalls evs = [["rename"; "-w"; position; newName]] /\
                  filePath <> "" /\ newName <> "" /\ symbolName <> newName)) /\
            fst (ret r st) <> inl "").
  { intros r Hr. repeat split; [|exact Hr]. exists [].
    split; [now rewrite app_nil_r | now left]. }
  destruct (String.eqb filePath "") eqn:Hf; [apply Hnone; discriminate|].
  destruct (lineNumber <=? 0); [apply Hnone; discriminate|].
  destruct (String.eqb symbolName ""); [apply Hnone; discriminate|].
  destruct (String.eqb newName "") eqn:Hn; [apply Hnone; discriminate|].
  destruct (String.eqb symbolName newName) eqn:Hs; [apply Hnone; discriminate|].
  apply String.eqb_neq in Hf, Hn, Hs. clear Hnone.
  rewrite bind_run.
  destruct (createGoplsPosition_quiet w filePath lineNumber symbolName st)
    as (Hfiles & Haddr & evs & Htrace & Hcalls).
  destruct (createGoplsPosition w filePath lineNumber symbolName st)
    as [[position|err] st1]; cbn [fst snd] in *.
  2:{ repeat split; try assumption; [|discriminate].
      exists evs. split; [exact Htrace | now left]. }
  rewrite bind_run. unfold executeGoplsCommand. rewrite bind_run.
  unfold exec_gopls. rewrite bind_run. cbn [fst snd emit ret].
  assert (Hev : exists evs' : list Event,
            trace st1
            ++ [EvGopls (Exec.commandDir w ["rename"; "-w"; position; newName])
                  ["rename"; "-w"; position; newName]]
            = trace st ++ evs' /\
            (goplsCalls evs' = [] \/
             exists position0 : string,
               inl position = (inl position0 : string + string) /\
               goplsCalls evs' = [["rename"; "-w"; position0; newName]] /\
               filePath <> "" /\ newName <> "" /\ symbolName <> newName)).
  { exists (evs ++ [EvGopls (Exec.commandDir w ["rename"; "-w"; position; newName])
                      ["rename"; "-w"; position; newName]]).
    split; [rewrite Htrace; now rewrite app_assoc|]. right. exists position.
    split; [reflexivity|]. split; [|auto].
    unfold goplsCalls in *. rewrite flat_map_app, Hcalls. reflexivity. }
  destruct (gopls w ["rename"; "-w"; position; newName]) as [output [e|]];
    cbn [fst snd].
  - destruct (String.eqb (TrimSpace w output) ""); cbn [fst snd ret];
      repeat split; try assumption; discriminate.
  - cbn [fst snd ret].
    destruct (String.eqb (TrimSpace w output) "") eqn:E; cbn [fst snd ret];
      repeat split; try assumption; try discriminate.
    intros H. injection H as H. rewrite H in E. discriminate E.
Qed.

Lemma rename_runs_gopls_at_the_symbol_witness :
  exists evs : list Event,
    trace (snd (Rename Sample.oneRefWorld "/w/v.go" 9 "Point" "Pt" Cache.initial))
    = trace Cache.initial ++ evs /\
    goplsCalls evs = [["rename"; "-w"; "/w/v.go:9:6"; "Pt"]].
Proof.
  destruct (rename_runs_gopls_at_the_symbol Sample.oneRefWorld "/w/v.go" 9
              "Point" "Pt" Cache.initial) as (_ & _ & (evs & Htrace & Hcalls) & _).
  exists evs. split; [exact Htrace|].
  assert (Hevs : evs = [EvStat "/w/v.go"; EvReadFile "/w/v.go";
                        EvGopls (Some "/w") ["rename"; "-w"; "/w/v.go:9:6"; "Pt"]]).
  { symmetry. exact Htrace. }
  rewrite Hevs. reflexivity.
Defined.

Lemma HasSuffix_split (s suffix : string) :
  HasSuffix s suffix = true -> exists p, s = p +:+ suffix.
Proof.
  unfold HasSuffix. intros H. apply andb_true_iff in H as [Hlen Heq].
  apply Nat.leb_le in Hlen. apply String.eqb_eq in Heq.
  exists (String.substring 0 (String.length s - String.length suffix) s).
  pose proof (substring_split s (String.length s - String.length suffix)
                ltac:(lia)) as Hsplit.
  replace (String.length s - (String.length s - String.length suffix))%nat
    with (String.length suffix) in Hsplit by lia.
  rewrite Heq in Hsplit. exact Hsplit.
Qed.

Lemma prefix_app (a b : string) : String.prefix a (a +:+ b) = true.
Proof.
  induction a as [|c a IH]; [now destruct b|].
  rewrite app_String. cbn [String.prefix].
  destruct (ascii_dec c c); [exact IH | congruence].
Qed.

Lemma Contains_app (p x r : string) : Contains (p +:+ x +:+ r) x = true.
Proof.
  induction p as [|c p IH].
  - rewrite app_Empty. destruct (x +:+ r) eqn:E; cbn [Contains];
      rewrite <- E, prefix_app; reflexivity.
  - rewrite app_String. cbn [Contains]. rewrite IH. apply orb_true_r.
Qed.

Lemma commandDir_skips (w : World.t) (before rest : list string) :
  Forall (fun arg => Contains arg ".go:" = false /\ HasSuffix arg ".go" = false)
    before ->
  Exec.commandDir w (before ++ rest) = Exec.commandDir w rest.
Proof.
  intros Hbefore. induction Hbefore as [|arg before [Hc Hs] Hbefore IH];
    [reflexivity|].
  cbn [app Exec.commandDir]. rewrite Hc, Hs. exact IH.
Qed.

(** X14. [executeGoplsCommand] runs gopls once, with the arguments it is
    given, in the directory its loop over the arguments chooses: for the
    first argument that holds [.go:] or ends in [.go], the directory of the
    text before the first colon of the argument in the first case and the
    directory of the argument in the second; no directory when there is no
    such argument.  So for a position [path:line:column] of a path that ends
    in [.go] and holds no colon gopls runs in the directory of the file; for
    a path that holds a colon it runs in the directory of what precedes that
    colon, as for [/w/a:b/x.go:3:1]. *)
Theorem commandDir_of_position (w : World.t) :
  (forall (args : list string) (st : State),
     args <> [] ->
     trace (snd (executeGoplsCommand w args st))
     = trace st ++ [EvGopls (Exec.commandDir w args) args]) /\
  (forall (before after : list string) (arg : string),
     Forall (fun arg => Contains arg ".go:" = false /\ HasSuffix arg ".go" = false)
       before ->
     (Contains arg ".go:" = true ->
      Exec.commandDir w (before ++ arg :: after)
      = Some (filepath_Dir w (hd "" (splitOn colon arg)))) /\
     (Contains arg ".go:" = false -> HasSuffix arg ".go" = true ->
      Exec.commandDir w (before ++ arg :: after) = Some (filepath_Dir w arg))) /\
  (forall args : list string,
     Forall (fun arg => Contains arg ".go:" = false /\ HasSuffix arg ".go" = false)
       args ->
     Exec.commandDir w args = None) /\
  (forall (before after : list string) (absPath : string) (lineNumber column : Z),
     Forall (fun arg => Contains arg ".go:" = false /\ HasSuffix arg ".go" = false)
       before ->
     HasSuffix absPath ".go" = true -> Contains absPath ":" = false ->
     Exec.commandDir w
       (before ++ (absPath +:+ ":" +:+ itoa lineNumber +:+ ":" +:+ itoa column)
               :: after)
     = Some (filepath_Dir w absPath)) /\
  Exec.commandDir w ["references"; "/w/a:b/x.go:3:1"]
  = Some (filepath_Dir w "/w/a").
Proof.
  assert (Hfirst : forall (before after : list string) (arg : string),
     Forall (fun arg => Contains arg ".go:" = false /\ HasSuffix arg ".go" = false)
       before ->
     (Contains arg ".go:" = true ->
      Exec.commandDir w (before ++ arg :: after)
      = Some (filepath_Dir w (hd "" (splitOn colon arg)))) /\
     (Contains arg ".go:" = false -> HasSuffix arg ".go" = true ->
      Exec.commandDir w (before ++ arg :: after) = Some (filepath_Dir w arg))).
  { intros before after arg Hbefore. rewrite (commandDir_skips w _ _ Hbefore).
    cbn [Exec.commandDir]. split.
    - intros ->. pose proof (splitOn_nonempty colon arg) as Hne.
      destruct (splitOn colon arg); [congruence | reflexivity].
    - intros -> ->. reflexivity. }
  split; [|split; [exact Hfirst|split; [|split]]].
  - intros args st Hargs. unfold executeGoplsCommand.
    destruct args as [|a args]; [congruence|]. cbv zeta.
    rewrite bind_run. unfold exec_gopls. rewrite bind_run.
    cbn [fst snd emit ret].
    destruct (gopls w (a :: args)) as [output [err|]]; cbn [fst snd];
      [destruct (String.eqb (TrimSpace w output) "")|]; reflexivity.
  - intros args Hargs. rewrite <- (app_nil_r args).
    now rewrite (commandDir_skips w _ _ Hargs).
  - intros before after absPath lineNumber column Hbefore Hgo Hcolon.
    destruct (HasSuffix_split _ _ Hgo) as [p Hp].
    assert (Hcontains :
      Contains (absPath +:+ ":" +:+ itoa lineNumber +:+ ":" +:+ itoa column) ".go:"
      = true).
    { rewrite Hp, string_app_assoc.
      change (".go" +:+ ":" +:+ itoa lineNumber +:+ ":" +:+ itoa column)
        with (".go:" +:+ itoa lineNumber +:+ ":" +:+ itoa column).
      apply Contains_app. }
    rewrite (proj1 (Hfirst before after _ Hbefore) Hcontains).
    change (":" +:+ itoa lineNumber +:+ ":" +:+ itoa column)
      with (String colon (itoa lineNumber +:+ ":" +:+ itoa column)).
    rewrite splitOn_app, (splitOn_none colon absPath Hcolon). reflexivity.
  - reflexivity.
Qed.

Lemma commandDir_of_position_witness :
  Exec.commandDir Sample.vWorld ["rename"; "-w"; "/w/v.go:9:6"; "Pt"] = Some "/w" /\
  Exec.commandDir Sample.vWorld ["references"; "/w/a:b/x.go:3:1"] = Some "/w".
Proof.
  split.
  - apply (proj1 (proj2 (proj2 (proj2 (commandDir_of_position Sample.vWorld))))
             ["rename"; "-w"] ["Pt"] "/w/v.go" 9 6).
    + repeat constructor.
    + reflexivity.
    + reflexivity.
  - exact (proj2 (proj2 (proj2 (proj2 (commandDir_of_position Sample.vWorld))))).
Defined.

End RenameEffects.
Section CacheExtras.
Import Ast World Run Cache Stats Lookup.
Local Open Scope go_scope.

Ltac run_cache :=
  unfold GetOrParseFile, ClearCache, RemoveFile, bind, ret, lookupFile, os_Stat,
    os_ReadFile, emit, newCachedFile, storeFile in *; simpl in *.

(** X15. The statistics of the cache agree with its map: the number
    reported is the number of paths listed, no path is listed twice, and
    the paths listed are exactly those that have an entry; asking for the
    statistics changes nothing, and after [ClearCache] they report no file. *)
Theorem cache_stats_agree_with_map (w : World.t) (st : State) :
  rangeOrder_valid w ->
  snd (GetCacheStats w st) = st /\
  cached_files (fst (GetCacheStats w st))
  = Z.of_nat (length (cached_paths (fst (GetCacheStats w st)))) /\
  NoDup (cached_paths (fst (GetCacheStats w st))) /\
  (forall p : string,
     In p (cached_paths (fst (GetCacheStats w st))) <-> is_Some (files st !! p)) /\
  fst (GetCacheStats w (snd (ClearCache st)))
  = {| cached_files := 0; cached_paths := [] |}.
Proof.
  intros Hvalid. unfold GetCacheStats. cbn [fst snd cached_files cached_paths].
  pose proof (Hvalid (elements (dom (files st)))) as Hperm.
  split; [reflexivity|]. split; [|split; [|split]].
  - rewrite (Permutation_length Hperm). rewrite <- size_dom. reflexivity.
  - rewrite Hperm. apply NoDup_elements.
  - intros p. rewrite <- list_elem_of_In, Hperm, elem_of_elements, elem_of_dom.
    reflexivity.
  - unfold ClearCache. cbn [fst snd files]. rewrite dom_empty_L, elements_empty.
    pose proof (Hvalid []) as Hnil. apply Permutation_nil_r in Hnil.
    rewrite Hnil, map_size_empty. reflexivity.
Qed.

Lemma cache_stats_agree_with_map_witness :
  rangeOrder_valid Sample.oneFile /\
  NoDup (cached_paths (fst (GetCacheStats Sample.oneFile Sample.oldState))).
Proof.
  assert (Hvalid : rangeOrder_valid Sample.oneFile)
    by (intros keys; apply Permutation_refl).
  split; [exact Hvalid|].
  exact (proj1 (proj2 (proj2
           (cache_stats_agree_with_map Sample.oneFile Sample.oldState Hvalid)))).
Defined.

(** What [GetOrParseFile] answers for a path depends on the entry of that
    path and on the next address only. *)
Lemma GetOrParseFile_local (w : World.t) (q : string) (st st' : State) :
  files st' !! q = files st !! q -> nextAddr st' = nextAddr st ->
  fst (GetOrParseFile w q st') = fst (GetOrParseFile w q st).
Proof.
  intros Hq Hn. run_cache. rewrite Hq.
  destruct (files st !! q) as [c|]; simpl;
    [destruct (stat w q) as [now|b m] eqn:Hs; simpl;
     [destruct (After now (cf_modTime c)); simpl; [|reflexivity]|]|];
    (destruct (readFile w q) as [src|e]; simpl; [|reflexivity]);
    (destruct (pr_err (parse w q src)) as [[m'|m']|]; simpl; try reflexivity);
    (destruct (pr_file (parse w q src)); simpl; [|reflexivity]);
    rewrite ?Hs; simpl; try reflexivity;
    try (destruct (stat w q); simpl; [|reflexivity]);
    now rewrite Hn.
Qed.

(** X16. [RemoveFile] drops the entry of the path and no other: the next
    [GetOrParseFile] for the path starts by reading the file again, without
    examining it first, and when it succeeds it stores and returns an entry
    at a new address, while the answers for every other path are what they
    would have been; removing a path that has no entry changes nothing. *)
Theorem RemoveFile_forces_reparse (w : World.t) (p : string) (st : State) :
  files (snd (RemoveFile p st)) !! p = None /\
  (forall q : string,
     q <> p ->
     files (snd (RemoveFile p st)) !! q = files st !! q /\
     fst (GetOrParseFile w q (snd (RemoveFile p st)))
     = fst (GetOrParseFile w q st)) /\
  (exists evs : list Event,
     trace (snd (GetOrParseFile w p (snd (RemoveFile p st))))
     = trace st ++ EvReadFile p :: evs) /\
  (forall (c : cachedFile) (st2 : State),
     GetOrParseFile w p (snd (RemoveFile p st)) = (inl c, st2) ->
     cf_addr c = nextAddr st /\ files st2 !! p = Some c) /\
  (files st !! p = None -> snd (RemoveFile p st) = st).
Proof.
  split; [|split; [|split; [|split]]].
  - cbn. apply lookup_delete_eq.
  - intros q Hq.
    assert (Hsame : files (snd (RemoveFile p st)) !! q = files st !! q).
    { cbn. apply lookup_delete_ne. congruence. }
    split; [exact Hsame|]. now apply GetOrParseFile_local.
  - run_cache. rewrite lookup_delete_eq. simpl.
    destruct (readFile w p) as [src|e]; simpl; [|exists []; reflexivity].
    destruct (pr_err (parse w p src)) as [[m|m]|]; simpl;
      try (exists []; reflexivity);
      destruct (pr_file (parse w p src)); simpl; try (exists []; reflexivity);
      destruct (stat w p); simpl; rewrite <- ?app_assoc; eexists; reflexivity.
  - intros c st2 H.
    pose proof (GetOrParseFile_files w p (snd (RemoveFile p st))) as Hf.
    rewrite H in Hf. cbn [RemoveFile snd files nextAddr] in Hf.
    destruct Hf as [(_ & Hc & _) | (Hf & _ & Ha & _)].
    + rewrite lookup_delete_eq in Hc. discriminate.
    + split; [exact Ha|]. rewrite Hf. apply lookup_insert_eq.
  - intros Hnone. destruct st as [fs n tr]. cbn in *.
    rewrite delete_id by exact Hnone. reflexivity.
Qed.

(** X17. Syntax errors do not keep a file out of the cache: when the
    parser gives a tree together with its error list, [GetOrParseFile]
    returns and stores an entry holding that tree, and while the file is not
    modified the following calls return the same entry without reading the
    file again; the entry carries no sign of the errors. *)
Theorem syntax_errors_do_not_prevent_caching
    (w : World.t) (p : string) (st : State) (src msg : string) (file : File)
    (now : Z) :
  needsParse w p st = true -> readFile w p = inl src ->
  parse w p src = {| pr_file := Some file; pr_err := Some (ErrorList msg) |} ->
  stat w p = StatOk now ->
  exists (c : cachedFile) (st' : State),
    GetOrParseFile w p st = (inl c, st') /\
    cf_ast c = file /\ files st' !! p = Some c /\
    GetOrParseFile w p st'
    = (inl c, {| files := files st'; nextAddr := nextAddr st';
                 trace := trace st' ++ [EvStat p] |}).
Proof.
  intros Hneeds Hread Hparse Hstat.
  destruct (GetOrParseFile_parse w p st now src file) as (st' & Hg & Hfiles & _).
  - unfold needsParse in Hneeds. destruct (files st !! p); [|exact I].
    now rewrite Hstat in Hneeds.
  - exact Hstat.
  - exact Hread.
  - now rewrite Hparse.
  - intros e. rewrite Hparse. discriminate.
  - eexists. exists st'. split; [exact Hg|]. split; [reflexivity|].
    assert (Hlook : files st' !! p
                    = Some {| cf_addr := nextAddr st; cf_ast := file;
                              cf_modTime := now; cf_filePath := p |}).
    { rewrite Hfiles. apply lookup_insert_eq. }
    split; [exact Hlook|].
    apply (GetOrParseFile_hit w p st' _ now Hlook Hstat).
    unfold After. cbn. apply Z.ltb_irrefl.
Qed.

Lemma syntax_errors_do_not_prevent_caching_witness :
  exists (c : cachedFile) (st' : State),
    GetOrParseFile Scenario.brokenWorld "/w/b.go" Cache.initial = (inl c, st') /\
    cf_ast c = Scenario.brokenTree /\ files st' !! "/w/b.go" = Some c /\
    GetOrParseFile Scenario.brokenWorld "/w/b.go" st'
    = (inl c, {| files := files st'; nextAddr := nextAddr st';
                 trace := trace st' ++ [EvStat "/w/b.go"] |}).
Proof.
  exact (syntax_errors_do_not_prevent_caching Scenario.brokenWorld "/w/b.go"
           Cache.initial Scenario.brokenSource
           "/w/b.go:3:7: expected type, found 'EOF'" Scenario.brokenTree 100
           eq_refl eq_refl eq_refl eq_refl).
Defined.

Lemma runOp_dom (w : World.t) (op : Op) (st : State) :
  dom (files (runOp w op st))
  ⊆ dom (files st) ∪ list_to_set (match op with OpGet p => [p] | _ => [] end).
Proof.
  destruct op as [p| |p]; cbn [runOp list_to_set].
  - pose proof (GetOrParseFile_files w p st) as H.
    destruct (GetOrParseFile w p st) as [[c|e] st']; cbn [snd].
    + destruct H as [(Hf & _) | (Hf & _)]; rewrite Hf.
      * apply union_subseteq_l.
      * rewrite dom_insert_L, union_empty_r_L, (comm_L (∪)). reflexivity.
    + destruct H as [Hf _]. rewrite Hf. apply union_subseteq_l.
  - cbn. rewrite dom_empty_L. apply empty_subseteq.
  - cbn. rewrite dom_delete_L, union_empty_r_L. apply subseteq_difference_l.
    reflexivity.
Qed.

(** X18. The cache holds entries only for paths that were asked for:
    whatever operations run, in whatever worlds, from a state [st], every
    path with an entry had one in [st] or was given to [GetOrParseFile];
    started from the empty cache, the cache never holds more entries than
    calls of [GetOrParseFile] were made. *)
Theorem cache_holds_requested_paths
    (steps : list (World.t * Op)) (st : State) :
  dom (files (runSteps steps st))
  ⊆ dom (files st) ∪ list_to_set (requestedPaths steps) /\
  (size (files (runSteps steps initial)) <= length (requestedPaths steps))%nat.
Proof.
  assert (Hdom : forall st0,
            dom (files (runSteps steps st0))
            ⊆ dom (files st0) ∪ list_to_set (requestedPaths steps)).
  { induction steps as [|[w op] steps IH]; intros st0.
    - cbn. apply union_subseteq_l.
    - cbn [runSteps fold_left fst snd]. fold (runSteps steps (runOp w op st0)).
      cbn [requestedPaths flat_map snd]. fold (requestedPaths steps).
      rewrite list_to_set_app_L, (assoc_L (∪)).
      etransitivity; [apply IH|].
      apply union_mono_r, runOp_dom. }
  split; [apply Hdom|].
  rewrite <- size_dom.
  etransitivity; [apply subseteq_size, Hdom|].
  cbn [initial files]. rewrite dom_empty_L, union_empty_l_L.
  generalize (requestedPaths steps). intros l.
  induction l as [|x l IH]; cbn [list_to_set length].
  - rewrite size_empty. lia.
  - rewrite size_union_alt, size_singleton.
    pose proof (subseteq_size (list_to_set l ∖ {[x]}) (list_to_set l : gset string)
                  (subseteq_difference_l _ _ _ (reflexivity _))).
    lia.
Qed.

(** X19. An entry [GetOrParseFile] returns is current and is the entry of
    the cache: in a reachable state, after a successful call the map holds
    the returned entry under the path asked for, the entry records that
    path, and the file exists with a modification time that is not after
    the time recorded in the entry. *)
Theorem GetOrParseFile_returns_current_entry
    (w : World.t) (p : string) (st st' : State) (c : cachedFile) :
  reachable st -> GetOrParseFile w p st = (inl c, st') ->
  files st' !! p = Some c /\ cf_filePath c = p /\
  exists now : Z, stat w p = StatOk now /\ now <= cf_modTime c.
Proof.
  intros Hr H. pose proof (cache_inv_reachable st Hr) as Hinv.
  pose proof (GetOrParseFile_files w p st) as Hf. rewrite H in Hf.
  assert (Hlook : files st' !! p = Some c /\ cf_filePath c = p).
  { destruct Hf as [(Hfs & Hc & _) | (Hfs & Hp & _)].
    - rewrite Hfs. split; [exact Hc | exact (proj1 (Hinv p c Hc))].
    - rewrite Hfs. split; [apply lookup_insert_eq | exact Hp]. }
  split; [exact (proj1 Hlook)|]. split; [exact (proj2 Hlook)|].
  clear Hf Hlook Hinv Hr. run_cache.
  assert (Hnew : forall (now t : Z) (file : File) (n : nat),
            stat w p = StatOk now ->
            {| cf_addr := n; cf_ast := file; cf_modTime := t; cf_filePath := p |} = c ->
            t = now ->
            exists now0 : Z, stat w p = StatOk now0 /\ now0 <= cf_modTime c).
  { intros now t file n Hs <- ->. exists now. split; [exact Hs | cbn; lia]. }
  destruct (files st !! p) as [d|]; simpl in H.
  - destruct (stat w p) as [now|b m] eqn:Hs; simpl in H.
    + destruct (After now (cf_modTime d)) eqn:Ha; simpl in H.
      * destruct (readFile w p) as [src|e]; simpl in H; [|discriminate].
        destruct (pr_err (parse w p src)) as [[m|m]|]; simpl in H;
          try discriminate;
          (destruct (pr_file (parse w p src)); simpl in H; [|discriminate]);
          rewrite ?Hs in H; simpl in H; injection H as H _;
          exact (Hnew now _ _ _ eq_refl H eq_refl).
      * injection H as <- _. exists now. split; [reflexivity|].
        unfold After in Ha. apply Z.ltb_ge in Ha. exact Ha.
    + destruct (readFile w p) as [src|e]; simpl in H; [|discriminate].
      destruct (pr_err (parse w p src)) as [[m'|m']|]; simpl in H;
        try discriminate;
        (destruct (pr_file (parse w p src)); simpl in H; [|discriminate]);
        rewrite ?Hs in H; simpl in H; discriminate.
  - destruct (readFile w p) as [src|e]; simpl in H; [|discriminate].
    destruct (pr_err (parse w p src)) as [[m|m]|]; simpl in H;
      try discriminate;
      (destruct (pr_file (parse w p src)); simpl in H; [|discriminate]);
      (destruct (stat w p) as [now|b m'] eqn:Hs; simpl in H; [|discriminate]);
      injection H as H _; exact (Hnew now _ _ _ eq_refl H eq_refl).
Qed.

Lemma GetOrParseFile_returns_current_entry_witness :
  files (snd (GetOrParseFile Sample.oneFile "/w/a.go" Cache.initial)) !! "/w/a.go"
  = Some {| cf_addr := 0; cf_ast := Sample.emptyFile "a"; cf_modTime := 200;
            cf_filePath := "/w/a.go" |}.
Proof.
  apply (GetOrParseFile_returns_current_entry Sample.oneFile "/w/a.go"
           Cache.initial _ _ reach_initial).
  vm_compute. reflexivity.
Defined.

End CacheExtras.
Section PathArgument.
Import GoString GoLib Tool.

Lemma prefix_app_l (x p r : string) :
  String.prefix x p = true -> String.prefix x (p +:+ r) = true.
Proof.
  revert p. induction x as [|c x IH]; intros p H;
    [destruct (p +:+ r); reflexivity|].
  destruct p as [|d p]; [discriminate|].
  rewrite app_String. cbn [String.prefix] in *.
  destruct (ascii_dec c d); [now apply IH | discriminate].
Qed.

Lemma Contains_app_l (p r x : string) :
  Contains p x = true -> Contains (p +:+ r) x = true.
Proof.
  induction p as [|c p IH]; cbn [Contains]; intros H.
  - rewrite orb_false_r in H. destruct x; [|discriminate].
    destruct ("" +:+ r); reflexivity.
  - rewrite app_String. cbn [Contains]. apply orb_true_iff in H as [H|H].
    + change (String c (p +:+ r)) with (String c p +:+ r).
      rewrite (prefix_app_l _ _ _ H). reflexivity.
    + rewrite (IH H). apply orb_true_r.
Qed.

Lemma isFilePath_app (p r : string) :
  isFilePath p = true -> isFilePath (p +:+ r) = true.
Proof.
  unfold isFilePath, HasPrefix. intros H.
  apply orb_true_iff in H as [H|H]; [apply orb_true_iff in H as [H|H];
    [apply orb_true_iff in H as [H|H]|]|].
  - now rewrite (Contains_app_l _ _ _ H).
  - rewrite (prefix_app_l _ _ _ H). now rewrite orb_true_r.
  - rewrite (prefix_app_l _ _ _ H). now rewrite !orb_true_r.
  - rewrite (prefix_app_l _ _ _ H). now rewrite !orb_true_r.
Qed.

Lemma isIdentifierChar_not_colon (c : ascii) :
  Position.isIdentifierChar (rune c) = true -> Ascii.eqb c colon = false.
Proof.
  intros H. destruct (Ascii.eqb_spec c colon) as [->|]; [|reflexivity].
  discriminate H.
Qed.

Lemma allIdentifierChars_no_colon (s : string) :
  allIdentifierChars s = true -> Contains s ":" = false.
Proof.
  induction s as [|c s IH]; [reflexivity|]. cbn [allIdentifierChars].
  intros H. apply andb_true_iff in H as [Hc Hs].
  change ":" with (String colon ""). rewrite Contains_cons.
  rewrite Ascii.eqb_sym, (isIdentifierChar_not_colon c Hc). now apply IH.
Qed.

Lemma isIdentifierStart_char (c : ascii) :
  isIdentifierStart c = true -> Position.isIdentifierChar (rune c) = true.
Proof.
  unfold isIdentifierStart, Position.isIdentifierChar. cbv zeta. intros H.
  apply orb_true_iff in H as [H|H]; [apply orb_true_iff in H as [H|H]|];
    rewrite H; rewrite ?orb_true_r; reflexivity.
Qed.

Lemma matchesIdentifier_no_colon (s : string) :
  matchesIdentifier s = true -> Contains s ":" = false.
Proof.
  destruct s as [|c s]; [discriminate|]. cbn [matchesIdentifier]. intros H.
  apply andb_true_iff in H as [Hc Hs].
  apply (allIdentifierChars_no_colon (String c s)). cbn [allIdentifierChars].
  now rewrite (isIdentifierStart_char c Hc).
Qed.

(** An identifier is not a number for [strconv.Atoi]. *)
Lemma Atoi_identifier (s : string) : matchesIdentifier s = true -> Atoi s = None.
Proof.
  destruct s as [|c s]; [discriminate|]. cbn [matchesIdentifier]. intros H.
  apply andb_true_iff in H as [Hc _]. unfold Atoi.
  assert (Hd : (0 <=? rune c - 48) && (rune c - 48 <=? 9) = false).
  { unfold isIdentifierStart in Hc. cbv zeta in Hc.
    apply andb_false_iff.
    destruct (0 <=? rune c - 48) eqn:E1; [right | now left].
    apply Z.leb_gt. apply Z.leb_le in E1.
    apply orb_true_iff in Hc as [Hc|Hc]; [apply orb_true_iff in Hc as [Hc|Hc]|].
    - apply andb_true_iff in Hc as [Hc _]. apply Z.leb_le in Hc. lia.
    - apply andb_true_iff in Hc as [Hc _]. apply Z.leb_le in Hc. lia.
    - apply Z.eqb_eq in Hc. lia. }
  assert (Hm : c <> "-"%char /\ c <> "+"%char).
  { split; intros ->; discriminate Hc. }
  destruct Hm as [Hm Hp].
  assert (Hgen : match String c s with
                 | String "-" t =>
                     option_map Z.opp
                       (match t with "" => None | _ => digitsValue t 0 end)
                 | String "+" t =>
                     match t with "" => None | _ => digitsValue t 0 end
                 | _ => digitsValue (String c s) 0
                 end = None).
  { destruct c as [[|] [|] [|] [|] [|] [|] [|] [|]]; try congruence;
      cbn [digitsValue]; rewrite Hd; reflexivity. }
  rewrite Hgen. reflexivity.
Qed.

(** X20. The path argument of the inspect tool, for a file path (one that
    holds [.go] or starts with [/], [./] or [../]) without a colon, is read
    as documented: alone it is the path, with no line and no symbol;
    followed by a colon and a line number it gives the path and the line;
    followed further by a colon and a symbol name it gives all three; and
    followed by a colon and an identifier it gives the path and the symbol,
    with no line. *)
Theorem file_path_argument_formats (p sym : string) (n : Z) :
  isFilePath p = true -> Contains p ":" = false ->
  parsePath p = (p, 0, "") /\
  (isInt n = true ->
   parsePath (p +:+ ":" +:+ itoa n) = (p, n, "") /\
   (Contains sym ":" = false ->
    parsePath (p +:+ ":" +:+ itoa n +:+ ":" +:+ sym) = (p, n, sym))) /\
  (matchesIdentifier sym = true -> parsePath (p +:+ ":" +:+ sym) = (p, 0, sym)).
Proof.
  intros Hfile Hcolon. unfold parsePath.
  split; [|split].
  - rewrite Hfile. unfold parseFilePath.
    rewrite (splitOn_none colon p Hcolon). reflexivity.
  - intros Hn. split.
    + rewrite (isFilePath_app _ _ Hfile). unfold parseFilePath.
      change (":" +:+ itoa n) with (String colon (itoa n)).
      rewrite splitOn_app, (splitOn_none colon p Hcolon).
      rewrite (splitOn_none colon (itoa n)) by apply itoa_no_colon.
      cbn [app nth]. now rewrite (Atoi_itoa n Hn).
    + intros Hsym. rewrite (isFilePath_app _ _ Hfile). unfold parseFilePath.
      change (":" +:+ itoa n +:+ ":" +:+ sym)
        with (String colon (itoa n +:+ String colon sym)).
      rewrite splitOn_app, (splitOn_none colon p Hcolon).
      rewrite splitOn_app, (splitOn_none colon (itoa n)) by apply itoa_no_colon.
      rewrite (splitOn_none colon sym Hsym).
      cbn [app nth]. now rewrite (Atoi_itoa n Hn).
  - intros Hid. rewrite (isFilePath_app _ _ Hfile). unfold parseFilePath.
    change (":" +:+ sym) with (String colon sym).
    rewrite splitOn_app, (splitOn_none colon p Hcolon).
    rewrite (splitOn_none colon sym) by now apply matchesIdentifier_no_colon.
    cbn [app nth]. now rewrite (Atoi_identifier sym Hid).
Qed.

Lemma file_path_argument_formats_witness :
  parsePath "/w/v.go:42:Point" = ("/w/v.go", 42, "Point").
Proof.
  exact (proj2 (proj1 (proj2 (file_path_argument_formats "/w/v.go" "Point" 42
                                eq_refl eq_refl)) eq_refl) eq_refl).
Defined.

End PathArgument.
Section ImportPathArgument.
Import GoString GoLib Tool.

Lemma get_app_skip (a b : string) (i : nat) :
  String.get (String.length a + i) (a +:+ b) = String.get i b.
Proof. induction a as [|c a IH]; [reflexivity | exact IH]. Qed.

Lemma index_nat (s : string) (i : nat) : index s (Z.of_nat i) = String.get i s.
Proof.
  unfold index. replace (Z.of_nat i <? 0) with false
    by (symmetry; apply Z.ltb_ge; lia).
  now rewrite Nat2Z.id.
Qed.

Lemma slice_after (a b : string) :
  slice (a +:+ b) (Z.of_nat (String.length a)) (len (a +:+ b)) = b.
Proof.
  unfold slice, len. rewrite Nat2Z.id, string_length_app.
  replace (Z.to_nat (Z.of_nat (String.length a + String.length b)
                     - Z.of_nat (String.length a)))
    with (String.length b) by lia.
  rewrite substring_skip. apply substring_all.
Qed.

Lemma slice_before (a b : string) :
  slice (a +:+ b) 0 (Z.of_nat (String.length a)) = a.
Proof.
  unfold slice. rewrite Z.sub_0_r, Nat2Z.id. apply substring_prefix.
Qed.

Lemma get_identifier_char (s : string) (k : nat) (c : ascii) :
  allIdentifierChars s = true -> String.get k s = Some c ->
  Position.isIdentifierChar (rune c) = true.
Proof.
  revert k. induction s as [|d s IH]; intros k Hs Hget; [discriminate|].
  cbn [allIdentifierChars] in Hs. apply andb_true_iff in Hs as [Hd Hs].
  destruct k as [|k]; cbn [String.get] in Hget.
  - injection Hget as <-. exact Hd.
  - exact (IH k Hs Hget).
Qed.

Lemma get_in_range (s : string) (k : nat) :
  (k < String.length s)%nat -> exists c, String.get k s = Some c.
Proof.
  revert k. induction s as [|d s IH]; intros k Hk; [simpl in Hk; lia|].
  destruct k as [|k]; [eexists; reflexivity|].
  apply IH. simpl in Hk. lia.
Qed.

Lemma identifier_not_number (s : string) :
  matchesIdentifier s = true -> matchesNumber s = false.
Proof.
  destruct s as [|c s]; [discriminate|]. cbn [matchesIdentifier matchesNumber].
  intros H. apply andb_true_iff in H as [Hc _].
  assert (Hd : isDigit c = false).
  { unfold isIdentifierStart in Hc. unfold isDigit. cbv zeta in Hc.
    apply andb_false_iff.
    destruct (48 <=? rune c) eqn:E1; [right | now left].
    apply Z.leb_gt. apply Z.leb_le in E1.
    apply orb_true_iff in Hc as [Hc|Hc]; [apply orb_true_iff in Hc as [Hc|Hc]|].
    - apply andb_true_iff in Hc as [Hc _]. apply Z.leb_le in Hc. lia.
    - apply andb_true_iff in Hc as [Hc _]. apply Z.leb_le in Hc. lia.
    - apply Z.eqb_eq in Hc. lia. }
  now rewrite Hd.
Qed.

(** The scan from the end stops at the colon before an identifier. *)
Lemma lastSymbolColon_found (p sym : string) (k : nat) :
  matchesIdentifier sym = true -> (k <= String.length sym)%nat ->
  lastSymbolColon (p +:+ ":" +:+ sym) (S (String.length p + k))
  = Z.of_nat (String.length p).
Proof.
  intros Hid. induction k as [|k IH]; intros Hk.
  - rewrite Nat.add_0_r. cbn [lastSymbolColon].
    rewrite index_nat.
    change (":" +:+ sym) with (String colon sym).
    rewrite get_app_at, Ascii.eqb_refl.
    replace (Z.of_nat (String.length p) + 1)
      with (Z.of_nat (String.length (p +:+ ":"))) 
      by (rewrite string_length_app; simpl; lia).
    change (String colon sym) with (":" +:+ sym).
    rewrite <- string_app_assoc, slice_after.
    rewrite (identifier_not_number sym Hid), Hid.
    destruct sym; [discriminate | reflexivity].
  - cbn [lastSymbolColon]. rewrite index_nat.
    replace (String.length p + S k)%nat
      with (String.length (p +:+ ":") + k)%nat
      by (rewrite string_length_app; simpl; lia).
    rewrite <- string_app_assoc, get_app_skip.
    destruct (get_in_range sym k ltac:(lia)) as [c Hc]. rewrite Hc.
    assert (Hchar : Position.isIdentifierChar (rune c) = true).
    { apply (get_identifier_char sym k c); [|exact Hc].
      destruct sym as [|d sym]; [discriminate|].
      cbn [matchesIdentifier] in Hid. apply andb_true_iff in Hid as [Hd Hs].
      cbn [allIdentifierChars]. now rewrite (isIdentifierStart_char d Hd). }
    rewrite (isIdentifierChar_not_colon c Hchar).
    rewrite string_app_assoc.
    replace (String.length (p +:+ ":") + k)%nat
      with (S (String.length p + k))
      by (rewrite string_length_app; simpl; lia).
    apply IH. lia.
Qed.

Lemma string_split_at (s : string) (i : nat) (c : ascii) :
  String.get i s = Some c ->
  s = String.substring 0 i s
      +:+ String c (String.substring (S i) (String.length s - S i) s).
Proof.
  revert i. induction s as [|d s IH]; intros i H; [discriminate|].
  destruct i as [|i]; cbn [String.get] in H.
  - injection H as <-.
    replace (String.length (String d s) - 1)%nat with (String.length s)
      by (cbn [String.length]; lia).
    cbn [String.substring]. rewrite substring_all. reflexivity.
  - replace (String.length (String d s) - S (S i))%nat
      with (String.length s - S i)%nat by (cbn [String.length]; lia).
    cbn [String.substring]. rewrite app_String. f_equal.
    exact (IH i H).
Qed.

(** Without an identifier after a colon the scan finds nothing. *)
Lemma lastSymbolColon_none (s : string) (n : nat) :
  (forall a b, s = a +:+ ":" +:+ b -> matchesIdentifier b = false) ->
  lastSymbolColon s n = -1.
Proof.
  intros Hnone. induction n as [|i IH]; [reflexivity|].
  cbn [lastSymbolColon]. rewrite index_nat.
  destruct (String.get i s) as [c|] eqn:Hget; [|exact IH].
  destruct (Ascii.eqb_spec c colon) as [->|]; [|exact IH].
  pose proof (string_split_at s i colon Hget) as Hsplit.
  unfold slice, len.
  replace (Z.to_nat (Z.of_nat i + 1)) with (S i) by lia.
  replace (Z.to_nat (Z.of_nat (String.length s) - (Z.of_nat i + 1)))
    with (String.length s - S i)%nat by lia.
  rewrite (Hnone _ _ Hsplit). rewrite andb_false_r. exact IH.
Qed.

(** X21. The path argument of the inspect tool, when it is not taken for
    a file path (it holds no [.go] and has no [/], [./] or [../] at its
    start): when it ends in a colon and an identifier, the identifier is the
    symbol and what precedes the colon is the path, even when that holds
    colons itself (a port number); when no colon of it is followed by an
    identifier up to the end, the whole argument is the path and there is no
    symbol.  The line number is 0 in both cases.  An import path that holds
    [.go], as that of a host [google.golang.org], is not read this way: it
    is taken for a file path and cut at its first colon. *)
Theorem import_path_argument_formats (p sym s : string) :
  (p <> "" -> matchesIdentifier sym = true ->
   isFilePath (p +:+ ":" +:+ sym) = false ->
   parsePath (p +:+ ":" +:+ sym) = (p, 0, sym)) /\
  (isFilePath s = false ->
   (forall a b, s = a +:+ ":" +:+ b -> matchesIdentifier b = false) ->
   parsePath s = (s, 0, "")) /\
  (forall host rest : string,
     Contains host ".go" = true -> Contains host ":" = false ->
     parsePath (host +:+ ":" +:+ rest) = parseFilePath (host +:+ ":" +:+ rest) /\
     fst (fst (parsePath (host +:+ ":" +:+ rest))) = host) /\
  parsePath "google.golang.org:443/grpc:Dial" = ("google.golang.org", 0, "443/grpc").
Proof.
  split; [|split; [|split]].
  - intros Hp Hid Hfile. unfold parsePath, parseImportPath. rewrite Hfile.
    replace (String.length (p +:+ ":" +:+ sym))
      with (S (String.length p + String.length sym))
      by (rewrite !string_length_app; simpl; lia).
    rewrite (lastSymbolColon_found p sym (String.length sym) Hid (le_n _)).
    replace (0 <? Z.of_nat (String.length p)) with true.
    2:{ symmetry. apply Z.ltb_lt. destruct p; [congruence | simpl; lia]. }
    rewrite slice_before.
    replace (Z.of_nat (String.length p) + 1)
      with (Z.of_nat (String.length (p +:+ ":")))
      by (rewrite string_length_app; simpl; lia).
    rewrite <- string_app_assoc, slice_after. reflexivity.
  - intros Hfile Hnone. unfold parsePath, parseImportPath. rewrite Hfile.
    rewrite (lastSymbolColon_none s _ Hnone). reflexivity.
  - intros host rest Hgo Hcolon.
    assert (Hfile : isFilePath (host +:+ ":" +:+ rest) = true).
    { unfold isFilePath. now rewrite (Contains_app_l _ _ _ Hgo). }
    unfold parsePath. rewrite Hfile. split; [reflexivity|].
    unfold parseFilePath.
    change (":" +:+ rest) with (String colon rest).
    rewrite splitOn_app, (splitOn_none colon host Hcolon). cbn [app nth].
    pose proof (splitOn_nonempty colon rest) as Hne.
    destruct (splitOn colon rest) as [|part1 more]; [congruence|].
    destruct (Atoi part1); reflexivity.
  - reflexivity.
Qed.

Lemma import_path_argument_formats_witness :
  parsePath "example.com:8080/m/pkg:Point" = ("example.com:8080/m/pkg", 0, "Point").
Proof.
  exact (proj1 (import_path_argument_formats "example.com:8080/m/pkg" "Point" "")
           ltac:(discriminate) eq_refl eq_refl).
Defined.

End ImportPathArgument.
Section ToolHandlers.
Import World Run GoString GoLib Tool.
Local Open Scope go_scope.

Context {float64 : Type} (int_of_float64 : float64 -> Z).

Lemma present_false (v : option (@Any float64)) :
  present v = false ->
  negb (snd (asString v)) || String.eqb (fst (asString v)) "" = true.
Proof.
  unfold present. destruct (snd (asString v)), (String.eqb (fst (asString v)) "");
    cbn; congruence.
Qed.

Lemma present_true (v : option (@Any float64)) :
  present v = true ->
  negb (snd (asString v)) || String.eqb (fst (asString v)) "" = false.
Proof.
  unfold present. destruct (snd (asString v)), (String.eqb (fst (asString v)) "");
    cbn; congruence.
Qed.

(** X22. The handler of the inspect tool answers a request without a
    non-empty string [path] with an error, and one without a non-empty
    string [workspace_dir] with the result that says so, in both cases
    without any call leaving the process or any change of the cache.  For any
    other request it does what [Inspect] does on the path, line and symbol
    taken from [path], showing private declarations unless [only_exported]
    is true, and when [Inspect] returns it returns a result, never an error:
    the text of [Inspect], or its error as a text flagged [IsError]; it
    does not return when [Inspect] panics. *)
Theorem handleInspect_contract
    (w : World.t) (arguments : gmap string (@Any float64)) (st : State) :
  (present (arguments !! "path") = false ->
   handleInspect w arguments st
   = (Some (inr "path argument is required and must be a string"), st)) /\
  (present (arguments !! "path") = true ->
   present (arguments !! "workspace_dir") = false ->
   handleInspect w arguments st
   = (Some (inl {| Content := "Error: workspace_dir is required.";
                   IsError := true |}),
      st)) /\
  (present (arguments !! "path") = true ->
   present (arguments !! "workspace_dir") = true ->
   let request := parsePath (fst (asString (arguments !! "path"))) in
   let run :=
     Format.Inspect w (fst (fst request)) (snd (fst request)) (snd request)
       (negb (fst (asBool (arguments !! "only_exported"))))
       (fst (asString (arguments !! "workspace_dir"))) st in
   snd (handleInspect w arguments st) = snd run /\
   fst (handleInspect w arguments st)
   = match fst run with
     | Some (inl summary) =>
         Some (inl {| Content := summary; IsError := false |})
     | Some (inr err) =>
         Some (inl {| Content := "Error inspecting symbol: " +:+ err;
                      IsError := true |})
     | None => None
     end).
Proof.
  unfold handleInspect.
  destruct (asString (arguments !! "path")) as [pathStr ok] eqn:Hpath.
  split; [|split].
  - intros Hp. apply present_false in Hp. rewrite Hpath in Hp. cbn [fst snd] in Hp.
    rewrite Hp. reflexivity.
  - intros Hp Hw. apply present_true in Hp. rewrite Hpath in Hp.
    cbn [fst snd] in Hp. rewrite Hp.
    destruct (parsePath pathStr) as [[path line] name].
    destruct (asBool (arguments !! "only_exported")) as [onlyExported ok'].
    apply present_false in Hw.
    destruct (asString (arguments !! "workspace_dir")) as [ws okw].
    cbn [fst snd] in Hw. rewrite Hw. reflexivity.
  - intros Hp Hw. apply present_true in Hp. rewrite Hpath in Hp.
    cbn [fst snd] in Hp. rewrite Hp. cbn [fst snd].
    destruct (parsePath pathStr) as [[path line] name].
    destruct (asBool (arguments !! "only_exported")) as [onlyExported ok'].
    apply present_true in Hw.
    destruct (asString (arguments !! "workspace_dir")) as [ws okw].
    cbn [fst snd] in *. rewrite Hw. cbv zeta. rewrite bind_run.
    destruct (Format.Inspect w path line name (negb onlyExported) ws st)
      as [[[summary|err]|] st']; split; reflexivity.
Qed.

(** X23. The handler of the rename tool answers with an error, without
    any call leaving the process, a request in which [file_path],
    [old_name] or [new_name] is not a non-empty string or [line_number] is
    not a number.  For any other request it does what [Rename] does at the
    line [int(line_number)] and returns a result, never an error: the text
    of [Rename], or its error as a text flagged [IsError]. *)
Theorem handleRename_contract
    (w : World.t) (arguments : gmap string (@Any float64)) (st : State) :
  (present (arguments !! "file_path") = false
   \/ asFloat64 (arguments !! "line_number") = None
   \/ present (arguments !! "old_name") = false
   \/ present (arguments !! "new_name") = false ->
   exists err : string,
     handleRename int_of_float64 w arguments st = (inr err, st)) /\
  (forall lineNumberFloat : float64,
     present (arguments !! "file_path") = true ->
     asFloat64 (arguments !! "line_number") = Some lineNumberFloat ->
     present (arguments !! "old_name") = true ->
     present (arguments !! "new_name") = true ->
     let run :=
       Gopls.Rename w (fst (asString (arguments !! "file_path")))
         (int_of_float64 lineNumberFloat)
         (fst (asString (arguments !! "old_name")))
         (fst (asString (arguments !! "new_name"))) st in
     snd (handleRename int_of_float64 w arguments st) = snd run /\
     fst (handleRename int_of_float64 w arguments st)
     = inl match fst run with
           | inl result => {| Content := result; IsError := false |}
           | inr err =>
               {| Content := "Error renaming symbol: " +:+ err; IsError := true |}
           end).
Proof.
  unfold handleRename.
  pose proof (present_false (arguments !! "file_path")) as Hf0.
  pose proof (present_true (arguments !! "file_path")) as Hf1.
  pose proof (present_false (arguments !! "old_name")) as Ho0.
  pose proof (present_true (arguments !! "old_name")) as Ho1.
  pose proof (present_false (arguments !! "new_name")) as Hn0.
  pose proof (present_true (arguments !! "new_name")) as Hn1.
  destruct (present (arguments !! "file_path"));
    destruct (asString (arguments !! "file_path")) as [filePath okf];
    cbn [fst snd] in *.
  2:{ rewrite (Hf0 eq_refl). split; [eauto | discriminate]. }
  rewrite (Hf1 eq_refl).
  destruct (asFloat64 (arguments !! "line_number")) as [f|].
  2:{ split; [eauto | discriminate]. }
  destruct (present (arguments !! "old_name"));
    destruct (asString (arguments !! "old_name")) as [oldName oko];
    cbn [fst snd] in *.
  2:{ rewrite (Ho0 eq_refl). split; [eauto | discriminate]. }
  rewrite (Ho1 eq_refl).
  destruct (present (arguments !! "new_name"));
    destruct (asString (arguments !! "new_name")) as [newName okn];
    cbn [fst snd] in *.
  2:{ rewrite (Hn0 eq_refl). split; [eauto | discriminate]. }
  rewrite (Hn1 eq_refl). split.
  - intros [H|[H|[H|H]]]; discriminate H.
  - intros f' _ Hfl _ _. injection Hfl as <-. cbv zeta. rewrite bind_run.
    destruct (Gopls.Rename w filePath (int_of_float64 f) oldName newName st)
      as [[result|err] st']; split; reflexivity.
Qed.

End ToolHandlers.

Section ToolHandlerExamples.
Import World Run GoString Tool.

Lemma handleInspect_contract_witness :
  handleInspect Sample.vWorld
    ({[ "path" := AnyString "/w/v.go:9" ]} : gmap string (@Any Z)) Cache.initial
  = (Some (inl {| Content := "Error: workspace_dir is required.";
                  IsError := true |}),
     Cache.initial).
Proof.
  exact (proj1 (proj2 (handleInspect_contract Sample.vWorld
                         ({[ "path" := AnyString "/w/v.go:9" ]}
                          : gmap string (@Any Z)) Cache.initial))
           eq_refl eq_refl).
Defined.

Lemma handleRename_contract_witness :
  exists err : string,
    handleRename (fun z : Z => z) Sample.vWorld
      ({[ "file_path" := AnyString "/w/v.go" ]} : gmap string (@Any Z))
      Cache.initial
    = (inr err, Cache.initial).
Proof.
  apply (proj1 (handleRename_contract (fun z : Z => z) Sample.vWorld
                  ({[ "file_path" := AnyString "/w/v.go" ]}
                   : gmap string (@Any Z)) Cache.initial)).
  right. left. reflexivity.
Defined.

End ToolHandlerExamples.
Section TypeMethods.
Import Ast World Run GoString Cache Gopls Format Lookup.
Local Open Scope go_scope.

Lemma functionCalls_app (a b : list Out) :
  functionCalls (a ++ b) = functionCalls a ++ functionCalls b.
Proof. unfold functionCalls. now rewrite callsOf_app, flat_map_app. Qed.

Lemma methodsOf_flat_map (typeName : string) (file : File) :
  methodsOf typeName file
  = flat_map
      (fun decl =>
         match decl with
         | FuncDeclNode funcDecl =>
             match fn_Recv funcDecl with
             | Some (recvType :: _) =>
                 if String.eqb (extractReceiverTypeName recvType) typeName
                 then [funcDecl] else []
             | _ => []
             end
         | _ => []
         end)
      (f_Decls file).
Proof.
  unfold methodsOf.
  match goal with
  | |- _ = flat_map ?g _ => rewrite (fold_left_appends _ g)
  end.
  - reflexivity.
  - intros acc [d|g|]; try (now rewrite app_nil_r).
    destruct (fn_Recv d) as [[|recv more]|]; try (now rewrite app_nil_r).
    destruct (String.eqb (extractReceiverTypeName recv) typeName);
      [reflexivity | now rewrite app_nil_r].
Qed.

Lemma receiver_of (recv : Expr) (typeName : string) :
  typeName <> "" ->
  (String.eqb (extractReceiverTypeName recv) typeName = true
   <-> recv = Ident typeName \/ recv = StarExpr (Ident typeName)).
Proof.
  intros Hne. rewrite String.eqb_eq. split.
  - destruct recv as [name|[name| | |]| |]; cbn [extractReceiverTypeName];
      intros H; subst; try congruence; auto.
  - intros [->| ->]; reflexivity.
Qed.

Lemma methods_loop_calls (w : World.t) (ws : string) (methods : list FuncDecl) :
  forall (out : list Out) (st : State),
    functionCalls
      (fst (forEach methods
              (fun method out =>
                 o <- formatFunctionWith noSection noSection w method
                        false false ws ;;
                 ret (out ++ [Text (nl +:+ nl); Call (WFunction method) o]))
              out st))
    = functionCalls out ++ methods.
Proof.
  induction methods as [|m methods IH]; intros out st; cbn [forEach].
  - cbn. now rewrite app_nil_r.
  - rewrite bind_run, IH, bind_run. cbn [fst snd ret].
    rewrite functionCalls_app. cbn. now rewrite <- app_assoc.
Qed.

(** X24. After a type, [formatType] lists the methods of the type and no
    other function: with the methods asked for (and no implementers
    section, as for every type that is not an interface), the functions it
    formats are those of the file's cached tree whose first receiver is the
    type or a pointer to it, in the order of the source, and none when the
    file cannot be parsed.  A method whose receiver has another form (an
    instantiated generic type, say) is not listed, nor is a declaration
    whose receiver list is empty. *)
Theorem type_methods_listed
    (w : World.t) (ts : TypeSpec) (includeReferences includeImplementers : bool)
    (parent : option GenDecl) (ws : string) (st : State) :
  (includeImplementers = false \/ isInterface (ts_Type ts) = false ->
   functionCalls
     (fst (formatType w ts includeReferences includeImplementers true parent ws st))
   = match fst (GetOrParseFile w (Filename (ts_Pos ts)) st) with
     | inl c => methodsOf (ts_Name ts) (cf_ast c)
     | inr _ => []
     end) /\
  (forall (file : File) (m : FuncDecl),
     ts_Name ts <> "" ->
     (In m (methodsOf (ts_Name ts) file) <->
      In (FuncDeclNode m) (f_Decls file) /\
      exists more : FieldList,
        fn_Recv m = Some (Ident (ts_Name ts) :: more) \/
        fn_Recv m = Some (StarExpr (Ident (ts_Name ts)) :: more))).
Proof.
  split.
  - intros Hflag. unfold formatType, formatTypeWith. rewrite bind_run.
    pose proof (readSourceLines_ran w (Filename (ts_Pos ts)) (Line (ts_Pos ts))
                  (Line (ts_End ts)) st) as (Hf1 & Hn1 & _).
    set (st1 := snd (readSourceLines w (Filename (ts_Pos ts)) (Line (ts_Pos ts))
                       (Line (ts_End ts)) st)) in *.
    assert (Himpls :
      (match ts_Type ts with
       | InterfaceType true =>
           if includeImplementers
              && isFileInWorkspace w (Filename (ts_Pos ts)) ws
           then
             r <- formatImplementers w (Filename (ts_Pos ts)) (Line (ts_Pos ts))
                    (ts_Name ts) ;;
             ret [Text (nl +:+ nl); Call WImplementers [Text r]]
           else ret []
       | _ => ret []
       end) st1 = (([] : list Out), st1)).
    { destruct Hflag as [->|Hi].
      - destruct (ts_Type ts) as [n|x|[|]|]; reflexivity.
      - destruct (ts_Type ts) as [n|x|[|]|]; try reflexivity. discriminate Hi. }
    rewrite bind_run, Himpls. cbn [fst snd]. rewrite !bind_run.
    rewrite (GetOrParseFile_sameStore w (Filename (ts_Pos ts)) st st1)
      by (split; congruence).
    cbn [fst snd ret].
    destruct (GetOrParseFile w (Filename (ts_Pos ts)) st1) as [[c|e] st2];
      cbn [fst snd ret].
    + rewrite !functionCalls_app, methods_loop_calls. cbn [app].
      destruct (includeReferences && isFileInWorkspace w (Filename (ts_Pos ts)) ws).
      * rewrite bind_run. cbn. now rewrite app_nil_r.
      * cbn. now rewrite app_nil_r.
    + destruct (includeReferences && isFileInWorkspace w (Filename (ts_Pos ts)) ws).
      * rewrite bind_run. reflexivity.
      * reflexivity.
  - intros file m Hne. rewrite methodsOf_flat_map, in_flat_map. split.
    + intros ([d|g|] & Hin & Hm); try destruct Hm.
      destruct (fn_Recv d) as [[|recv more]|] eqn:Hrecv; try destruct Hm.
      destruct (String.eqb (extractReceiverTypeName recv) (ts_Name ts)) eqn:E;
        [|destruct Hm].
      destruct Hm as [<-|[]]. split; [exact Hin|].
      rewrite Hrecv. apply (receiver_of recv _ Hne) in E. exists more.
      destruct E as [->| ->]; auto.
    + intros [Hin (more & Hrecv)]. exists (FuncDeclNode m). split; [exact Hin|].
      destruct Hrecv as [-> | ->]; cbn [extractReceiverTypeName];
        rewrite String.eqb_refl; now left.
Qed.

End TypeMethods.
Section ImplementerGroups.
Import Ast World Run GoString Cache Gopls Format Lookup.
Local Open Scope go_scope.

Lemma linesIn_app (fp : string) (a b : list (string * Z)) :
  linesIn fp (a ++ b) = linesIn fp a ++ linesIn fp b.
Proof. unfold linesIn. apply flat_map_app. Qed.

Lemma implementers_loop (w : World.t) (fp : string) (lines : list string) :
  forall acc : gmap string (list Z),
    let step :=
      fun (line : string) =>
        let line := TrimSpace w line in
        if String.eqb line "" then []
        else match splitLocation line with
             | Some loc => [loc]
             | None => []
             end in
    let m :=
      fold_left
        (fun (implementers : gmap string (list Z)) line =>
           let line := TrimSpace w line in
           if String.eqb line "" then implementers
           else
             match splitLocation line with
             | None => implementers
             | Some (fp, ln) =>
                 <[fp := default [] (implementers !! fp) ++ [ln]]> implementers
             end)
        lines acc in
    default [] (m !! fp)
    = default [] (acc !! fp) ++ linesIn fp (flat_map step lines) /\
    (is_Some (m !! fp)
     <-> is_Some (acc !! fp) \/ In fp (map fst (flat_map step lines))).
Proof.
  induction lines as [|line lines IH]; intros acc; cbv zeta.
  - cbn. rewrite app_nil_r. split; [reflexivity | tauto].
  - cbn [fold_left flat_map]. cbv zeta in IH.
    destruct (String.eqb (TrimSpace w line) "").
    + cbn [app]. apply IH.
    + destruct (splitLocation (TrimSpace w line)) as [[fp' ln]|].
      * specialize (IH (<[fp' := default [] (acc !! fp') ++ [ln]]> acc)).
        destruct IH as [IH1 IH2]. rewrite IH1, IH2.
        rewrite linesIn_app, map_app. cbn [linesIn flat_map fst snd map app].
        destruct (String.eqb_spec fp' fp) as [->|Hne].
        -- rewrite lookup_insert_eq. cbn [default id]. rewrite <- !app_assoc.
           cbn [app]. split; [reflexivity|].
           split; [intros _; right; now left|]. intros _. left. eauto.
        -- rewrite lookup_insert_ne by exact Hne. cbn [app].
           split; [reflexivity|]. cbn [In]. split.
           ++ intros [H|H]; auto.
           ++ intros [H|[H|H]]; auto. congruence.
      * cbn [app]. apply IH.
Qed.

(** X25. [formatImplementers] groups the locations gopls printed by file
    without losing, repeating or reordering any: the map it builds has an
    entry exactly for the files of the locations, and the entry of a file
    holds the lines of the locations of that file in the order in which
    gopls printed them.  Lines of the output that are blank, have fewer than
    three parts or have no number for a line are left out. *)
Theorem implementers_grouped_by_file
    (w : World.t) (outputStr : string) (fp : string) :
  default [] (groupImplementers w outputStr !! fp)
  = linesIn fp (locationsOf w outputStr) /\
  (is_Some (groupImplementers w outputStr !! fp)
   <-> In fp (map fst (locationsOf w outputStr))).
Proof.
  pose proof (implementers_loop w fp (splitOn newline outputStr) ∅) as H.
  cbv zeta in H. rewrite lookup_empty in H. cbn [default app] in H.
  destruct H as [H1 H2]. split; [exact H1|].
  unfold groupImplementers, locationsOf. rewrite H2.
  split; [intros [[x Hx]|H]; [discriminate | exact H] | now right].
Qed.

End ImplementerGroups.

Section ScopeSection.
Import Ast World Run GoString Cache Gopls Scope Lookup.
Local Open Scope go_scope.

Lemma scope_lines (hierarchy : list string) :
  forall (b : string) (i : nat),
    fst (fold_left
           (fun '(b, i) scope => (b +:+ Repeat "  " i +:+ scope +:+ nl, S i))
           hierarchy (b, i))
    = b +:+ indentedFrom i hierarchy.
Proof.
  induction hierarchy as [|scope rest IH]; intros b i; cbn [fold_left indentedFrom].
  - cbn. now rewrite string_app_nil_r.
  - rewrite IH. now rewrite !string_app_assoc.
Qed.

(** X26. When the builder of the hierarchy returns, the scope section is
    the header followed by the frames of the hierarchy of the line, one per
    text line and in order, the frame at depth [i] indented by [2 i] spaces;
    so its first frame is the package, not indented.  When the builder
    panics [formatScope] does not return.  When the parameters are invalid
    nothing is read, parsed or cached, and when the file does not parse the
    section holds the error. *)
Theorem formatScope_indents_by_depth
    (w : World.t) (filePath : string) (lineNumber : Z) (st : State) :
  (filePath = "" \/ lineNumber <= 0 ->
   Format.formatScope w filePath lineNumber st
   = (Some ("Scope:" +:+ nl +:+ "Invalid parameters for determining scope"
            +:+ nl), st)) /\
  (filePath <> "" -> 0 < lineNumber ->
   fst (Format.formatScope w filePath lineNumber st)
   = match fst (GetOrParseFile w filePath st) with
     | inl c =>
         match buildScopeHierarchyAtLine (cf_ast c) lineNumber with
         | Some hierarchy =>
             Some ("Scope:" +:+ nl +:+ "package " +:+ f_Name (cf_ast c) +:+ nl
                   +:+ indentedFrom 1 (tl hierarchy))
         | None => None
         end
     | inr err =>
         Some ("Scope:" +:+ nl +:+ "Error parsing file: " +:+ err +:+ nl)
     end).
Proof.
  unfold Format.formatScope. split.
  - intros [->|Hl]; [reflexivity|].
    replace (lineNumber <=? 0) with true by (symmetry; now apply Z.leb_le).
    now rewrite orb_true_r.
  - intros Hf Hl. rewrite (eqb_neq_empty _ Hf).
    replace (lineNumber <=? 0) with false by (symmetry; apply Z.leb_gt; lia).
    cbn [orb]. rewrite bind_run.
    destruct (fst (GetOrParseFile w filePath st)) as [c|err]; [|reflexivity].
    rewrite buildScopeHierarchyAtLine_frames.
    destruct (existsb (emptyReceiverAt lineNumber) (f_Decls (cf_ast c)));
      [reflexivity|].
    cbn [fst ret]. rewrite scope_lines. cbn [indentedFrom tl Repeat].
    rewrite app_Empty, !string_app_assoc. reflexivity.
Qed.

Lemma formatScope_indents_by_depth_witness :
  fst (Format.formatScope Sample.vWorld "/w/v.go" 10 Cache.initial)
  = Some ("Scope:" +:+ nl +:+ "package v" +:+ nl
          +:+ "  type Point (lines 9-11)" +:+ nl).
Proof.
  exact (proj2 (formatScope_indents_by_depth Sample.vWorld "/w/v.go" 10
                  Cache.initial) ltac:(discriminate) ltac:(lia)).
Defined.

End ScopeSection.
